(** * Verification of the migration engine of [cloud/migrate.js]

    The development embeds [cloud/migrate.js] and [cloud/consts.js] and
    proves properties of the trigger registry, of the composed
    before/after callbacks and of the import job.

    Conventions of the embedding.
    - A promise chain is a computation in a state-and-failure monad [P]:
      [p.then(f)] is [bind], [p.then(f, g)] is [then2].  A thrown exception
      inside a [then] callback and a rejected promise are the same outcome,
      [Failed].
    - A chain that recurses runs on a step budget; [None] is the budget
      running out, which no handler and no SDK primitive produces.
    - The state carries the world outside the engine (object store, user
      backend, clock), of an arbitrary type [W], and a trace of the calls
      the engine makes.  Only the engine writes the trace: user handlers and
      SDK primitives are functions on [W].
    - A call of a user handler returns a value, taken as a promise that is
      fulfilled or rejected, or throws.  Every handler but afterSave is
      called inside a [then] callback, where a throw rejects the chain as a
      rejected promise does; [h args w] is the outcome of such a call.
      afterSave is called by the composed callback itself, where a throw
      leaves the callback at once.
    - Handlers receive records by value.  The documented way for a before
      handler to change what is written is to resolve to a replacement
      Parse object (header comment of migrate.js); migrate handlers must
      not change the record (comment in getBeforeSave). *)

From stdpp Require Import base strings gmap list pretty.
From Stdlib Require Import ZArith Lia.

Local Open Scope string_scope.

(** ** JavaScript values and Parse objects *)

(** A [Parse.Object] as far as the engine observes it: [get]/[set] on
    numeric attributes, [dirtyKeys()], [isNew()] (no [id] yet) and
    [existed()]. *)
Record ParseObject := mkObject {
  className : string;
  objectId : option string;
  attributes : gmap string Z;
  dirty : list string;
  existedFlag : bool
}.

#[global] Instance ParseObject_eq_dec : EqDecision ParseObject.
Proof. solve_decision. Defined.

Definition get (o : ParseObject) (key : string) : option Z :=
  attributes o !! key.

Definition markDirty (key : string) (keys : list string) : list string :=
  if bool_decide (key ∈ keys) then keys else keys ++ [key].

Definition set_ (o : ParseObject) (key : string) (v : Z) : ParseObject :=
  {| className := className o;
     objectId := objectId o;
     attributes := <[key := v]> (attributes o);
     dirty := markDirty key (dirty o);
     existedFlag := existedFlag o |}.

Definition isNew (o : ParseObject) : bool :=
  match objectId o with Some _ => false | None => true end.

Definition existed (o : ParseObject) : bool := existedFlag o.

Definition dirtyKeys (o : ParseObject) : list string := dirty o.

(** The record as the host hands it to afterSave once its first save is
    stored under [id]: it has an id, nothing is dirty, and it did not exist
    before. *)
Definition afterFirstSave (o : ParseObject) (id : string) : ParseObject :=
  {| className := className o; objectId := Some id;
     attributes := attributes o; dirty := []; existedFlag := false |}.

(** The values that flow through the promise chains. *)
#[local] Set Warnings "-register-all".
Inductive JsVal :=
| JUndefined
| JNull
| JNum (n : Z)
| JStr (s : string)
| JParse (o : ParseObject)
| JArray (vs : list JsVal)
| JTypeError (msg : string).

(** Outcome of a computation: a fulfilled promise or normal return, or a
    rejected promise or thrown exception. *)
Inductive Res (A : Type) :=
| Fulfilled (a : A)
| Failed (e : JsVal).
Arguments Fulfilled {A} a.
Arguments Failed {A} e.

(** ** consts.js *)

Definition MIGRATION_KEY : string := "migrationStatus".
Definition IS_MIGRATED : Z := 1.
Definition FINISHED_SECOND_PASS : Z := 2.
Definition NEEDS_SECOND_PASS : Z := 3.
(** [BATCH_SIZE] is "exported so it can be lowered in tests": the engine
    reads it at run time, so it is a parameter of the engine below. *)
Definition DEFAULT_BATCH_SIZE : nat := 1000.

(** [MAXIMUM_DURATION = 14.5 * 60 * 1000] milliseconds. *)
Definition MAXIMUM_DURATION : Z := 870000.

(** [obj.get(key) == n] for a numeric constant [n]: [undefined == n] is
    false. *)
Definition looseEq (v : option Z) (n : Z) : bool :=
  match v with Some m => Z.eqb m n | None => false end.

(** ** classString, def, isParseObject *)

(** A class is named by a string or by a constructor; of a constructor the
    engine uses the [className] of a fresh instance and, in the duplicate
    error message, its conversion to a string. *)
Inductive Klass :=
| KString (name : string)
| KCtor (source : string) (instanceClassName : string).

Definition classString (klass : Klass) : string :=
  match klass with
  | KString s => s
  | KCtor _ cn => cn
  end.

Definition klassToString (klass : Klass) : string :=
  match klass with
  | KString s => s
  | KCtor src _ => src
  end.

Definition def {A} (symbol : option A) : bool :=
  match symbol with Some _ => true | None => false end.

(** [typeof(obj) === "object" && def(obj._applyOpSet)]: reading a property
    of [null] throws. *)
Definition isParseObject (obj : JsVal) : Res bool :=
  match obj with
  | JUndefined | JNum _ | JStr _ => Fulfilled false
  | JNull => Failed (JTypeError "Cannot read property '_applyOpSet' of null")
  | JParse _ => Fulfilled true
  | JArray _ | JTypeError _ => Fulfilled false
  end.

Inductive TriggerType :=
| BeforeSave | AfterSave | BeforeDelete | AfterDelete
| MigrateObject | MigrateDelete.

#[global] Instance TriggerType_eq_dec : EqDecision TriggerType.
Proof. solve_decision. Defined.

Definition triggerName (t : TriggerType) : string :=
  match t with
  | BeforeSave => "beforeSave"
  | AfterSave => "afterSave"
  | BeforeDelete => "beforeDelete"
  | AfterDelete => "afterDelete"
  | MigrateObject => "migrateObject"
  | MigrateDelete => "migrateDelete"
  end.

Record Request := { object : ParseObject }.

(** A query as the engine builds it:
    [new Query(klass).notContainedIn(key, values).limit(n)]. *)
Record Query := {
  q_class : string;
  q_notContainedIn : string * list Z;
  q_limit : nat
}.

Declare Scope promise_scope.
Delimit Scope promise_scope with promise.

Section Engine.

(** The world outside the engine. *)
Context {W : Type}.

(** A response object or status sink: [success] and [error]. *)
Record Sink := {
  success : JsVal -> W -> Res JsVal * W;
  error : JsVal -> W -> Res JsVal * W
}.

(** How a user handler is called. *)
Inductive CallArgs :=
| ArgRequestResponse (request : Request) (response : Sink)
| ArgRequest (request : Request)
| ArgObject (obj : ParseObject)
| ArgValue (v : JsVal).

(** What a call of a user handler does: it returns a value, taken as a
    promise that is fulfilled or rejected, or it throws. *)
Inductive Returned :=
| Returns (promise : Res JsVal)
| Throws (e : JsVal).

(** A user handler: what a call of it does, to the world too. *)
Record Callback := { behaviour : CallArgs -> W -> Returned * W }.

(** A call from inside a [then] callback: what the handler throws rejects
    the chain, as a rejected promise does. *)
Definition settled (callback : Callback) (args : CallArgs) (w : W) : Res JsVal * W :=
  match behaviour callback args w with
  | (Returns promise, w') => (promise, w')
  | (Throws e, w') => (Failed e, w')
  end.

Coercion settled : Callback >-> Funclass.

(** Work done in the chain of the promise a handler returns: a failure
    rejects the promise. *)
Definition promised (outcome : Res JsVal * W) : Returned * W :=
  (Returns (fst outcome), snd outcome).

(** Work done by the handler before it returns: a failure is an exception
    thrown by the handler. *)
Definition thrown (outcome : Res JsVal * W) : Returned * W :=
  match outcome with
  | (Fulfilled v, w) => (Returns (Fulfilled v), w)
  | (Failed e, w) => (Throws e, w)
  end.

(** A handler that returns a promise; [f] is how the promise settles. *)
Definition returning (f : CallArgs -> W -> Res JsVal * W) : Callback :=
  {| behaviour := fun args w => promised (f args w) |}.

(** A handler that does its work before it returns. *)
Definition synchronous (f : CallArgs -> W -> Res JsVal * W) : Callback :=
  {| behaviour := fun args w => thrown (f args w) |}.

(** The exception with which a call of the handler, if there is one,
    ends. *)
Definition thrownBy (h : option Callback) (args : CallArgs) (w : W) : option JsVal :=
  match h with
  | Some f =>
      match behaviour f args w with
      | (Throws e, _) => Some e
      | (Returns _, _) => None
      end
  | None => None
  end.

(** The injected [Parse] SDK and the JavaScript environment. *)
Record ParseSDK := {
  query_find : Query -> W -> Res (list ParseObject) * W;
  object_save : ParseObject -> W -> Res JsVal * W;
  date_now : W -> Z;
  date_toString : W -> string
}.

Variable parse : ParseSDK.
Variable BATCH_SIZE : nat.

Inductive Event :=
| EvCall (t : TriggerType) (args : CallArgs)
| EvFind (q : Query)
| EvSave (o : ParseObject)
| EvResponseSuccess (v : JsVal)
| EvResponseError (e : JsVal)
| EvStatusSuccess (message : JsVal)
| EvStatusError (e : JsVal).

Record State := { trace : list Event; world : W }.

Definition P (A : Type) : Type := State -> option (Res A * State).

Definition ret {A} (a : A) : P A := fun st => Some (Fulfilled a, st).

Definition fail {A} (e : JsVal) : P A := fun st => Some (Failed e, st).

Definition outOfFuel {A} : P A := fun _ => None.

(** [m.then(f)] *)
Definition bind {A B} (m : P A) (f : A -> P B) : P B :=
  fun st =>
    match m st with
    | Some (Fulfilled a, st') => f a st'
    | Some (Failed e, st') => Some (Failed e, st')
    | None => None
    end.

(** [m.then(onOk, onErr)]: [onErr] does not see a failure of [onOk]. *)
Definition then2 {A B} (m : P A) (onOk : A -> P B) (onErr : JsVal -> P B) : P B :=
  fun st =>
    match m st with
    | Some (Fulfilled a, st') => onOk a st'
    | Some (Failed e, st') => onErr e st'
    | None => None
    end.

(** Runs a chain to its outcome without propagating it. *)
Definition settle {A} (m : P A) : P (Res A) :=
  fun st =>
    match m st with
    | Some (r, st') => Some (Fulfilled r, st')
    | None => None
    end.

Definition emit (ev : Event) : P unit :=
  fun st => Some (Fulfilled tt, {| trace := trace st ++ [ev]; world := world st |}).

Definition liftW {A} (f : W -> Res A * W) : P A :=
  fun st =>
    let '(r, w) := f (world st) in
    Some (r, {| trace := trace st; world := w |}).

Notation "x <- m ;; k" := (bind m (fun x => k))
  (at level 100, m at next level, right associativity) : promise_scope.
Notation "m ;;; k" := (bind m (fun _ => k))
  (at level 100, right associativity) : promise_scope.
Local Open Scope promise_scope.

(** [Parse.Promise.as(v)]. *)
Definition as_ {A} (v : A) : P A := ret v.

(** [console.log] is not part of the trace. *)
Definition console_log (line : string) : P unit := ret tt.

(** A call of a user handler from inside a [then] callback, recorded in
    the trace. *)
Definition invoke (t : TriggerType) (callback : Callback) (args : CallArgs) : P JsVal :=
  emit (EvCall t args) ;;; liftW (settled callback args).

(** A call of a user handler by the composed callback itself, outside any
    [then]: an exception leaves the callback, [Failed]; otherwise the result
    is the promise the handler returned. *)
Definition callNow (t : TriggerType) (callback : Callback) (args : CallArgs)
  : P (Res JsVal) :=
  emit (EvCall t args) ;;;
  fun st =>
    match behaviour callback args (world st) with
    | (Returns promise, w) => Some (Fulfilled promise, {| trace := trace st; world := w |})
    | (Throws e, w) => Some (Failed e, {| trace := trace st; world := w |})
    end.

Definition response_success (response : Sink) (v : JsVal) : P JsVal :=
  emit (EvResponseSuccess v) ;;; liftW (success response v).

Definition response_error (response : Sink) (e : JsVal) : P JsVal :=
  emit (EvResponseError e) ;;; liftW (error response e).

Definition status_success (status : Sink) (v : JsVal) : P JsVal :=
  emit (EvStatusSuccess v) ;;; liftW (success status v).

Definition status_error (status : Sink) (e : JsVal) : P JsVal :=
  emit (EvStatusError e) ;;; liftW (error status e).

Definition find (q : Query) : P (list ParseObject) :=
  emit (EvFind q) ;;; liftW (query_find parse q).

Definition save (o : ParseObject) : P JsVal :=
  emit (EvSave o) ;;; liftW (object_save parse o).

Definition Date_now : P Z := fun st => Some (Fulfilled (date_now parse (world st)), st).

(** [ThisIsNotAResponseObject]: both methods throw. *)
Definition ThisIsNotAResponseObject : Sink :=
  {| success := fun _ w =>
       (Failed (JStr "The migration tool expects you to return promises, not use callbacks"), w);
     error := fun _ w =>
       (Failed (JStr "The migration tool expecgts you to return promises, not use callbacks"), w) |}.

(** A handler written in the callback style of Cloud Code: after work of
    its own it calls [response.success(v)] or [response.error(v)] and goes
    on with [k] when the call returns. *)
Definition andThen (call : W -> Res JsVal * W) (k : JsVal -> W -> Res JsVal * W)
  : W -> Res JsVal * W :=
  fun w =>
    match call w with
    | (Fulfilled x, w') => k x w'
    | (Failed e, w') => (Failed e, w')
    end.

(** [call] is [response.success(v)] or [response.error(v)]. *)
Definition answers (response : Sink) (call : W -> Res JsVal * W) : Prop :=
  exists v, call = success response v \/ call = error response v.

(** A handler in the callback style that answers before it is done: it
    calls the response object while it runs, or in the chain of the promise
    it returns. *)
Definition usesCallbacks (h : Callback) : Prop :=
  forall request response w,
    exists call w1 k,
      answers response call
      /\ (behaviour h (ArgRequestResponse request response) w = thrown (andThen call k w1)
          \/ behaviour h (ArgRequestResponse request response) w
             = promised (andThen call k w1)).

(** A handler in the callback style that answers later: it starts work
    with a callback of its own, returns [undefined], and calls the response
    object from that callback, which runs when the chain of the composed
    callback has gone on.  [answer] is that call; what it throws is thrown
    into the callback of the work, not into the chain. *)
Definition answersLater (h : Callback) (answer : Sink -> W -> Res JsVal * W) : Prop :=
  (forall request response w,
     exists w1,
       behaviour h (ArgRequestResponse request response) w
       = (Returns (Fulfilled JUndefined), w1))
  /\ forall response, answers response (answer response).

(** ** The trigger registry *)

Record Handlers := {
  beforeSave : option Callback;
  afterSave : option Callback;
  beforeDelete : option Callback;
  afterDelete : option Callback;
  migrateObject : option Callback;
  migrateDelete : option Callback
}.

(** The empty object [{}]. *)
Definition noHandlers : Handlers :=
  {| beforeSave := None; afterSave := None; beforeDelete := None;
     afterDelete := None; migrateObject := None; migrateDelete := None |}.

(** [obj[triggerType]] *)
Definition getTrigger (obj : Handlers) (t : TriggerType) : option Callback :=
  match t with
  | BeforeSave => beforeSave obj
  | AfterSave => afterSave obj
  | BeforeDelete => beforeDelete obj
  | AfterDelete => afterDelete obj
  | MigrateObject => migrateObject obj
  | MigrateDelete => migrateDelete obj
  end.

(** [obj[triggerType] = callback] *)
Definition setTrigger (obj : Handlers) (t : TriggerType) (callback : Callback) : Handlers :=
  match t with
  | BeforeSave =>
      {| beforeSave := Some callback; afterSave := afterSave obj;
         beforeDelete := beforeDelete obj; afterDelete := afterDelete obj;
         migrateObject := migrateObject obj; migrateDelete := migrateDelete obj |}
  | AfterSave =>
      {| beforeSave := beforeSave obj; afterSave := Some callback;
         beforeDelete := beforeDelete obj; afterDelete := afterDelete obj;
         migrateObject := migrateObject obj; migrateDelete := migrateDelete obj |}
  | BeforeDelete =>
      {| beforeSave := beforeSave obj; afterSave := afterSave obj;
         beforeDelete := Some callback; afterDelete := afterDelete obj;
         migrateObject := migrateObject obj; migrateDelete := migrateDelete obj |}
  | AfterDelete =>
      {| beforeSave := beforeSave obj; afterSave := afterSave obj;
         beforeDelete := beforeDelete obj; afterDelete := Some callback;
         migrateObject := migrateObject obj; migrateDelete := migrateDelete obj |}
  | MigrateObject =>
      {| beforeSave := beforeSave obj; afterSave := afterSave obj;
         beforeDelete := beforeDelete obj; afterDelete := afterDelete obj;
         migrateObject := Some callback; migrateDelete := migrateDelete obj |}
  | MigrateDelete =>
      {| beforeSave := beforeSave obj; afterSave := afterSave obj;
         beforeDelete := beforeDelete obj; afterDelete := afterDelete obj;
         migrateObject := migrateObject obj; migrateDelete := Some callback |}
  end.

(** [this._triggers]: a JavaScript object keyed by class name.  [_.each]
    visits its keys in insertion order, so it is an association list with
    one entry per key. *)
Record Migrator := { _triggers : list (string * Handlers) }.

(** [new Migrator(Parse)] *)
Definition newMigrator : Migrator := {| _triggers := [] |}.

(** [triggers[key]] *)
Fixpoint lookupKey (key : string) (triggers : list (string * Handlers)) : option Handlers :=
  match triggers with
  | [] => None
  | (k, h) :: rest => if bool_decide (k = key) then Some h else lookupKey key rest
  end.

(** [triggers[key] = obj]: an existing key keeps its place, a new one goes
    last. *)
Fixpoint assignKey (key : string) (obj : Handlers) (triggers : list (string * Handlers))
  : list (string * Handlers) :=
  match triggers with
  | [] => [(key, obj)]
  | (k, h) :: rest =>
      if bool_decide (k = key) then (k, obj) :: rest
      else (k, h) :: assignKey key obj rest
  end.

Definition alreadyRegistered (triggerType : TriggerType) (klass : Klass) : JsVal :=
  JStr ("Already registered a " ++ triggerName triggerType ++ " trigger for "
        ++ klassToString klass).

(** [Migrator.prototype._registerFn]: the result is the registry after the
    call, or the exception thrown. *)
Definition _registerFn (triggerType : TriggerType)
    (klass : Klass) (callback : Callback) (self : Migrator) : Res Migrator :=
  let key := classString klass in
  let obj := default noHandlers (lookupKey key (_triggers self)) in
  if def (getTrigger obj triggerType) then
    Failed (alreadyRegistered triggerType klass)
  else
    let obj := setTrigger obj triggerType callback in
    Fulfilled {| _triggers := assignKey key obj (_triggers self) |}.

(** [Migrator.prototype.handlers] *)
Definition handlers (self : Migrator) (klass : Klass) : Handlers :=
  default noHandlers (lookupKey (classString klass) (_triggers self)).

(** A handler of kind [t] is registered under [key]. *)
Definition registered (key : string) (t : TriggerType) (self : Migrator) : bool :=
  def (getTrigger (default noHandlers (lookupKey key (_triggers self))) t).

(** ** Promise combinators of the SDK *)

Definition liftRes {A} (r : Res A) : P A := fun st => Some (r, st).

(** Runs the chains of a fan-out one after the other and keeps every
    outcome: the chains were all started when the list was built, so a
    failure of one does not stop the others. *)
Fixpoint settleAll {A} (ps : list (P A)) : P (list (Res A)) :=
  match ps with
  | [] => ret []
  | p :: rest => r <- settle p ;; rs <- settleAll rest ;; ret (r :: rs)
  end.

(** The values of a fan-out if every chain was fulfilled, and the errors
    of those that failed. *)
Fixpoint collect {A} (rs : list (Res A)) : list A * list JsVal :=
  match rs with
  | [] => ([], [])
  | Fulfilled v :: rest => (v :: fst (collect rest), snd (collect rest))
  | Failed e :: rest => (fst (collect rest), e :: snd (collect rest))
  end.

(** [Parse.Promise.when(promises)]: settles when all of them have; fails,
    with the errors, if any failed. *)
Definition promise_when {A} (ps : list (P A)) : P (list A) :=
  rs <- settleAll ps ;;
  match collect rs with
  | (vs, []) => ret vs
  | (_, errs) => fail (JArray errs)
  end.

(** [Parse.Promise.all(promises)]: fails with the first error. *)
Definition promise_all (ps : list (P JsVal)) : P JsVal :=
  rs <- settleAll ps ;;
  match collect rs with
  | (vs, []) => ret (JArray vs)
  | (_, e :: _) => fail e
  end.

(** ** Composed callbacks *)

(** [changed.length === 1 && changed[0] == consts.MIGRATION_KEY] *)
Definition onlyMigrationKey (changed : list string) : bool :=
  Nat.eqb (length changed) 1 && bool_decide (head changed = Some MIGRATION_KEY).

(** First [then] of getBeforeSave: the user's beforeSave, unless this is
    the quick second pass. *)
Definition beforeSaveStage (beforeSave_ : option Callback) (request : Request) : P JsVal :=
  let changed := dirtyKeys (object request) in
  let shouldBeforeSave := def beforeSave_ && negb (onlyMigrationKey changed) in
  as_ tt ;;;
  if shouldBeforeSave then
    match beforeSave_ with
    | Some f => invoke BeforeSave f (ArgRequestResponse request ThisIsNotAResponseObject)
    | None => ret JUndefined
    end
  else ret JUndefined.

(** [obj = isParseObject(maybeNew) ? maybeNew : request.object] *)
Definition workingRecord (maybeNew : JsVal) (request : Request) : Res ParseObject :=
  match isParseObject maybeNew with
  | Fulfilled true =>
      match maybeNew with
      | JParse o => Fulfilled o
      | _ => Fulfilled (object request)
      end
  | Fulfilled false => Fulfilled (object request)
  | Failed e => Failed e
  end.

(** Second [then] of getBeforeSave. *)
Definition migrateStage (migrate : option Callback) (request : Request) (maybeNew : JsVal)
  : P ParseObject :=
  obj <- liftRes (workingRecord maybeNew request) ;;
  (* Hybrid apps can explicitly opt-out. *)
  if looseEq (get obj MIGRATION_KEY) IS_MIGRATED || negb (def migrate) then ret obj
  else if isNew obj then ret obj
  else
    let obj :=
      if looseEq (get obj MIGRATION_KEY) NEEDS_SECOND_PASS
      then set_ obj MIGRATION_KEY FINISHED_SECOND_PASS
      else set_ obj MIGRATION_KEY IS_MIGRATED in
    (as_ tt ;;;
     match migrate with
     | Some f => invoke MigrateObject f (ArgObject obj)
     | None => ret JUndefined
     end) ;;;
    ret obj.

(** [Migrator.prototype.getBeforeSave] *)
Definition getBeforeSave (self : Migrator) (klass : Klass) : Request -> Sink -> P JsVal :=
  let handlers_ := handlers self klass in
  let beforeSave_ := beforeSave handlers_ in
  let migrate := migrateObject handlers_ in
  fun request response =>
    then2
      (maybeNew <- beforeSaveStage beforeSave_ request ;;
       migrateStage migrate request maybeNew)
      (fun obj => response_success response (JParse obj))
      (fun err => response_error response err).

(** [maybeTouch] of getAfterSave *)
Definition maybeTouch (migrate : option Callback) (obj : ParseObject) : P JsVal :=
  if existed obj || negb (def migrate) then as_ JUndefined
  else
    let obj := set_ obj MIGRATION_KEY NEEDS_SECOND_PASS in
    save obj.

(** [Migrator.prototype.getAfterSave].  The array handed to
    [Promise.all] is built by the callback itself: [afterSave(request)] is
    called first, then [maybeTouch]; if the handler throws, [maybeTouch] is
    not reached and the exception leaves the callback.  [Failed] is that
    exception, or the rejection of the promise the callback returns. *)
Definition getAfterSave (self : Migrator) (klass : Klass) : Request -> P JsVal :=
  let handlers_ := handlers self klass in
  let afterSave_ := afterSave handlers_ in
  let migrate := migrateObject handlers_ in
  fun request =>
    match afterSave_ with
    | Some f =>
        promise <- callNow AfterSave f (ArgRequest request) ;;
        promise_all [liftRes promise; maybeTouch migrate (object request)]
    | None => maybeTouch migrate (object request)
    end.

(** [Migrator.prototype.getBeforeDelete] *)
Definition getBeforeDelete (self : Migrator) (klass : Klass) : Request -> Sink -> P JsVal :=
  let handlers_ := handlers self klass in
  let beforeDelete_ := beforeDelete handlers_ in
  let migrateDelete_ := migrateDelete handlers_ in
  fun request response =>
    then2
      ((as_ tt ;;;
        match beforeDelete_ with
        | Some f => invoke BeforeDelete f (ArgRequestResponse request ThisIsNotAResponseObject)
        | None => ret JUndefined
        end) ;;;
       match migrateDelete_ with
       | Some f => invoke MigrateDelete f (ArgObject (object request))
       | None => ret JUndefined
       end)
      (fun _ => response_success response JUndefined)
      (fun err => response_error response err).

(** [Migrator.prototype.getAfterDelete]: [then(afterDelete)] hands the
    handler the value of [Promise.as()]. *)
Definition getAfterDelete (self : Migrator) (klass : Klass) : Request -> P JsVal :=
  let afterDelete_ := afterDelete (handlers self klass) in
  fun request =>
    v <- as_ JUndefined ;;
    match afterDelete_ with
    | Some f => invoke AfterDelete f (ArgValue v)
    | None => ret v
    end.

(** ** The import job *)

(** The query of [_migrateClass]. *)
Definition unmigratedQuery (klass : string) : Query :=
  {| q_class := klass;
     q_notContainedIn :=
       (MIGRATION_KEY, [IS_MIGRATED; NEEDS_SECOND_PASS; FINISHED_SECOND_PASS]);
     q_limit := BATCH_SIZE |}.

(** [Date.now() > deadline]: the comparison with [undefined] is false. *)
Definition pastDeadline (now : Z) (deadline : option Z) : bool :=
  match deadline with
  | Some d => Z.ltb d now
  | None => false
  end.

(** The chain built for one fetched record. *)
Definition migrateRecord (migration : Callback) (obj : ParseObject) : P JsVal :=
  (as_ tt ;;; invoke MigrateObject migration (ArgObject obj)) ;;;
  let obj := set_ obj MIGRATION_KEY IS_MIGRATED in
  save obj.

(** [Migrator.prototype._migrateClass]; [deadline] is [None] when the
    caller passes no third argument.  The recursion is bounded by [fuel]. *)
Fixpoint _migrateClass (fuel : nat) (klass : string) (migration : Callback)
    (deadline : option Z) : P nat :=
  match fuel with
  | O => outOfFuel
  | S fuel' =>
      now <- Date_now ;;
      if pastDeadline now deadline then
        console_log "Shutting down to avoid unclean exit from Parse Cloud Jobs" ;;;
        as_ 0
      else
        let query := unmigratedQuery klass in
        migrated <-
          (objects <- find query ;;
           let migrations := map (migrateRecord migration) objects in
           promise_when migrations ;;;
           ret (length migrations)) ;;
        (* Recursion is the for loop of async. *)
        if Nat.eqb migrated BATCH_SIZE then
          accum <- _migrateClass fuel' klass migration deadline ;;
          ret (accum + migrated)
        else
          console_log ("Done migrating " ++ klass ++ " class") ;;;
          ret migrated
  end.

(** The local [deadline] of the job, [new Date() + MAXIMUM_DURATION]: [+]
    on a Date converts both sides to strings.  The job never reads it. *)
Definition importJobDeadline (w : W) : JsVal :=
  JStr (date_toString parse w ++ "870000").

(** The chain that [_.each] builds in getImportJob.  The closure variable
    [totalMigrated] travels with the value of [lastMigration]; a class
    without a migration function only logs a line. *)
Fixpoint importChain (fuel : nat) (triggers : list (string * Handlers))
    (lastMigration : P (nat * nat)) : P (nat * nat) :=
  match triggers with
  | [] => lastMigration
  | (klass, handlers_) :: rest =>
      match migrateObject handlers_ with
      | None => importChain fuel rest lastMigration
      | Some migration =>
          importChain fuel rest
            (acc <- lastMigration ;;
             let totalMigrated := fst acc + snd acc in
             console_log ("Starting import of class " ++ klass) ;;;
             migrated <- _migrateClass fuel klass migration None ;;
             ret (totalMigrated, migrated))
      end
  end.

(** [Migrator.prototype.getImportJob].  The result is the total, or
    [None] on the error path. *)
Definition getImportJob (fuel : nat) (self : Migrator) : Request -> Sink -> P (option nat) :=
  fun request status =>
    st0 <- (fun st => Some (Fulfilled st, st)) ;;
    let deadline := importJobDeadline (world st0) in
    console_log "Starting import pass" ;;;
    let lastMigration := importChain fuel (_triggers self) (as_ (0, 0)) in
    then2
      (acc <- lastMigration ;; ret (fst acc + snd acc))
      (fun totalMigrated =>
         let message :=
           if Nat.eqb totalMigrated 0 then "Completed initial import!"
           else "Done with an import pass" in
         console_log message ;;;
         status_success status (JStr message) ;;;
         ret (Some totalMigrated))
      (fun error_ => status_error status error_ ;;; ret None).

(** ** exportTriggers *)

(** A call of [Parse.Cloud.beforeSave], [afterSave], [beforeDelete],
    [afterDelete] or [job]. *)
Inductive Installed :=
| CloudBeforeSave (klass : string) (f : Request -> Sink -> P JsVal)
| CloudAfterSave (klass : string) (f : Request -> P JsVal)
| CloudBeforeDelete (klass : string) (f : Request -> Sink -> P JsVal)
| CloudAfterDelete (klass : string) (f : Request -> P JsVal)
| CloudJob (name : string) (f : nat -> Request -> Sink -> P (option nat)).

Definition exportClass (self : Migrator) (entry : string * Handlers) : list Installed :=
  let '(klass, handlers_) := entry in
  (if def (beforeSave handlers_) || def (migrateObject handlers_)
   then [CloudBeforeSave klass (getBeforeSave self (KString klass))] else [])
  ++ (if def (afterSave handlers_) || def (migrateObject handlers_)
      then [CloudAfterSave klass (getAfterSave self (KString klass))] else [])
  ++ (if def (beforeDelete handlers_) || def (migrateDelete handlers_)
      then [CloudBeforeDelete klass (getBeforeDelete self (KString klass))] else [])
  ++ (if def (afterDelete handlers_)
      then [CloudAfterDelete klass (getAfterDelete self (KString klass))] else []).

(** [Migrator.prototype.exportTriggers]: [host] lists what is installed
    with the host so far. *)
Definition exportTriggers (self : Migrator) (host : list Installed) : list Installed :=
  host ++ flat_map (exportClass self) (_triggers self)
       ++ [CloudJob "import" (fun fuel => getImportJob fuel self)].

(** ** A setup script

    Cloud code registers its handlers one call after the other and then
    calls [exportTriggers()]; an exception ends the script where it is
    thrown. *)
Record Registration := {
  r_type : TriggerType;
  r_klass : Klass;
  r_callback : Callback
}.

Fixpoint registerAll (regs : list Registration) (self : Migrator) : Res Migrator :=
  match regs with
  | [] => Fulfilled self
  | r :: rest =>
      match _registerFn (r_type r) (r_klass r) (r_callback r) self with
      | Fulfilled self' => registerAll rest self'
      | other => other
      end
  end.

Definition setup (regs : list Registration) (host : list Installed)
  : Res Migrator * list Installed :=
  match registerAll regs newMigrator with
  | Fulfilled self => (Fulfilled self, exportTriggers self host)
  | other => (other, host)
  end.

End Engine.

Arguments Sink W : clear implicits.
Arguments CallArgs W : clear implicits.
Arguments Callback W : clear implicits.
Arguments ParseSDK W : clear implicits.
Arguments Event W : clear implicits.
Arguments State W : clear implicits.
Arguments P W A : clear implicits.
Arguments Handlers W : clear implicits.
Arguments Migrator W : clear implicits.
Arguments Installed W : clear implicits.
Arguments Registration W : clear implicits.

Notation "x <- m ;; k" := (bind m (fun x => k))
  (at level 100, m at next level, right associativity) : promise_scope.
Notation "m ;;; k" := (bind m (fun _ => k))
  (at level 100, right associativity) : promise_scope.

(** ** Observations on a trace *)

Section Observations.

Context {W : Type}.

Definition isCall (t : TriggerType) (ev : Event W) : bool :=
  match ev with
  | EvCall t' _ => bool_decide (t' = t)
  | _ => false
  end.

Definition isFind (ev : Event W) : bool :=
  match ev with EvFind _ => true | _ => false end.

(** How often a handler of kind [t] was called. *)
Definition calls (t : TriggerType) (evs : list (Event W)) : nat :=
  length (List.filter (isCall t) evs).

(** How many queries were issued. *)
Definition finds (evs : list (Event W)) : nat :=
  length (List.filter isFind evs).

(** The saves issued before the next query. *)
Fixpoint savesUntilFind (evs : list (Event W)) : nat :=
  match evs with
  | [] => 0
  | EvFind _ :: _ => 0
  | EvSave _ :: rest => S (savesUntilFind rest)
  | _ :: rest => savesUntilFind rest
  end.

(** The rounds of a sweep: one entry per query, the number of records saved
    after it. *)
Fixpoint rounds (evs : list (Event W)) : list nat :=
  match evs with
  | [] => []
  | EvFind _ :: rest => savesUntilFind rest :: rounds rest
  | _ :: rest => rounds rest
  end.

(** The records handed to [save], in order. *)
Fixpoint savedRecords (evs : list (Event W)) : list ParseObject :=
  match evs with
  | [] => []
  | EvSave o :: rest => o :: savedRecords rest
  | _ :: rest => savedRecords rest
  end.

(** The state a callback or job starts from. *)
Definition start (w : W) : State W := {| trace := []; world := w |}.

End Observations.

(** ** An object store in memory

    The SDK primitives the import job consumes, over a list of persisted
    records in the store's default order and a clock.  Every store
    operation takes [latency] milliseconds; a save of a record whose id is
    in [brokenIds] is rejected and persists nothing. *)
Module MemStore.

Record World := {
  rows : list ParseObject;
  clock : Z;
  latency : Z;
  brokenIds : list string;
  backend : list string
}.

Definition tick (w : World) : World :=
  {| rows := rows w; clock := (clock w + latency w)%Z; latency := latency w;
     brokenIds := brokenIds w; backend := backend w |}.

Definition withRows (rs : list ParseObject) (w : World) : World :=
  {| rows := rs; clock := clock w; latency := latency w;
     brokenIds := brokenIds w; backend := backend w |}.

(** [notContainedIn] also selects the records without the key. *)
Definition matches (q : Query) (o : ParseObject) : bool :=
  bool_decide (className o = q_class q)
  && match get o (fst (q_notContainedIn q)) with
     | Some v => negb (bool_decide (v ∈ snd (q_notContainedIn q)))
     | None => true
     end.

Definition mem_find (q : Query) (w : World) : Res (list ParseObject) * World :=
  (Fulfilled (take (q_limit q) (List.filter (matches q) (rows w))), tick w).

Definition rejects (w : World) (o : ParseObject) : bool :=
  match objectId o with
  | Some i => bool_decide (i ∈ brokenIds w)
  | None => false
  end.

(** The record as the store holds it after a save. *)
Definition persisted (o : ParseObject) : ParseObject :=
  {| className := className o; objectId := objectId o;
     attributes := attributes o; dirty := []; existedFlag := true |}.

Definition replaceRow (o : ParseObject) (r : ParseObject) : ParseObject :=
  if bool_decide (objectId r = objectId o) then o else r.

(** A save of a record that has no id yet creates a row. *)
Definition created (o : ParseObject) (n : nat) : ParseObject :=
  afterFirstSave o ("row" ++ pretty n).

Definition mem_save (o : ParseObject) (w : World) : Res JsVal * World :=
  if rejects w o then (Failed (JStr "save failed"), tick w)
  else if isNew o then
    let o' := created o (length (rows w)) in
    (Fulfilled (JParse o'), tick (withRows (rows w ++ [o']) w))
  else
    let o' := persisted o in
    (Fulfilled (JParse o'), tick (withRows (map (replaceRow o') (rows w)) w)).

Definition memParse : ParseSDK World :=
  {| query_find := mem_find;
     object_save := mem_save;
     date_now := clock;
     date_toString := fun w => pretty (clock w) |}.

(** A status or response sink that accepts what it is told. *)
Definition hostSink : Sink World :=
  {| success := fun _ w => (Fulfilled JUndefined, w);
     error := fun _ w => (Fulfilled JUndefined, w) |}.

(** The records of class [klass] the import query selects. *)
Definition selected (klass : string) (w : World) : list ParseObject :=
  List.filter (matches (unmigratedQuery 0 klass)) (rows w).

(** A handler that works on the user's backend and on the clock only. *)
Definition storeNeutral (h : Callback World) : Prop :=
  forall args w,
    rows (snd (h args w)) = rows w /\
    brokenIds (snd (h args w)) = brokenIds w /\
    latency (snd (h args w)) = latency w.

(** Every row has an id of its own. *)
Definition wellKeyed (rs : list ParseObject) : Prop :=
  NoDup (map objectId rs) /\ Forall (fun r => isNew r = false) rs.

(** A handler whose promise is always fulfilled. *)
Definition alwaysFulfils (h : Callback World) : Prop :=
  forall args w, exists v, fst (h args w) = Fulfilled v.

(** The row of a record the import job has saved. *)
Definition migratedRow (o : ParseObject) : ParseObject :=
  persisted (set_ o MIGRATION_KEY IS_MIGRATED).

(** The rows after the import job has saved the records [saved]. *)
Definition markMigrated (saved : list ParseObject) (rs : list ParseObject)
  : list ParseObject :=
  fold_left (fun rs o => map (replaceRow (migratedRow o)) rs) saved rs.

Definition idIn (saved : list ParseObject) (r : ParseObject) : bool :=
  bool_decide (objectId r ∈ map objectId saved).

(** The records of a batch whose chain was fulfilled. *)
Fixpoint savedOf (objs : list ParseObject) (results : list (Res JsVal))
  : list ParseObject :=
  match objs, results with
  | o :: objs', Fulfilled _ :: results' => o :: savedOf objs' results'
  | _ :: objs', Failed _ :: results' => savedOf objs' results'
  | _, _ => []
  end.

(** The state in which the batch of a sweep starts: the query is in the
    trace and has taken its time. *)
Definition afterFind (B : nat) (klass : string) (st : State World) : State World :=
  {| trace := trace st ++ [EvFind (unmigratedQuery B klass)];
     world := tick (world st) |}.

(** The records the sweep of [klass] fetches in state [st], and the
    outcomes of their chains. *)
Definition batchOutcomes (B : nat) (klass : string) (mig : Callback World)
    (st : State World) : option (list ParseObject * list (Res JsVal)) :=
  let objs := take B (selected klass (world st)) in
  match settleAll (map (migrateRecord memParse mig) objs) (afterFind B klass st) with
  | Some (Fulfilled results, _) => Some (objs, results)
  | _ => None
  end.

End MemStore.

(** ** Sample inputs *)

Module Samples.

Import MemStore.

Definition record (klass id : string) (attrs : gmap string Z) (changed : list string)
  : ParseObject :=
  {| className := klass; objectId := Some id; attributes := attrs;
     dirty := changed; existedFlag := true |}.

Definition widget (i : nat) : ParseObject := record "Widget" (pretty i) ∅ [].

Definition storeOf (rs : list ParseObject) (broken : list string) : World :=
  {| rows := rs; clock := 0; latency := 1; brokenIds := broken; backend := [] |}.

(** A store with 2500 widgets, none migrated. *)
Definition widgetWorld : World := storeOf (map widget (seq 0 2500)) [].

(** A migrate handler that notes the record in the user's backend. *)
Definition importMig : Callback World :=
  returning (fun args w =>
    (Fulfilled JUndefined,
     {| rows := rows w; clock := clock w; latency := latency w;
        brokenIds := brokenIds w;
        backend := match args with
                   | ArgObject o => default "" (objectId o) :: backend w
                   | _ => backend w
                   end |})).

(** A migrate handler that takes a quarter of an hour. *)
Definition slowMig : Callback World :=
  returning (fun args w =>
    (Fulfilled JUndefined,
     {| rows := rows w; clock := (clock w + 900000)%Z; latency := latency w;
        brokenIds := brokenIds w; backend := backend w |})).

(** A before handler in the callback style of Cloud Code: it calls
    [response.success] while it runs. *)
Definition callbackStyle : Callback World :=
  synchronous (fun args w =>
    match args with
    | ArgRequestResponse request response =>
        andThen (success response (JParse (object request)))
                (fun v w' => (Fulfilled v, w')) w
    | _ => (Fulfilled JUndefined, w)
    end).

Definition migratingOnly (mig : Callback World) : Handlers World :=
  {| beforeSave := None; afterSave := None; beforeDelete := None;
     afterDelete := None; migrateObject := Some mig; migrateDelete := None |}.

Definition widgetRegistry : Migrator World :=
  {| _triggers := [("Widget", migratingOnly importMig)] |}.

(** Two migrating classes; the first one is slow. *)
Definition twoClassRegistry : Migrator World :=
  {| _triggers := [("Alpha", migratingOnly slowMig);
                   ("Beta", migratingOnly importMig)] |}.

Definition twoClassWorld : World :=
  storeOf [record "Alpha" "a1" ∅ []; record "Beta" "b1" ∅ []] [].

(** Before handlers in the callback style. *)
Definition callbackRegistry : Migrator World :=
  {| _triggers :=
       [("Widget",
         {| beforeSave := Some callbackStyle; afterSave := None;
            beforeDelete := Some callbackStyle; afterDelete := None;
            migrateObject := None; migrateDelete := None |})] |}.

(** A persisted widget at [FINISHED_SECOND_PASS] whose name was edited. *)
Definition finishedWidget : ParseObject :=
  record "Widget" "w1" {[ MIGRATION_KEY := FINISHED_SECOND_PASS ]} ["name"].

(** A persisted widget never seen by the engine, whose name was edited. *)
Definition legacyWidget : ParseObject := record "Widget" "w2" ∅ ["name"].

(** A persisted widget at [IS_MIGRATED] whose name was edited. *)
Definition migratedWidget : ParseObject :=
  record "Widget" "w3" {[ MIGRATION_KEY := IS_MIGRATED ]} ["name"].

(** A widget that was never saved. *)
Definition newWidget : ParseObject :=
  {| className := "Widget"; objectId := None; attributes := {[ "size" := 3%Z ]};
     dirty := ["size"]; existedFlag := false |}.

(** A widget whose only change is the status. *)
Definition touchedWidget : ParseObject :=
  record "Widget" "w4" {[ MIGRATION_KEY := NEEDS_SECOND_PASS ]} [MIGRATION_KEY].

(** A small store in which the save of widget 1 is rejected. *)
Definition brokenWorld : World := storeOf (map widget (seq 0 3)) ["1"].

Definition twoRegistrations : list (Registration World) :=
  [ {| r_type := BeforeSave; r_klass := KString "Widget"; r_callback := callbackStyle |};
    {| r_type := BeforeSave; r_klass := KCtor "function Widget() {}" "Widget";
       r_callback := importMig |} ].

End Samples.

(** ** Further observations and inputs *)

Section MoreObservations.

Context {W : Type}.

(** The pair a registration is about. *)
Definition regKey (r : Registration W) : string * TriggerType :=
  (classString (r_klass r), r_type r).

(** The host event and the class (or job name) a callback is installed
    for. *)
Definition hookOf (i : Installed W) : string * string :=
  match i with
  | CloudBeforeSave klass _ => ("beforeSave", klass)
  | CloudAfterSave klass _ => ("afterSave", klass)
  | CloudBeforeDelete klass _ => ("beforeDelete", klass)
  | CloudAfterDelete klass _ => ("afterDelete", klass)
  | CloudJob name _ => ("job", name)
  end.

(** What a sweep of [klass] may leave in the trace: its query, calls of
    the migrate handler, and saves of records marked [IS_MIGRATED]. *)
Definition sweepEvent (BATCH_SIZE : nat) (klass : string) (ev : Event W) : Prop :=
  match ev with
  | EvFind q => q = unmigratedQuery BATCH_SIZE klass
  | EvCall t (ArgObject _) => t = MigrateObject
  | EvSave o => get o MIGRATION_KEY = Some IS_MIGRATED
  | _ => False
  end.

(** The hooks [exportTriggers] asks for on behalf of one class. *)
Definition classHooks (klass : string) (h : Handlers W) : list (string * string) :=
  (if def (beforeSave h) || def (migrateObject h) then [("beforeSave", klass)] else [])
  ++ (if def (afterSave h) || def (migrateObject h) then [("afterSave", klass)] else [])
  ++ (if def (beforeDelete h) || def (migrateDelete h) then [("beforeDelete", klass)] else [])
  ++ (if def (afterDelete h) then [("afterDelete", klass)] else []).

(** The classes of a registry that have a migrate handler. *)
Definition migratingClasses (triggers : list (string * Handlers W)) : list string :=
  map fst (List.filter (fun kh => def (migrateObject (snd kh))) triggers).

(** What the import job may leave in the trace before it reports: the
    events of the sweep of a class with a migrate handler. *)
Definition jobEvent (BATCH_SIZE : nat) (triggers : list (string * Handlers W))
    (ev : Event W) : Prop :=
  exists klass, klass ∈ migratingClasses triggers /\ sweepEvent BATCH_SIZE klass ev.

(** Every event a chain adds to the trace satisfies [Q]. *)
Definition emitsOnly {A} (Q : Event W -> Prop) (m : P W A) : Prop :=
  forall st r st',
    m st = Some (r, st') ->
    exists evs, trace st' = (trace st ++ evs)%list /\ Forall Q evs.

End MoreObservations.

Module StoreObservations.

Import MemStore.

(** A handler that does not turn the clock back. *)
Definition clockMonotone (h : Callback World) : Prop :=
  forall args w, (clock w <= clock (snd (h args w)))%Z.

(** A row after a sweep of [klass] that went through: a row the import
    query selects is stored as saved by the job, any other row is as it
    was. *)
Definition sweptRow (klass : string) (r : ParseObject) : ParseObject :=
  if matches (unmigratedQuery 0 klass) r then migratedRow r else r.



(** One record of a batch on one row. *)
Definition stepRow (r o : ParseObject) : ParseObject := replaceRow (migratedRow o) r.

(** The rows after the sweeps of [classes], one after the other. *)
Definition sweptRows (classes : list string) (rs : list ParseObject) : list ParseObject :=
  fold_left (fun rs klass => map (sweptRow klass) rs) classes rs.

End StoreObservations.

Module MoreSamples.

Import MemStore Samples StoreObservations.

(** A handler whose promise is rejected. *)
Definition failingHandler (e : JsVal) : Callback World :=
  returning (fun _ w => (Failed e, w)).

(** A handler that resolves to [v]. *)
Definition resolvingTo (v : JsVal) : Callback World :=
  returning (fun _ w => (Fulfilled v, w)).

(** A handler that throws [e] when it is called. *)
Definition throwingHandler (e : JsVal) : Callback World :=
  synchronous (fun _ w => (Failed e, w)).

(** A before handler in the callback style that answers later: it starts
    a query with a callback of its own and returns; the callback calls
    [response.success] when the query is done. *)
Definition lateStyle : Callback World :=
  {| behaviour := fun _ w => (Returns (Fulfilled JUndefined), tick w) |}.

(** A before handler in the callback style that returns a promise and
    calls [response.error] in its chain. *)
Definition chainStyle : Callback World :=
  returning (fun args w =>
    match args with
    | ArgRequestResponse request response =>
        andThen (error response (JStr "not allowed"))
                (fun v w' => (Fulfilled v, w')) (tick w)
    | _ => (Fulfilled JUndefined, w)
    end).

(** The call the callback of [lateStyle] makes. *)
Definition lateAnswer (response : Sink World) : World -> Res JsVal * World :=
  success response JUndefined.


(** A registry for Widget with the given save handlers. *)
Definition saveRegistry (before after mig : option (Callback World)) : Migrator World :=
  {| _triggers :=
       [("Widget",
         {| beforeSave := before; afterSave := after; beforeDelete := None;
            afterDelete := None; migrateObject := mig; migrateDelete := None |})] |}.

(** A registry for Widget with the given delete handlers. *)
Definition deleteRegistry (before after mig : option (Callback World)) : Migrator World :=
  {| _triggers :=
       [("Widget",
         {| beforeSave := None; afterSave := None; beforeDelete := before;
            afterDelete := after; migrateObject := None; migrateDelete := mig |})] |}.

(** A store whose query fails. *)
Definition offlineParse (e : JsVal) : ParseSDK World :=
  {| query_find := fun _ w => (Failed e, w);
     object_save := mem_save;
     date_now := clock;
     date_toString := fun w => pretty (clock w) |}.

(** Five widgets; every store operation takes a minute. *)
Definition slowWorld : World :=
  {| rows := map widget (seq 0 5); clock := 0; latency := 60000;
     brokenIds := []; backend := [] |}.

(** Widgets next to records the import query does not select. *)
Definition mixedWorld : World :=
  storeOf (map widget (seq 0 3)
           ++ [record "Widget" "w3" {[ MIGRATION_KEY := NEEDS_SECOND_PASS ]} [];
               record "Gadget" "g1" ∅ []]) [].

Definition threeRegistrations : list (Registration World) :=
  [ {| r_type := BeforeSave; r_klass := KString "Widget"; r_callback := callbackStyle |};
    {| r_type := MigrateObject; r_klass := KCtor "function Widget() {}" "Widget";
       r_callback := importMig |};
    {| r_type := AfterDelete; r_klass := KString "Gadget"; r_callback := importMig |} ].

(** The registry the three registrations build. *)
Definition threeRegistry : Migrator World :=
  {| _triggers :=
       [("Widget",
         {| beforeSave := Some callbackStyle; afterSave := None; beforeDelete := None;
            afterDelete := None; migrateObject := Some importMig;
            migrateDelete := None |});
        ("Gadget",
         {| beforeSave := None; afterSave := None; beforeDelete := None;
            afterDelete := Some importMig; migrateObject := None;
            migrateDelete := None |})] |}.

(** A store whose widgets are migrated, next to a record of a class that
    is not migrated. *)
Definition migratedWorld : World :=
  storeOf [migratedRow (widget 0); migratedRow (widget 1); record "Gadget" "g1" ∅ []] [].

(** A write of an edited widget that the store has never migrated. *)
Definition legacyWrite : Request := {| object := legacyWidget |}.

End MoreSamples.

(** * Properties *)

Local Open Scope list_scope.

(** ** The registry *)

Section RegistryFacts.

Context {W : Type}.
Implicit Types (m self : Migrator W) (t : TriggerType) (cb : Callback W).
Implicit Types (triggers : list (string * Handlers W)) (obj : Handlers W).

Lemma lookupKey_assignKey_eq key obj triggers :
  lookupKey key (assignKey key obj triggers) = Some obj.
Proof.
  induction triggers as [|[k h] rest IH]; simpl.
  - by rewrite bool_decide_true.
  - destruct (bool_decide (k = key)) eqn:E; simpl; by rewrite E.
Qed.

Lemma lookupKey_assignKey_ne key key' obj triggers :
  key <> key' ->
  lookupKey key' (assignKey key obj triggers) = lookupKey key' triggers.
Proof.
  intros Hne. induction triggers as [|[k h] rest IH]; simpl.
  - by rewrite bool_decide_false.
  - destruct (bool_decide (k = key)) eqn:E; simpl.
    + apply bool_decide_eq_true in E. subst k.
      by rewrite bool_decide_false.
    + by rewrite IH.
Qed.

Lemma getTrigger_setTrigger_eq obj t cb :
  getTrigger (setTrigger obj t cb) t = Some cb.
Proof. by destruct t. Qed.

Lemma getTrigger_setTrigger_ne obj t t' cb :
  t <> t' -> getTrigger (setTrigger obj t cb) t' = getTrigger obj t'.
Proof. by destruct t, t'. Qed.

Lemma registerFn_registered t klass cb m :
  registered (classString klass) t m = true ->
  _registerFn t klass cb m = Failed (alreadyRegistered t klass).
Proof. unfold registered, _registerFn. intros ->. done. Qed.

Lemma registerFn_fresh t klass cb m :
  registered (classString klass) t m = false ->
  exists m', _registerFn t klass cb m = Fulfilled m'
    /\ getTrigger (handlers m' klass) t = Some cb
    /\ forall key t', registered key t' m = true -> registered key t' m' = true.
Proof.
  unfold registered, _registerFn. intros E. rewrite E.
  eexists. split; [reflexivity|]. split.
  - unfold handlers. simpl. rewrite lookupKey_assignKey_eq. simpl.
    apply getTrigger_setTrigger_eq.
  - intros key t' Hreg. simpl.
    destruct (decide (classString klass = key)) as [<-|Hne].
    + rewrite lookupKey_assignKey_eq. simpl.
      destruct (decide (t = t')) as [<-|Hnt].
      * by rewrite getTrigger_setTrigger_eq.
      * by rewrite getTrigger_setTrigger_ne.
    + by rewrite lookupKey_assignKey_ne.
Qed.

Lemma registerFn_cases t klass cb m :
  _registerFn t klass cb m = Failed (alreadyRegistered t klass)
  \/ exists m', _registerFn t klass cb m = Fulfilled m'
       /\ registered (classString klass) t m' = true
       /\ forall key t', registered key t' m = true -> registered key t' m' = true.
Proof.
  destruct (registered (classString klass) t m) eqn:E.
  - left. by apply registerFn_registered.
  - right. destruct (registerFn_fresh t klass cb m E) as (m' & H1 & H2 & H3).
    exists m'. split; [done|]. split; [|done].
    unfold registered. unfold handlers in H2. by rewrite H2.
Qed.

(** A setup script only ever fails with a duplicate error. *)
Lemma registerAll_failed (regs : list (Registration W)) m e :
  registerAll regs m = Failed e -> exists t klass, e = alreadyRegistered t klass.
Proof.
  revert m. induction regs as [|r rest IH]; intros m; simpl; [done|].
  destruct (registerFn_cases (r_type r) (r_klass r) (r_callback r) m)
    as [->|(m' & -> & _ & _)].
  - intros [= <-]. eauto.
  - apply IH.
Qed.

(** Once a pair is registered, a script that registers it again fails. *)
Lemma registerAll_registered (regs : list (Registration W)) m r :
  r ∈ regs ->
  registered (classString (r_klass r)) (r_type r) m = true ->
  exists t klass, registerAll regs m = Failed (alreadyRegistered t klass).
Proof.
  revert m. induction regs as [|r' rest IH]; intros m Hin Hreg.
  - by apply elem_of_nil in Hin.
  - simpl.
    destruct (registerFn_cases (r_type r') (r_klass r') (r_callback r') m)
      as [->|(m' & Hok & _ & Hmono)]; [eauto|].
    apply elem_of_cons in Hin as [->|Hin].
    + rewrite registerFn_registered in Hok; done.
    + rewrite Hok. apply IH; [done|]. by apply Hmono.
Qed.

Lemma registerAll_app (l1 l2 : list (Registration W)) m :
  registerAll (l1 ++ l2) m =
  match registerAll l1 m with
  | Fulfilled m' => registerAll l2 m'
  | other => other
  end.
Proof.
  revert m. induction l1 as [|r rest IH]; intros m; simpl; [done|].
  destruct (_registerFn _ _ _ m); [apply IH|done].
Qed.

Lemma registerAll_mono (regs : list (Registration W)) m m' key t :
  registerAll regs m = Fulfilled m' ->
  registered key t m = true -> registered key t m' = true.
Proof.
  revert m. induction regs as [|r rest IH]; intros m; simpl.
  - by intros [= <-].
  - destruct (registerFn_cases (r_type r) (r_klass r) (r_callback r) m)
      as [->|(m1 & -> & _ & Hmono)]; [done|].
    intros Hrest Hreg. eapply IH; [done|]. by apply Hmono.
Qed.

Lemma registerAll_duplicate (pre mid post : list (Registration W)) r1 r2 m :
  r_type r1 = r_type r2 ->
  classString (r_klass r1) = classString (r_klass r2) ->
  exists t klass,
    registerAll (pre ++ r1 :: mid ++ r2 :: post) m = Failed (alreadyRegistered t klass).
Proof.
  intros Ht Hk. rewrite registerAll_app.
  destruct (registerAll pre m) as [m0|e] eqn:Epre.
  - simpl.
    destruct (registerFn_cases (r_type r1) (r_klass r1) (r_callback r1) m0)
      as [->|(m1 & -> & Hreg & _)]; [eauto|].
    apply registerAll_registered with (r := r2).
    + apply elem_of_app. right. apply elem_of_cons. by left.
    + by rewrite <- Ht, <- Hk.
  - apply registerAll_failed in Epre as (t & klass & ->). eauto.
Qed.

(** C8. A second registration for the same (type, kind) pair throws the
    duplicate-registration error: in a setup script that registers the pair
    twice, the script ends with that error, [exportTriggers] is not reached
    and nothing is installed with the host; when the registrations before
    the second one went through, it is the second one that throws. *)
Theorem duplicate_registration_fails_fast
    (parse : ParseSDK W) (BATCH_SIZE : nat)
    (pre mid post : list (Registration W)) (r1 r2 : Registration W)
    (host : list (Installed W)) :
  r_type r1 = r_type r2 ->
  classString (r_klass r1) = classString (r_klass r2) ->
  (exists t klass,
     setup parse BATCH_SIZE (pre ++ r1 :: mid ++ r2 :: post) host
     = (Failed (alreadyRegistered t klass), host))
  /\ (forall m,
        registerAll (pre ++ r1 :: mid) newMigrator = Fulfilled m ->
        _registerFn (r_type r2) (r_klass r2) (r_callback r2) m
        = Failed (alreadyRegistered (r_type r2) (r_klass r2))).
Proof.
  intros Ht Hk. split.
  - destruct (registerAll_duplicate pre mid post r1 r2 newMigrator Ht Hk)
      as (t & klass & E).
    exists t, klass. unfold setup. by rewrite E.
  - intros m. rewrite registerAll_app.
    destruct (registerAll pre newMigrator) as [m0|e] eqn:Epre; [|done].
    simpl.
    destruct (registerFn_cases (r_type r1) (r_klass r1) (r_callback r1) m0)
      as [->|(m1 & -> & Hreg & _)]; [done|].
    intros Hmid. apply registerFn_registered.
    rewrite <- Ht, <- Hk. by eapply registerAll_mono.
Qed.

(** Registering a free pair under one form of a class and again under
    another form of the same [classString]. *)
Lemma registerFn_twice t (k1 k2 : Klass) cb1 cb2 m :
  classString k1 = classString k2 ->
  registered (classString k1) t m = false ->
  exists m',
    _registerFn t k1 cb1 m = Fulfilled m'
    /\ handlers m' k1 = handlers m' k2
    /\ getTrigger (handlers m' k2) t = Some cb1
    /\ _registerFn t k2 cb2 m' = Failed (alreadyRegistered t k2)
    /\ _registerFn t k1 cb2 m' = Failed (alreadyRegistered t k1).
Proof.
  intros Hk Hfree.
  destruct (registerFn_fresh t k1 cb1 m Hfree) as (m' & Hreg & Hget & _).
  exists m'. split; [done|].
  assert (Hsame : handlers m' k1 = handlers m' k2) by (unfold handlers; by rewrite Hk).
  split; [done|]. split; [by rewrite <- Hsame|].
  assert (Htaken : registered (classString k1) t m' = true).
  { unfold registered. unfold handlers in Hget. by rewrite Hget. }
  split; apply registerFn_registered; [by rewrite <- Hk|done].
Qed.

(** C9. Registration and lookup are keyed by [classString klass]: a name
    and a constructor whose instances carry that name address the same
    handler set.  In every registry [handlers] returns the same set for
    both forms.  When a kind is free for the class, registering it under
    either form goes through, the handler is then found under the other
    form, and registering the kind once more, under the other form or under
    the same, throws the duplicate error. *)
Theorem classString_keys_registry m t (name source : string) cb1 cb2 :
  registered name t m = false ->
  (forall m0 : Migrator W, handlers m0 (KString name) = handlers m0 (KCtor source name))
  /\ (exists m',
        _registerFn t (KString name) cb1 m = Fulfilled m'
        /\ handlers m' (KString name) = handlers m' (KCtor source name)
        /\ getTrigger (handlers m' (KCtor source name)) t = Some cb1
        /\ _registerFn t (KCtor source name) cb2 m'
           = Failed (alreadyRegistered t (KCtor source name))
        /\ _registerFn t (KString name) cb2 m'
           = Failed (alreadyRegistered t (KString name)))
  /\ (exists m',
        _registerFn t (KCtor source name) cb1 m = Fulfilled m'
        /\ handlers m' (KCtor source name) = handlers m' (KString name)
        /\ getTrigger (handlers m' (KString name)) t = Some cb1
        /\ _registerFn t (KString name) cb2 m'
           = Failed (alreadyRegistered t (KString name))
        /\ _registerFn t (KCtor source name) cb2 m'
           = Failed (alreadyRegistered t (KCtor source name))).
Proof.
  intros Hfree. split; [done|]. split.
  - by apply (registerFn_twice t (KString name) (KCtor source name)).
  - by apply (registerFn_twice t (KCtor source name) (KString name)).
Qed.

End RegistryFacts.

(** ** The composed callbacks *)

Section TraceFacts.

Context {W : Type}.
Implicit Types (evs : list (Event W)) (t : TriggerType).

Lemma calls_app t evs1 evs2 :
  calls t (evs1 ++ evs2) = calls t evs1 + calls t evs2.
Proof. unfold calls. by rewrite List.filter_app, length_app. Qed.

Lemma finds_app evs1 evs2 : finds (evs1 ++ evs2) = finds evs1 + finds evs2.
Proof. unfold finds. by rewrite List.filter_app, length_app. Qed.

Lemma savedRecords_app evs1 evs2 :
  savedRecords (evs1 ++ evs2) = savedRecords evs1 ++ savedRecords evs2.
Proof.
  induction evs1 as [|ev rest IH]; simpl; [done|].
  destruct ev; simpl; by rewrite IH.
Qed.

End TraceFacts.

Ltac unfold_chain :=
  repeat progress
    (unfold getBeforeSave, getAfterSave, getBeforeDelete, migrateStage, maybeTouch,
       promise_all, then2, bind, settle, as_, ret, fail, liftRes, invoke, callNow,
       response_success, response_error, save, emit, liftW;
     simpl).

Ltac count_calls :=
  simpl; rewrite ?calls_app; unfold calls; simpl; lia.

Section CallbackFacts.

Context {W : Type} (parse : ParseSDK W).
Implicit Types (self : Migrator W) (klass : Klass) (request : Request).
Implicit Types (response : Sink W) (st : State W) (obj : ParseObject).

(** The first stage calls no handler but beforeSave, at most once, with the
    pseudo-response, and settles. *)
Lemma beforeSaveStage_run (h : option (Callback W)) request st :
  exists r st',
    beforeSaveStage h request st = Some (r, st')
    /\ (trace st' = trace st /\ r = Fulfilled JUndefined /\ st' = st
        \/ def h && negb (onlyMigrationKey (dirtyKeys (object request))) = true
           /\ trace st' = trace st
                ++ [EvCall BeforeSave (ArgRequestResponse request ThisIsNotAResponseObject)]).
Proof.
  unfold beforeSaveStage, bind, as_, ret.
  destruct h as [f|]; simpl.
  - destruct (onlyMigrationKey _); simpl.
    + eexists _, _. split; [done|]. by left.
    + unfold invoke, bind, emit, liftW. simpl.
      destruct (f _ (world st)) as [r w']. eexists _, _. split; [done|]. by right.
  - eexists _, _. split; [done|]. by left.
Qed.

Lemma beforeSaveStage_calls (h : option (Callback W)) request st r st' t :
  beforeSaveStage h request st = Some (r, st') ->
  t <> BeforeSave ->
  calls t (trace st') = calls t (trace st).
Proof.
  intros Hrun Ht.
  destruct (beforeSaveStage_run h request st) as (r0 & st0 & Hrun0 & Hcases).
  rewrite Hrun in Hrun0. injection Hrun0 as <- <-.
  destruct Hcases as [(-> & _)|(_ & ->)]; [done|].
  rewrite calls_app. unfold calls at 2. simpl.
  rewrite bool_decide_false; [simpl; lia|done].
Qed.

(** C7. A write whose changed fields are exactly [migrationStatus] does not
    reach the user's beforeSave handler: the composed callback settles and
    its trace holds no further beforeSave call. *)
Theorem bookkeeping_write_skips_beforeSave self klass request response st :
  dirtyKeys (object request) = [MIGRATION_KEY] ->
  exists r st',
    getBeforeSave self klass request response st = Some (r, st')
    /\ calls BeforeSave (trace st') = calls BeforeSave (trace st).
Proof.
  intros Hdirty.
  unfold getBeforeSave, beforeSaveStage, then2, bind, as_, ret. simpl.
  rewrite Hdirty. simpl.
  replace (def (beforeSave (handlers self klass)) && false) with false
    by (by destruct (def _)).
  simpl. unfold migrateStage, bind, liftRes, workingRecord, ret. simpl.
  set (obj := object request).
  destruct (looseEq (get obj MIGRATION_KEY) IS_MIGRATED
            || negb (def (migrateObject (handlers self klass)))) eqn:E1.
  { unfold response_success, bind, emit, liftW. simpl.
    destruct (success response _ _) as [r w']. eexists _, _. split; [done|].
    simpl. rewrite calls_app. unfold calls at 2. simpl. lia. }
  destruct (isNew obj) eqn:E2.
  { unfold response_success, bind, emit, liftW. simpl.
    destruct (success response _ _) as [r w']. eexists _, _. split; [done|].
    simpl. rewrite calls_app. unfold calls at 2. simpl. lia. }
  destruct (migrateObject (handlers self klass)) as [mig|]; simpl.
  - unfold invoke, bind, emit, liftW. simpl.
    destruct (mig _ (world st)) as [[v|e] w1]; simpl.
    + unfold response_success, bind, emit, liftW. simpl.
      destruct (success response _ _) as [r w']. eexists _, _. split; [done|].
      simpl. rewrite !calls_app. unfold calls at 2 3. simpl. lia.
    + unfold response_error, bind, emit, liftW. simpl.
      destruct (error response _ _) as [r w']. eexists _, _. split; [done|].
      simpl. rewrite !calls_app. unfold calls at 2 3. simpl. lia.
  - unfold response_success, bind, emit, liftW. simpl.
    destruct (success response _ _) as [r w']. eexists _, _. split; [done|].
    simpl. rewrite calls_app. unfold calls at 2. simpl. lia.
Qed.

(** The second stage on a working record that is not eligible: it is
    handed on as it is. *)
Lemma getBeforeSave_unchanged self klass request response st maybeNew st1 obj :
  beforeSaveStage (beforeSave (handlers self klass)) request st
  = Some (Fulfilled maybeNew, st1) ->
  workingRecord maybeNew request = Fulfilled obj ->
  looseEq (get obj MIGRATION_KEY) IS_MIGRATED
  || negb (def (migrateObject (handlers self klass))) || isNew obj = true ->
  exists r st',
    getBeforeSave self klass request response st = Some (r, st')
    /\ trace st' = trace st1 ++ [EvResponseSuccess (JParse obj)]
    /\ calls MigrateObject (trace st') = calls MigrateObject (trace st).
Proof.
  intros Hstage Hobj Hskip.
  pose proof (beforeSaveStage_calls _ _ _ _ _ MigrateObject Hstage) as Hcalls.
  unfold_chain. rewrite Hstage, Hobj. simpl.
  destruct (looseEq _ _ || negb _) eqn:E1; simpl in *.
  - destruct (success response _ _) as [r w']. eexists _, _.
    split; [done|]. split; [done|]. simpl. rewrite calls_app, Hcalls; [|done].
    unfold calls. simpl. lia.
  - rewrite Hskip. simpl.
    destruct (success response _ _) as [r w']. eexists _, _.
    split; [done|]. split; [done|]. simpl. rewrite calls_app, Hcalls; [|done].
    unfold calls. simpl. lia.
Qed.

(** The second stage on an eligible working record: the status is set, the
    migrate handler is called once, and the outcome of the handler decides
    between the success and the error path. *)
Lemma getBeforeSave_migrates self klass mig request response st maybeNew st1 obj :
  migrateObject (handlers self klass) = Some mig ->
  beforeSaveStage (beforeSave (handlers self klass)) request st
  = Some (Fulfilled maybeNew, st1) ->
  workingRecord maybeNew request = Fulfilled obj ->
  looseEq (get obj MIGRATION_KEY) IS_MIGRATED = false ->
  isNew obj = false ->
  let obj' :=
    if looseEq (get obj MIGRATION_KEY) NEEDS_SECOND_PASS
    then set_ obj MIGRATION_KEY FINISHED_SECOND_PASS
    else set_ obj MIGRATION_KEY IS_MIGRATED in
  exists r st',
    getBeforeSave self klass request response st = Some (r, st')
    /\ calls MigrateObject (trace st') = calls MigrateObject (trace st) + 1
    /\ match mig (ArgObject obj') (world st1) with
       | (Fulfilled _, _) =>
           trace st' = trace st1 ++ [EvCall MigrateObject (ArgObject obj');
                                     EvResponseSuccess (JParse obj')]
       | (Failed e, _) =>
           trace st' = trace st1 ++ [EvCall MigrateObject (ArgObject obj');
                                     EvResponseError e]
       end.
Proof.
  intros Hmig Hstage Hobj Hstatus Hnew obj'.
  pose proof (beforeSaveStage_calls _ _ _ _ _ MigrateObject Hstage) as Hcalls.
  unfold_chain. rewrite Hstage, Hobj, Hmig. simpl.
  rewrite Hstatus, Hnew. simpl. fold obj'.
  destruct (mig (ArgObject obj') (world st1)) as [[v|e] w1]; simpl.
  - destruct (success response _ _) as [r w']. eexists _, _.
    split; [done|]. simpl. rewrite <- app_assoc. simpl. split; [|done].
    rewrite calls_app, Hcalls; [|done]. unfold calls. simpl. lia.
  - destruct (error response _ _) as [r w']. eexists _, _.
    split; [done|]. simpl. rewrite <- app_assoc. simpl. split; [|done].
    rewrite calls_app, Hcalls; [|done]. unfold calls. simpl. lia.
Qed.

(** C2, amended. A write whose working record (the request's record, or the
    replacement the user's beforeSave resolved to) is at [IS_MIGRATED] does
    not call the migrate handler: the record goes to the success path as it
    is.  A persisted record at [FINISHED_SECOND_PASS] is migrated again on
    its next write: the handler is called once more and the status becomes
    [IS_MIGRATED]. *)
Theorem migrated_record_not_migrated_again
    self klass request response st maybeNew st1 obj :
  beforeSaveStage (beforeSave (handlers self klass)) request st
  = Some (Fulfilled maybeNew, st1) ->
  workingRecord maybeNew request = Fulfilled obj ->
  (get obj MIGRATION_KEY = Some IS_MIGRATED ->
   exists r st',
     getBeforeSave self klass request response st = Some (r, st')
     /\ trace st' = trace st1 ++ [EvResponseSuccess (JParse obj)]
     /\ calls MigrateObject (trace st') = calls MigrateObject (trace st))
  /\ (forall mig,
        migrateObject (handlers self klass) = Some mig ->
        get obj MIGRATION_KEY = Some FINISHED_SECOND_PASS ->
        isNew obj = false ->
        let obj' := set_ obj MIGRATION_KEY IS_MIGRATED in
        exists r st',
          getBeforeSave self klass request response st = Some (r, st')
          /\ calls MigrateObject (trace st') = calls MigrateObject (trace st) + 1
          /\ EvCall MigrateObject (ArgObject obj') ∈ trace st'
          /\ get obj' MIGRATION_KEY = Some IS_MIGRATED).
Proof.
  intros Hstage Hobj. split.
  - intros Hstatus. eapply getBeforeSave_unchanged; [done..|].
    by rewrite Hstatus.
  - intros mig Hmig Hstatus Hnew obj'.
    destruct (getBeforeSave_migrates self klass mig request response st
                maybeNew st1 obj Hmig Hstage Hobj) as (r & st' & Hrun & Hcalls & Htrace);
      [by rewrite Hstatus|done|].
    rewrite Hstatus in Htrace. simpl in Htrace. fold obj' in Htrace.
    exists r, st'. split; [done|]. split; [done|]. split.
    + destruct (mig _ _) as [[v|e] w1]; rewrite Htrace;
        apply elem_of_app; right; apply elem_of_cons; by left.
    + unfold obj', get, set_. simpl. apply lookup_insert_eq.
Qed.

(** C4. A persisted working record without [migrationStatus], of a class
    with a migrate handler: the pre-write pass sets the status to
    [IS_MIGRATED] and calls the migrate handler exactly once, on the record
    with the new status; when the handler is fulfilled the write is accepted
    after that call, with the record at the new status; when it fails the
    write is refused. *)
Theorem existing_record_migrated_on_write
    self klass mig request response st maybeNew st1 obj :
  migrateObject (handlers self klass) = Some mig ->
  beforeSaveStage (beforeSave (handlers self klass)) request st
  = Some (Fulfilled maybeNew, st1) ->
  workingRecord maybeNew request = Fulfilled obj ->
  isNew obj = false ->
  get obj MIGRATION_KEY = None ->
  let obj' := set_ obj MIGRATION_KEY IS_MIGRATED in
  get obj' MIGRATION_KEY = Some IS_MIGRATED
  /\ exists r st',
       getBeforeSave self klass request response st = Some (r, st')
       /\ calls MigrateObject (trace st') = calls MigrateObject (trace st) + 1
       /\ match mig (ArgObject obj') (world st1) with
          | (Fulfilled _, _) =>
              trace st' = trace st1 ++ [EvCall MigrateObject (ArgObject obj');
                                        EvResponseSuccess (JParse obj')]
          | (Failed e, _) =>
              trace st' = trace st1 ++ [EvCall MigrateObject (ArgObject obj');
                                        EvResponseError e]
          end.
Proof.
  intros Hmig Hstage Hobj Hnew Hstatus obj'. split.
  - unfold obj', get, set_. simpl. apply lookup_insert_eq.
  - destruct (getBeforeSave_migrates self klass mig request response st
                maybeNew st1 obj Hmig Hstage Hobj) as (r & st' & Hrun & Hcalls & Htrace);
      [by rewrite Hstatus|done|].
    rewrite Hstatus in Htrace. simpl in Htrace. eauto.
Qed.

Lemma beforeSaveStage_bookkeeping (h : option (Callback W)) request st :
  dirtyKeys (object request) = [MIGRATION_KEY] ->
  beforeSaveStage h request st = Some (Fulfilled JUndefined, st).
Proof.
  intros Hdirty. unfold beforeSaveStage, bind, as_, ret. simpl.
  rewrite Hdirty. simpl. by destruct (def h).
Qed.

(** C3. A brand-new working record of a class with a migrate handler.
    (1) The pre-write pass of its first save hands it to the success path
    as it is and calls no migrate handler.  (2) After the first save is
    stored, the post-write callback, which always ends, sets
    [NEEDS_SECOND_PASS] and issues one save, of the record with that status,
    when the class has no afterSave handler or the handler returns, also
    with a promise that is rejected.  When the handler throws as it is
    called, the callback ends by that exception and issues no save.  (3) The
    pre-write pass of that second save sets [FINISHED_SECOND_PASS], skips
    the user's beforeSave and calls the migrate handler exactly once, on the
    record with the new status; if the handler is fulfilled the record goes
    to the success path with that status. *)
Theorem new_record_second_pass
    self klass mig request response st maybeNew st1 obj (id : string) :
  migrateObject (handlers self klass) = Some mig ->
  beforeSaveStage (beforeSave (handlers self klass)) request st
  = Some (Fulfilled maybeNew, st1) ->
  workingRecord maybeNew request = Fulfilled obj ->
  isNew obj = true ->
  let stored := afterFirstSave obj id in
  let touched := set_ stored MIGRATION_KEY NEEDS_SECOND_PASS in
  let finished := set_ touched MIGRATION_KEY FINISHED_SECOND_PASS in
  (exists r st',
     getBeforeSave self klass request response st = Some (r, st')
     /\ trace st' = trace st1 ++ [EvResponseSuccess (JParse obj)]
     /\ calls MigrateObject (trace st') = calls MigrateObject (trace st))
  /\ (forall st2, exists r st',
        getAfterSave parse self klass {| object := stored |} st2 = Some (r, st')
        /\ get touched MIGRATION_KEY = Some NEEDS_SECOND_PASS
        /\ calls MigrateObject (trace st') = calls MigrateObject (trace st2)
        /\ match thrownBy (afterSave (handlers self klass))
                   (ArgRequest {| object := stored |}) (world st2) with
           | None => savedRecords (trace st') = savedRecords (trace st2) ++ [touched]
           | Some e =>
               savedRecords (trace st') = savedRecords (trace st2) /\ r = Failed e
           end)
  /\ (forall response' st3, exists r st',
        getBeforeSave self klass {| object := touched |} response' st3 = Some (r, st')
        /\ get finished MIGRATION_KEY = Some FINISHED_SECOND_PASS
        /\ calls MigrateObject (trace st') = calls MigrateObject (trace st3) + 1
        /\ calls BeforeSave (trace st') = calls BeforeSave (trace st3)
        /\ match mig (ArgObject finished) (world st3) with
           | (Fulfilled _, _) =>
               trace st' = trace st3 ++ [EvCall MigrateObject (ArgObject finished);
                                         EvResponseSuccess (JParse finished)]
           | (Failed e, _) =>
               trace st' = trace st3 ++ [EvCall MigrateObject (ArgObject finished);
                                         EvResponseError e]
           end).
Proof.
  intros Hmig Hstage Hobj Hnew stored touched finished.
  split; [|split].
  - eapply getBeforeSave_unchanged; [done..|].
    rewrite Hnew. apply orb_true_r.
  - intros st2. unfold thrownBy. unfold_chain. rewrite Hmig. simpl.
    fold stored touched.
    destruct (afterSave (handlers self klass)) as [f|]; simpl.
    + destruct (behaviour f _ (world st2)) as [[promise|e] w1]; simpl.
      * destruct (object_save parse touched w1) as [r2 w2]; simpl.
        destruct promise, r2; simpl; eexists _, _; (split; [done|]); simpl;
          rewrite !savedRecords_app; simpl; rewrite app_nil_r;
          (split; [apply lookup_insert_eq|]); (split; [count_calls|done]).
      * eexists _, _. split; [done|]. simpl. rewrite savedRecords_app. simpl.
        rewrite app_nil_r. split; [apply lookup_insert_eq|].
        split; [count_calls|done].
    + destruct (object_save parse touched (world st2)) as [r2 w2]; simpl.
      eexists _, _. split; [done|]. simpl. rewrite savedRecords_app. simpl.
      split; [apply lookup_insert_eq|]. split; [count_calls|done].
  - intros response' st3.
    assert (Hdirty : dirtyKeys (object {| object := touched |}) = [MIGRATION_KEY])
      by done.
    pose proof (beforeSaveStage_bookkeeping
                  (beforeSave (handlers self klass)) _ st3 Hdirty) as Hstage3.
    destruct (getBeforeSave_migrates self klass mig {| object := touched |}
                response' st3 JUndefined st3 touched Hmig Hstage3)
      as (r & st' & Hrun & Hcalls & Htrace);
      [done|by unfold touched, get, set_; simpl; rewrite lookup_insert_eq|done|].
    assert (Hneeds : looseEq (get touched MIGRATION_KEY) NEEDS_SECOND_PASS = true).
    { unfold touched, get, set_. simpl. by rewrite lookup_insert_eq. }
    rewrite Hneeds in Htrace. fold finished in Htrace.
    exists r, st'. split; [done|]. split; [apply lookup_insert_eq|].
    split; [done|]. split; [|done].
    destruct (mig _ _) as [[v|e] w1]; rewrite Htrace; count_calls.
Qed.

(** What the pseudo-response does to a handler that answers before it is
    done. *)
Lemma usesCallbacks_fails (h : Callback W) request w :
  usesCallbacks h ->
  exists msg w',
    h (ArgRequestResponse request ThisIsNotAResponseObject) w = (Failed (JStr msg), w')
    /\ (msg = "The migration tool expects you to return promises, not use callbacks"
        \/ msg = "The migration tool expecgts you to return promises, not use callbacks").
Proof.
  intros Hcb.
  destruct (Hcb request ThisIsNotAResponseObject w)
    as (call & w1 & k & (v & [-> | ->]) & [E|E]);
    unfold settled; rewrite E; unfold thrown, promised, andThen; simpl; eauto.
Qed.

Ltac case_chain :=
  repeat match goal with
         | |- context [match ?x with _ => _ end] =>
             lazymatch x with
             | context [match _ with _ => _ end] => fail
             | _ => destruct x eqn:?; simpl
             end
         end.

(** A handler that answers later has returned [undefined] when the chain
    goes on. *)
Lemma answersLater_returns (h : Callback W) answer request response w :
  answersLater h answer ->
  exists w1, h (ArgRequestResponse request response) w = (Fulfilled JUndefined, w1).
Proof.
  intros [Hret _]. destruct (Hret request response w) as (w1 & E).
  exists w1. unfold settled. by rewrite E.
Qed.

(** C10, amended. The composed pre-write callback calls the user's
    beforeSave handler, and the composed pre-delete callback the user's
    beforeDelete handler, once and with the pseudo-response as second
    argument; each handler on its own, whatever else is registered for the
    class.  A handler in the callback style that answers before it is done
    (it calls [success] or [error] of that object while it runs, or in the
    chain of the promise it returns) fails, and the composed callback ends
    on its error path with the message of the pseudo-response, whatever the
    handler passes and whatever it would do next.  A handler in the callback
    style that answers later is not stopped: whatever call it makes later,
    the composed callback goes on as for a handler that returned
    [undefined], and with no migrate handler for the class it ends on its
    success path. *)
Theorem pseudo_response_rejects_callbacks self klass request response st :
  (forall hS : Callback W,
     beforeSave (handlers self klass) = Some hS ->
     onlyMigrationKey (dirtyKeys (object request)) = false ->
     exists r st' evs,
       getBeforeSave self klass request response st = Some (r, st')
       /\ trace st' = trace st
            ++ EvCall BeforeSave (ArgRequestResponse request ThisIsNotAResponseObject) :: evs
       /\ calls BeforeSave evs = 0
       /\ (usesCallbacks hS -> exists msg,
             evs = [EvResponseError (JStr msg)]
             /\ (msg = "The migration tool expects you to return promises, not use callbacks"
                 \/ msg = "The migration tool expecgts you to return promises, not use callbacks"))
       /\ (forall answer,
             answersLater hS answer ->
             migrateObject (handlers self klass) = None ->
             evs = [EvResponseSuccess (JParse (object request))]))
  /\ (forall hD : Callback W,
        beforeDelete (handlers self klass) = Some hD ->
        exists r st' evs,
          getBeforeDelete self klass request response st = Some (r, st')
          /\ trace st' = trace st
               ++ EvCall BeforeDelete (ArgRequestResponse request ThisIsNotAResponseObject)
               :: evs
          /\ calls BeforeDelete evs = 0
          /\ (usesCallbacks hD -> exists msg,
                evs = [EvResponseError (JStr msg)]
                /\ (msg = "The migration tool expects you to return promises, not use callbacks"
                    \/ msg = "The migration tool expecgts you to return promises, not use callbacks"))
          /\ (forall answer,
                answersLater hD answer ->
                migrateDelete (handlers self klass) = None ->
                evs = [EvResponseSuccess JUndefined])).
Proof.
  split.
  - intros hS HS Hreal.
    unfold getBeforeSave, beforeSaveStage. rewrite HS, Hreal. simpl.
    unfold_chain.
    destruct (hS _ (world st)) as [[v|e] w1] eqn:EhS; simpl.
    + case_chain;
        eexists _, _, _; (split; [done|]); simpl; rewrite <- ?app_assoc; simpl;
        (split; [done|]); (split; [done|]); (split; [intros Hcb|intros answer Hlate Hnone]).
      all: try (destruct (usesCallbacks_fails hS request (world st) Hcb)
                  as (msg & w' & E & _); congruence).
      all: destruct (answersLater_returns hS answer request ThisIsNotAResponseObject
                       (world st) Hlate) as (w2 & E).
      all: rewrite E in EhS; injection EhS as <- <-.
      all: try congruence.
      all: repeat match goal with
             | H : workingRecord JUndefined _ = _ |- _ =>
                 simpl in H; injection H as <-
             | H : _ || negb (def (migrateObject _)) = false, H0 : migrateObject _ = None
               |- _ =>
                 rewrite H0 in H; simpl in H; rewrite orb_true_r in H; discriminate H
             | H : _ || negb (def None) = false |- _ =>
                 simpl in H; rewrite orb_true_r in H; discriminate H
             end.
      all: done.
    + destruct (error response e _) as [r w']. eexists _, _, _. split; [done|].
      simpl. rewrite <- app_assoc. simpl. split; [done|]. split; [done|].
      split.
      * intros Hcb.
        destruct (usesCallbacks_fails hS request (world st) Hcb) as (msg & w'' & E & Hmsg).
        rewrite E in EhS. injection EhS as <- <-. eauto.
      * intros answer Hlate _.
        destruct (answersLater_returns hS answer request ThisIsNotAResponseObject
                    (world st) Hlate) as (w2 & E).
        congruence.
  - intros hD HD. unfold getBeforeDelete. rewrite HD. unfold_chain.
    destruct (hD _ (world st)) as [[v|e] w1] eqn:EhD; simpl.
    + case_chain;
        eexists _, _, _; (split; [done|]); simpl; rewrite <- ?app_assoc; simpl;
        (split; [done|]); (split; [done|]); (split; [intros Hcb|intros answer Hlate Hnone]).
      all: try (destruct (usesCallbacks_fails hD request (world st) Hcb)
                  as (msg & w' & E & _); congruence).
      all: try done; try congruence.
    + destruct (error response e _) as [r w']. eexists _, _, _. split; [done|].
      simpl. rewrite <- app_assoc. simpl. split; [done|]. split; [done|].
      split.
      * intros Hcb.
        destruct (usesCallbacks_fails hD request (world st) Hcb) as (msg & w'' & E & Hmsg).
        rewrite E in EhD. injection EhD as <- <-. eauto.
      * intros answer Hlate _.
        destruct (answersLater_returns hD answer request ThisIsNotAResponseObject
                    (world st) Hlate) as (w2 & E).
        congruence.
Qed.

End CallbackFacts.

(** ** The import job, over any SDK *)

Section JobFacts.

Context {W : Type} (parse : ParseSDK W) (BATCH_SIZE : nat).
Implicit Types (st : State W) (migration : Callback W).
Implicit Types (triggers : list (string * Handlers W)).

(** With a deadline in the past the sweep returns 0 and does nothing. *)
Lemma migrateClass_past_deadline fuel klass migration (d : Z) st :
  (d < date_now parse (world st))%Z ->
  _migrateClass parse BATCH_SIZE (S fuel) klass migration (Some d) st
  = Some (Fulfilled 0, st).
Proof.
  intros Hd. simpl. unfold bind, Date_now, pastDeadline. simpl.
  by rewrite (proj2 (Z.ltb_lt _ _) Hd).
Qed.


(** A failed chain stays failed: no later class is swept. *)
Lemma importChain_failed fuel triggers (lastMigration : P W (nat * nat)) st e st' :
  lastMigration st = Some (Failed e, st') ->
  importChain parse BATCH_SIZE fuel triggers lastMigration st = Some (Failed e, st').
Proof.
  revert lastMigration.
  induction triggers as [|[klass h] rest IH]; intros lastMigration Hfail; simpl; [done|].
  destruct (migrateObject h); [|by apply IH].
  apply IH. unfold bind. by rewrite Hfail.
Qed.


End JobFacts.

(** ** The import job on the store in memory *)

Section StoreFacts.

Import MemStore StoreObservations.

Implicit Types (w : World) (st : State World) (o r : ParseObject).
Implicit Types (rs saved objs : list ParseObject) (mig : Callback World).

Lemma savesUntilFind_app (evs tl : list (Event World)) :
  finds evs = 0 ->
  savesUntilFind (evs ++ tl) = length (savedRecords evs) + savesUntilFind tl.
Proof.
  induction evs as [|ev rest IH]; simpl; [done|].
  destruct ev; simpl; try done; intros H; by rewrite IH.
Qed.

Lemma rounds_app (evs tl : list (Event World)) :
  finds evs = 0 -> rounds (evs ++ tl) = rounds tl.
Proof.
  induction evs as [|ev rest IH]; simpl; [done|].
  destruct ev; simpl; try done.
Qed.

Lemma matches_migratedRow B klass o :
  matches (unmigratedQuery B klass) (migratedRow o) = false.
Proof.
  unfold matches, migratedRow, persisted, get, set_. simpl.
  rewrite lookup_insert_eq. simpl. apply andb_false_r.
Qed.

Lemma objectId_replaceRow o r :
  objectId (replaceRow (migratedRow o) r) = objectId r.
Proof. unfold replaceRow. by case_bool_decide. Qed.

Lemma isNew_replaceRow o r :
  isNew (replaceRow (migratedRow o) r) = isNew r.
Proof. unfold isNew. by rewrite objectId_replaceRow. Qed.

Lemma idIn_singleton o r : idIn [o] r = bool_decide (objectId r = objectId o).
Proof.
  unfold idIn. simpl. apply bool_decide_ext. apply list_elem_of_singleton.
Qed.

Lemma filter_matches_replace B klass o rs :
  List.filter (matches (unmigratedQuery B klass)) (map (replaceRow (migratedRow o)) rs)
  = List.filter (fun r => negb (idIn [o] r))
      (List.filter (matches (unmigratedQuery B klass)) rs).
Proof.
  induction rs as [|r rest IH]; simpl; [done|].
  rewrite IH. unfold replaceRow.
  change (objectId (migratedRow o)) with (objectId o).
  destruct (bool_decide (objectId r = objectId o)) eqn:E.
  - rewrite matches_migratedRow.
    destruct (matches _ r); [|done]. simpl. by rewrite idIn_singleton, E.
  - destruct (matches _ r); [|done]. simpl. by rewrite idIn_singleton, E.
Qed.

Lemma idIn_cons o saved r : idIn (o :: saved) r = idIn [o] r || idIn saved r.
Proof.
  unfold idIn. simpl. apply eq_true_iff_eq.
  rewrite orb_true_iff, !bool_decide_eq_true, elem_of_cons, list_elem_of_singleton.
  done.
Qed.

Lemma filter_filter {A} (f g : A -> bool) (l : list A) :
  List.filter f (List.filter g l) = List.filter (fun x => g x && f x) l.
Proof.
  induction l as [|x rest IH]; simpl; [done|].
  destruct (g x); simpl; [|done]. destruct (f x); by rewrite IH.
Qed.

(** The records still selected once [saved] are saved. *)
Lemma filter_matches_markMigrated B klass saved rs :
  List.filter (matches (unmigratedQuery B klass)) (markMigrated saved rs)
  = List.filter (fun r => negb (idIn saved r))
      (List.filter (matches (unmigratedQuery B klass)) rs).
Proof.
  revert rs. induction saved as [|o rest IH]; intros rs; simpl.
  - unfold markMigrated. simpl. induction (List.filter _ rs) as [|x l IHl]; [done|].
    simpl. by rewrite <- IHl.
  - change (markMigrated (o :: rest) rs)
      with (markMigrated rest (map (replaceRow (migratedRow o)) rs)).
    rewrite IH, filter_matches_replace.
    rewrite filter_filter. apply List.filter_ext. intros r.
    rewrite (idIn_cons o rest r). by destruct (idIn [o] r), (idIn rest r).
Qed.

Lemma map_objectId_markMigrated saved rs :
  map objectId (markMigrated saved rs) = map objectId rs.
Proof.
  revert rs. induction saved as [|o rest IH]; intros rs; [done|].
  change (markMigrated (o :: rest) rs)
    with (markMigrated rest (map (replaceRow (migratedRow o)) rs)).
  rewrite IH, map_map.
  apply map_ext. intros r. apply objectId_replaceRow.
Qed.

Lemma wellKeyed_markMigrated saved rs :
  wellKeyed rs -> wellKeyed (markMigrated saved rs).
Proof.
  intros [Hnd Hnew]. split.
  - by rewrite map_objectId_markMigrated.
  - revert rs Hnd Hnew. induction saved as [|o rest IH]; intros rs Hnd Hnew; [done|].
    change (markMigrated (o :: rest) rs)
      with (markMigrated rest (map (replaceRow (migratedRow o)) rs)).
    apply IH.
    + rewrite map_map. erewrite map_ext; [done|]. intros r. apply objectId_replaceRow.
    + apply Forall_map. eapply Forall_impl; [done|]. intros r Hr. simpl.
      by rewrite isNew_replaceRow.
Qed.

Lemma rejects_ext w w' o :
  brokenIds w = brokenIds w' -> rejects w o = rejects w' o.
Proof. unfold rejects. by intros ->. Qed.

(** One record of a batch: the handler, then the save. *)
Lemma migrateRecord_step mig o st :
  storeNeutral mig ->
  isNew o = false ->
  exists (res : Res JsVal) st' evs,
    migrateRecord memParse mig o st = Some (res, st')
    /\ trace st' = trace st ++ evs
    /\ finds evs = 0
    /\ calls MigrateObject evs = 1
    /\ brokenIds (world st') = brokenIds (world st)
    /\ latency (world st') = latency (world st)
    /\ ((exists v, res = Fulfilled v)
        /\ rows (world st') = map (replaceRow (migratedRow o)) (rows (world st))
        /\ length (savedRecords evs) = 1
        \/ (exists e, res = Failed e) /\ rows (world st') = rows (world st))
    /\ (alwaysFulfils mig -> brokenIds (world st) = [] -> exists v, res = Fulfilled v).
Proof.
  intros Hneutral Hnew.
  destruct (Hneutral (ArgObject o) (world st)) as (Hrows & Hbroken & Hlat).
  pose proof (fun Hall : alwaysFulfils mig => Hall (ArgObject o) (world st)) as Hful.
  unfold migrateRecord.
  repeat progress (unfold bind, as_, ret, invoke, save, emit, liftW; simpl).
  destruct (mig (ArgObject o) (world st)) as [[v|e] w1] eqn:E; simpl in *.
  - unfold mem_save.
    change (rejects w1 (set_ o MIGRATION_KEY IS_MIGRATED)) with (rejects w1 o).
    change (isNew (set_ o MIGRATION_KEY IS_MIGRATED)) with (isNew o).
    rewrite Hnew.
    destruct (rejects w1 o) eqn:Erej; simpl.
    + eexists _, _, _. split; [done|]. simpl. rewrite <- app_assoc. simpl.
      split; [done|]. split; [done|]. split; [done|]. split; [done|]. split; [done|].
      split; [right; eauto|].
      intros _ Hnone. rewrite (rejects_ext w1 (world st)) in Erej by done.
      unfold rejects in Erej. rewrite Hnone in Erej.
      destruct (objectId o); [|done].
      apply bool_decide_eq_true in Erej. by apply elem_of_nil in Erej.
    + eexists _, _, _. split; [done|]. simpl. rewrite <- app_assoc. simpl.
      split; [done|]. split; [done|]. split; [done|]. split; [done|]. split; [done|].
      split; [|eauto]. left. split; [eauto|]. by rewrite Hrows.
  - eexists _, _, _. split; [done|]. simpl.
    split; [done|]. split; [done|]. split; [done|]. split; [done|]. split; [done|].
    split; [right; eauto|].
    intros Hall _. destruct (Hful Hall) as [v Hv]. done.
Qed.

(** A whole batch: every record is tried, in order. *)
Lemma batch_run mig objs st :
  storeNeutral mig ->
  Forall (fun o => isNew o = false) objs ->
  exists results st' evs saved,
    settleAll (map (migrateRecord memParse mig) objs) st = Some (Fulfilled results, st')
    /\ trace st' = trace st ++ evs
    /\ finds evs = 0
    /\ calls MigrateObject evs = length objs
    /\ brokenIds (world st') = brokenIds (world st)
    /\ latency (world st') = latency (world st)
    /\ rows (world st') = markMigrated saved (rows (world st))
    /\ saved = savedOf objs results
    /\ (snd (collect results) = [] ->
        saved = objs /\ length (savedRecords evs) = length objs)
    /\ (alwaysFulfils mig -> brokenIds (world st) = [] -> snd (collect results) = []).
Proof.
  intros Hneutral. revert st.
  induction objs as [|o rest IH]; intros st Hnew.
  - exists [], st, [], []. simpl. unfold ret. rewrite app_nil_r.
    repeat split; done.
  - inversion Hnew as [|? ? Ho Hrest]; subst.
    destruct (migrateRecord_step mig o st Hneutral Ho)
      as (res & st1 & evs1 & Hrun1 & Htr1 & Hf1 & Hc1 & Hb1 & Hl1 & Hcase & Hok1).
    destruct (IH st1 Hrest)
      as (rs & st2 & evs2 & saved2 & Hrun2 & Htr2 & Hf2 & Hc2 & Hb2 & Hl2 & Hrows2
          & Hsav & Hall & Hok2).
    simpl. unfold bind, settle, ret. rewrite Hrun1, Hrun2.
    destruct Hcase as [([v ->] & Hrows1 & Hlen1) | ([e ->] & Hrows1)].
    + exists (Fulfilled v :: rs), st2, (evs1 ++ evs2), (o :: saved2).
      split; [done|]. split; [by rewrite Htr2, Htr1, app_assoc|].
      split; [rewrite finds_app; lia|]. split; [rewrite calls_app; simpl; lia|].
      split; [congruence|]. split; [congruence|].
      split; [by rewrite Hrows2, Hrows1|].
      split; [simpl; by rewrite Hsav|].
      split.
      { simpl. intros Hnil. destruct (Hall Hnil) as [-> Hlen].
        split; [done|]. rewrite savedRecords_app, length_app. simpl. lia. }
      simpl. intros Hful Hnone. apply Hok2; [done|congruence].
    + exists (Failed e :: rs), st2, (evs1 ++ evs2), saved2.
      split; [done|]. split; [by rewrite Htr2, Htr1, app_assoc|].
      split; [rewrite finds_app; lia|]. split; [rewrite calls_app; simpl; lia|].
      split; [congruence|]. split; [congruence|].
      split; [by rewrite Hrows2, Hrows1|].
      split; [done|].
      split; [done|].
      intros Hful Hnone. by destruct (Hok1 Hful Hnone).
Qed.

Lemma selected_isNew klass w :
  wellKeyed (rows w) -> Forall (fun o => isNew o = false) (selected klass w).
Proof.
  intros [_ Hnew]. unfold selected. apply List.Forall_forall. intros x Hx.
  apply List.filter_In in Hx as [Hx _].
  rewrite List.Forall_forall in Hnew. by apply Hnew.
Qed.

Lemma Forall_take {A} (Q : A -> Prop) n (l : list A) :
  Forall Q l -> Forall Q (take n l).
Proof.
  revert n. induction l as [|x l IH]; intros [|n] H; simpl; try done.
  inversion H; subst. constructor; [done|]. by apply IH.
Qed.

(** One round of the sweep: the query, then the batch. *)
Lemma sweep_round mig klass B fuel deadline st :
  storeNeutral mig ->
  wellKeyed (rows (world st)) ->
  pastDeadline (clock (world st)) deadline = false ->
  let objs := take B (selected klass (world st)) in
  exists (results : list (Res JsVal)) st1 evs saved,
    _migrateClass memParse B (S fuel) klass mig deadline st
    = match snd (collect results) with
      | [] =>
          if Nat.eqb (length objs) B then
            (accum <- _migrateClass memParse B fuel klass mig deadline ;;
             ret (accum + length objs))%promise st1
          else Some (Fulfilled (length objs), st1)
      | errs => Some (Failed (JArray errs), st1)
      end
    /\ trace st1 = trace st ++ EvFind (unmigratedQuery B klass) :: evs
    /\ finds evs = 0
    /\ calls MigrateObject evs = length objs
    /\ brokenIds (world st1) = brokenIds (world st)
    /\ latency (world st1) = latency (world st)
    /\ rows (world st1) = markMigrated saved (rows (world st))
    /\ saved = savedOf objs results
    /\ batchOutcomes B klass mig st = Some (objs, results)
    /\ (snd (collect results) = [] ->
        saved = objs /\ length (savedRecords evs) = length objs)
    /\ (alwaysFulfils mig -> brokenIds (world st) = [] -> snd (collect results) = []).
Proof.
  intros Hneutral Hkeyed Hdeadline objs.
  pose (st0 := afterFind B klass st).
  assert (Hnew : Forall (fun o => isNew o = false) objs).
  { apply Forall_take. by apply selected_isNew. }
  destruct (batch_run mig objs st0 Hneutral Hnew)
    as (results & st1 & evs & saved & Hrun & Htr & Hf & Hc & Hb & Hl & Hrows
        & Hsav & Hall & Hok).
  exists results, st1, evs, saved.
  split.
  - simpl. unfold bind at 1. unfold Date_now. simpl. rewrite Hdeadline.
    unfold console_log, promise_when, find.
    repeat progress (unfold bind, ret, fail, emit, liftW; simpl).
    change (List.filter (matches (unmigratedQuery B klass)) (rows (world st)))
      with (selected klass (world st)).
    fold objs.
    change {| trace := trace st ++ [EvFind (unmigratedQuery B klass)];
              world := tick (world st) |} with st0.
    rewrite Hrun.
    destruct (collect results) as [vs errs]. simpl.
    rewrite length_map. destruct errs; [|done].
    destruct (Nat.eqb (length objs) B); [|done].
    by destruct (_migrateClass memParse B fuel klass mig deadline st1) as [[[a|e] s']|].
  - rewrite Htr. simpl. rewrite <- app_assoc. simpl.
    split; [done|]. split; [done|]. split; [done|]. split; [done|].
    split; [done|]. split; [done|]. split; [done|].
    split; [|done].
    unfold batchOutcomes. fold objs. fold st0. by rewrite Hrun.
Qed.

Lemma NoDup_map_filter {A B} (g : A -> B) (f : A -> bool) (l : list A) :
  NoDup (map g l) -> NoDup (map g (List.filter f l)).
Proof.
  induction l as [|x l IH]; simpl; [done|].
  intros Hnd. apply NoDup_cons in Hnd as [Hx Hnd].
  destruct (f x); simpl; [|by apply IH].
  apply NoDup_cons. split; [|by apply IH].
  intros Hin. apply Hx. apply list_elem_of_In in Hin. apply list_elem_of_In.
  apply List.in_map_iff in Hin as (y & <- & Hy). apply List.in_map.
  by apply List.filter_In in Hy as [Hy _].
Qed.

(** Saving the first [n] of a list of records with ids of their own leaves
    the others. *)
Lemma filter_notIn_take n (l : list ParseObject) :
  NoDup (map objectId l) ->
  List.filter (fun r => negb (idIn (take n l) r)) l = drop n l.
Proof.
  revert n. induction l as [|a l IH]; intros n Hnd; [by destruct n|].
  apply NoDup_cons in Hnd as [Ha Hnd].
  destruct n as [|n].
  - simpl. f_equal. clear. induction l as [|x l IHl]; [done|].
    simpl. by rewrite IHl.
  - simpl. rewrite (idIn_cons a (take n l) a), idIn_singleton.
    rewrite bool_decide_true by done. simpl.
    rewrite <- (IH n Hnd). apply List.filter_ext_in. intros x Hx.
    rewrite (idIn_cons a (take n l) x), idIn_singleton.
    rewrite bool_decide_false; [done|].
    intros E. apply Ha. rewrite <- E. apply list_elem_of_In. by apply List.in_map.
Qed.

Lemma rounds_app_inert (evs tl : list (Event World)) :
  finds tl = 0 -> savedRecords tl = [] ->
  savesUntilFind (evs ++ tl) = savesUntilFind evs /\ rounds (evs ++ tl) = rounds evs.
Proof.
  intros Hf Hs. induction evs as [|ev rest [IH1 IH2]]; simpl.
  - rewrite <- (app_nil_r tl), savesUntilFind_app, rounds_app by done.
    by rewrite Hs.
  - destruct ev; simpl; by rewrite ?IH1, ?IH2.
Qed.

(** The sweep of a class whose migrations all go through: [q] full batches
    and a last one of [r] records. *)
Lemma sweep_all mig klass B :
  0 < B -> storeNeutral mig -> alwaysFulfils mig ->
  forall (q r fuel : nat) st,
    wellKeyed (rows (world st)) ->
    brokenIds (world st) = [] ->
    length (selected klass (world st)) = q * B + r ->
    r < B ->
    q < fuel ->
    exists st' evs,
      _migrateClass memParse B fuel klass mig None st = Some (Fulfilled (q * B + r), st')
      /\ trace st' = trace st ++ evs
      /\ rounds evs = replicate q B ++ [r]
      /\ savesUntilFind evs = 0
      /\ calls MigrateObject evs = q * B + r
      /\ selected klass (world st') = []
      /\ wellKeyed (rows (world st'))
      /\ brokenIds (world st') = [].
Proof.
  intros HB Hneutral Hful q.
  induction q as [|q IH]; intros r fuel st Hkeyed Hbroken Hlen Hr Hfuel.
  - destruct fuel as [|fuel]; [lia|].
    destruct (sweep_round mig klass B fuel None st Hneutral Hkeyed eq_refl)
      as (results & st1 & evs & saved & Hrun & Htr & Hf & Hc & Hb & Hl & Hrows
          & Hsav & Hout & Hall & Hok).
    specialize (Hok Hful Hbroken). destruct (Hall Hok) as [-> Hsaves].
    rewrite Hok in Hrun.
    assert (Hobjs : length (take B (selected klass (world st))) = r).
    { rewrite length_take. lia. }
    rewrite Hobjs in *.
    rewrite (proj2 (Nat.eqb_neq r B)) in Hrun by lia.
    exists st1, (EvFind (unmigratedQuery B klass) :: evs).
    split; [done|]. split; [done|]. simpl.
    rewrite <- (app_nil_r evs) at 1 2.
    rewrite savesUntilFind_app, rounds_app by done. simpl.
    split; [f_equal; lia|]. split; [done|].
    split; [by unfold calls in *|].
    split.
    { unfold selected. rewrite Hrows, filter_matches_markMigrated.
      fold (selected klass (world st)).
      rewrite filter_notIn_take.
      - apply drop_ge. lia.
      - apply NoDup_map_filter. apply Hkeyed. }
    split; [rewrite Hrows; by apply wellKeyed_markMigrated|congruence].
  - destruct fuel as [|fuel]; [lia|].
    destruct (sweep_round mig klass B fuel None st Hneutral Hkeyed eq_refl)
      as (results & st1 & evs & saved & Hrun & Htr & Hf & Hc & Hb & Hl & Hrows
          & Hsav & Hout & Hall & Hok).
    specialize (Hok Hful Hbroken). destruct (Hall Hok) as [-> Hsaves].
    rewrite Hok in Hrun.
    assert (Hobjs : length (take B (selected klass (world st))) = B).
    { rewrite length_take. lia. }
    rewrite Hobjs in *. rewrite Nat.eqb_refl in Hrun.
    assert (Hsel : selected klass (world st1) = drop B (selected klass (world st))).
    { unfold selected. rewrite Hrows, filter_matches_markMigrated.
      fold (selected klass (world st)).
      apply filter_notIn_take. apply NoDup_map_filter. apply Hkeyed. }
    destruct (IH r fuel st1) as (st' & evs' & Hrun' & Htr' & Hrounds & Hzero & Hc' & Hsel'
                                 & Hkeyed' & Hbroken').
    { rewrite Hrows. by apply wellKeyed_markMigrated. }
    { congruence. }
    { rewrite Hsel, length_drop. lia. }
    { done. }
    { lia. }
    exists st', (EvFind (unmigratedQuery B klass) :: evs ++ evs').
    split.
    { rewrite Hrun. unfold bind, ret. rewrite Hrun'. do 3 f_equal. lia. }
    split; [rewrite Htr', Htr, <- app_assoc; done|]. simpl.
    rewrite savesUntilFind_app, rounds_app by done.
    split; [rewrite Hzero, Hrounds; f_equal; lia|]. split; [done|].
    split; [|done].
    unfold calls in *. simpl. rewrite List.filter_app, length_app. lia.
Qed.

(** The job of a registry with one migrating class, on a sink that accepts
    the report. *)
Lemma getImportJob_single B fuel (self : Migrator World) klass h mig request st n st' :
  _triggers self = [(klass, h)] ->
  migrateObject h = Some mig ->
  _migrateClass memParse B fuel klass mig None st = Some (Fulfilled n, st') ->
  getImportJob memParse B fuel self request hostSink st
  = Some (Fulfilled (Some n),
          {| trace := trace st'
               ++ [EvStatusSuccess
                     (JStr (if Nat.eqb n 0 then "Completed initial import!"
                            else "Done with an import pass"))];
             world := world st' |}).
Proof.
  intros Htrig Hmig Hrun.
  unfold getImportJob. rewrite Htrig. simpl. rewrite Hmig.
  repeat progress (unfold then2, bind, as_, ret, console_log; simpl).
  rewrite Hrun. simpl.
  by repeat progress (unfold status_success, bind, emit, liftW, ret; simpl).
Qed.

(** C5. A class with 2500 unmigrated records, [BATCH_SIZE] 1000 and no
    deadline in the way: one run of the import job makes three rounds, of
    1000, 1000 and 500 records, calls the migrate handler 2500 times and
    reports 2500 with the message of an import pass; the next run finds
    nothing to migrate, makes one empty round and reports 0 with
    "Completed initial import!". *)
Theorem import_job_2500_records
    (mig : Callback World) (self : Migrator World) (h : Handlers World)
    (w : World) (request : Request) (fuel : nat) :
  storeNeutral mig ->
  alwaysFulfils mig ->
  _triggers self = [("Widget", h)] ->
  migrateObject h = Some mig ->
  wellKeyed (rows w) ->
  brokenIds w = [] ->
  length (selected "Widget" w) = 2500 ->
  3 <= fuel ->
  exists st1 st2,
    getImportJob memParse DEFAULT_BATCH_SIZE fuel self request hostSink (start w)
    = Some (Fulfilled (Some 2500), st1)
    /\ rounds (trace st1) = [1000; 1000; 500]
    /\ calls MigrateObject (trace st1) = 2500
    /\ last (trace st1) = Some (EvStatusSuccess (JStr "Done with an import pass"))
    /\ selected "Widget" (world st1) = []
    /\ getImportJob memParse DEFAULT_BATCH_SIZE fuel self request hostSink
         (start (world st1))
       = Some (Fulfilled (Some 0), st2)
    /\ rounds (trace st2) = [0]
    /\ calls MigrateObject (trace st2) = 0
    /\ last (trace st2) = Some (EvStatusSuccess (JStr "Completed initial import!")).
Proof.
  intros Hneutral Hful Htrig Hmig Hkeyed Hbroken Hlen Hfuel.
  assert (HB : 0 < DEFAULT_BATCH_SIZE) by (unfold DEFAULT_BATCH_SIZE; lia).
  destruct (sweep_all mig "Widget" DEFAULT_BATCH_SIZE HB Hneutral Hful
              2 500 fuel (start w))
    as (sa & evs1 & Hrun1 & Htr1 & Hrounds1 & _ & Hcalls1 & Hsel1 & Hkeyed1 & Hbroken1);
    [done|done|exact Hlen|unfold DEFAULT_BATCH_SIZE; lia|lia|].
  destruct (sweep_all mig "Widget" DEFAULT_BATCH_SIZE HB Hneutral Hful
              0 0 fuel (start (world sa)))
    as (sb & evs2 & Hrun2 & Htr2 & Hrounds2 & _ & Hcalls2 & _);
    [done|done|simpl; by rewrite Hsel1|unfold DEFAULT_BATCH_SIZE; lia|lia|].
  eexists _, _.
  split; [exact (getImportJob_single _ _ _ _ _ _ _ _ _ _ Htrig Hmig Hrun1)|].
  simpl in Htr1, Htr2. simpl trace. rewrite Htr1.
  destruct (rounds_app_inert evs1
              [EvStatusSuccess (JStr "Done with an import pass")]) as [_ ->]; [done..|].
  split; [done|].
  split; [by rewrite calls_app, Hcalls1|].
  split; [apply last_snoc|].
  split; [done|].
  split; [exact (getImportJob_single _ _ _ _ _ _ _ _ _ _ Htrig Hmig Hrun2)|].
  simpl trace. rewrite Htr2.
  destruct (rounds_app_inert evs2
              [EvStatusSuccess (JStr "Completed initial import!")]) as [_ ->]; [done..|].
  split; [done|].
  split; [by rewrite calls_app, Hcalls2|].
  apply last_snoc.
Qed.

Lemma NoDup_map_inj_on {A B} (g : A -> B) (l : list A) x y :
  NoDup (map g l) -> x ∈ l -> y ∈ l -> g x = g y -> x = y.
Proof.
  induction l as [|a l IH]; simpl; intros Hnd Hx Hy E.
  - by apply elem_of_nil in Hx.
  - apply NoDup_cons in Hnd as [Ha Hnd].
    apply elem_of_cons in Hx as [->|Hx]; apply elem_of_cons in Hy as [->|Hy];
      try done.
    + exfalso. apply Ha. rewrite E. apply list_elem_of_In. apply List.in_map.
      by apply list_elem_of_In.
    + exfalso. apply Ha. rewrite <- E. apply list_elem_of_In. apply List.in_map.
      by apply list_elem_of_In.
    + by apply IH.
Qed.




Lemma elem_of_take_elem {A} n (l : list A) x : x ∈ take n l -> x ∈ l.
Proof.
  rewrite elem_of_take. intros (i & Hi & _). by eapply list_elem_of_lookup_2.
Qed.










End StoreFacts.

(** ** The claims on the sample inputs *)

Section SampleFacts.

Import MemStore Samples StoreObservations MoreSamples.

Lemma importMig_storeNeutral : storeNeutral importMig.
Proof. intros args w. done. Qed.

Lemma importMig_alwaysFulfils : alwaysFulfils importMig.
Proof. intros args w. by exists JUndefined. Qed.

Lemma wellKeyed_widgets n : wellKeyed (map widget (seq 0 n)).
Proof.
  split.
  - rewrite map_map. simpl.
    change (map (fun i : nat => Some (pretty i)) (seq 0 n))
      with ((fun i : nat => Some (pretty i)) <$> seq 0 n).
    apply NoDup_fmap_2; [|apply NoDup_seq].
    intros i j [= E]. by apply (inj pretty) in E.
  - apply List.Forall_forall. intros x Hx.
    by apply List.in_map_iff in Hx as (i & <- & _).
Qed.

(** C1. The job does not stop at its deadline.  The first of two classes
    takes a quarter of an hour, so the sweep of the second class starts
    after [MAXIMUM_DURATION] has passed since the job started; the job still
    queries the second class and migrates its record, and reports 2.  The
    sweep itself returns 0 without a query when it is handed that deadline:
    the job calls it without one. *)
Theorem import_job_ignores_deadline :
  exists stA st',
    importChain memParse DEFAULT_BATCH_SIZE 5
      [("Alpha", migratingOnly slowMig)] (as_ (0, 0)) (start twoClassWorld)
    = Some (Fulfilled (0, 1), stA)
    /\ (clock twoClassWorld + MAXIMUM_DURATION < date_now memParse (world stA))%Z
    /\ getImportJob memParse DEFAULT_BATCH_SIZE 5 twoClassRegistry
         {| object := widget 0 |} hostSink (start twoClassWorld)
       = Some (Fulfilled (Some 2), st')
    /\ List.filter isFind (trace st')
       = [EvFind (unmigratedQuery DEFAULT_BATCH_SIZE "Alpha");
          EvFind (unmigratedQuery DEFAULT_BATCH_SIZE "Beta")]
    /\ backend (world st') = ["b1"]
    /\ _migrateClass memParse DEFAULT_BATCH_SIZE 5 "Beta" importMig
         (Some (clock twoClassWorld + MAXIMUM_DURATION)%Z) stA
       = Some (Fulfilled 0, stA).
Proof.
  eexists _, _.
  split; [vm_compute; reflexivity|].
  split; [vm_compute; reflexivity|].
  split; [vm_compute; reflexivity|].
  split; [vm_compute; reflexivity|].
  split; vm_compute; reflexivity.
Qed.

(** C2, as stated, fails: a persisted record at [FINISHED_SECOND_PASS] is
    handed to the migrate handler on its next write. *)
Lemma finished_second_pass_is_migrated_again :
  get finishedWidget MIGRATION_KEY = Some FINISHED_SECOND_PASS
  /\ exists r st',
       getBeforeSave widgetRegistry (KString "Widget") {| object := finishedWidget |}
         hostSink (start twoClassWorld) = Some (r, st')
       /\ calls MigrateObject (trace st')
          = calls MigrateObject (trace (start twoClassWorld)) + 1.
Proof.
  split; [vm_compute; reflexivity|].
  eexists _, _. split; vm_compute; reflexivity.
Qed.

(** C7 on a widget whose only change is the status, with a beforeSave
    handler registered. *)
Lemma bookkeeping_write_skips_beforeSave_witness :
  dirtyKeys touchedWidget = [MIGRATION_KEY]
  /\ exists r st',
       getBeforeSave callbackRegistry (KString "Widget") {| object := touchedWidget |}
         hostSink (start twoClassWorld) = Some (r, st')
       /\ calls BeforeSave (trace st') = calls BeforeSave (trace (start twoClassWorld)).
Proof.
  split; [reflexivity|].
  apply (bookkeeping_write_skips_beforeSave callbackRegistry (KString "Widget")
           {| object := touchedWidget |} hostSink (start twoClassWorld)).
  reflexivity.
Defined.

(** C8 on a script that registers beforeSave for Widget by name and then
    by constructor. *)
Lemma duplicate_registration_fails_fast_witness :
  (exists t klass,
     setup memParse DEFAULT_BATCH_SIZE twoRegistrations []
     = (Failed (alreadyRegistered t klass), []))
  /\ (forall m,
        registerAll
          [ {| r_type := BeforeSave; r_klass := KString "Widget";
               r_callback := callbackStyle |} ] newMigrator = Fulfilled m ->
        _registerFn BeforeSave (KCtor "function Widget() {}" "Widget") importMig m
        = Failed (alreadyRegistered BeforeSave (KCtor "function Widget() {}" "Widget"))).
Proof.
  apply (duplicate_registration_fails_fast memParse DEFAULT_BATCH_SIZE [] [] []
           {| r_type := BeforeSave; r_klass := KString "Widget";
              r_callback := callbackStyle |}
           {| r_type := BeforeSave; r_klass := KCtor "function Widget() {}" "Widget";
              r_callback := importMig |} []); reflexivity.
Defined.

(** C2, amended, on a widget at [IS_MIGRATED] and on one at
    [FINISHED_SECOND_PASS]. *)
Lemma migrated_record_not_migrated_again_witness :
  (exists r st',
     getBeforeSave widgetRegistry (KString "Widget") {| object := migratedWidget |}
       hostSink (start twoClassWorld) = Some (r, st')
     /\ trace st' = [EvResponseSuccess (JParse migratedWidget)]
     /\ calls MigrateObject (trace st') = 0)
  /\ (exists r st',
        getBeforeSave widgetRegistry (KString "Widget") {| object := finishedWidget |}
          hostSink (start twoClassWorld) = Some (r, st')
        /\ calls MigrateObject (trace st') = 1
        /\ EvCall MigrateObject
             (ArgObject (set_ finishedWidget MIGRATION_KEY IS_MIGRATED)) ∈ trace st'
        /\ get (set_ finishedWidget MIGRATION_KEY IS_MIGRATED) MIGRATION_KEY
           = Some IS_MIGRATED).
Proof.
  split.
  - apply (proj1 (migrated_record_not_migrated_again widgetRegistry (KString "Widget")
                    {| object := migratedWidget |} hostSink (start twoClassWorld)
                    JUndefined (start twoClassWorld) migratedWidget
                    eq_refl eq_refl)).
    reflexivity.
  - apply (proj2 (migrated_record_not_migrated_again widgetRegistry (KString "Widget")
                    {| object := finishedWidget |} hostSink (start twoClassWorld)
                    JUndefined (start twoClassWorld) finishedWidget
                    eq_refl eq_refl) importMig); reflexivity.
Defined.

(** C4 on a persisted widget without a status. *)
Lemma existing_record_migrated_on_write_witness :
  isNew legacyWidget = false
  /\ get legacyWidget MIGRATION_KEY = None
  /\ get (set_ legacyWidget MIGRATION_KEY IS_MIGRATED) MIGRATION_KEY = Some IS_MIGRATED
  /\ exists r st',
       getBeforeSave widgetRegistry (KString "Widget") {| object := legacyWidget |}
         hostSink (start twoClassWorld) = Some (r, st')
       /\ calls MigrateObject (trace st') = 1
       /\ trace st'
          = [EvCall MigrateObject
               (ArgObject (set_ legacyWidget MIGRATION_KEY IS_MIGRATED));
             EvResponseSuccess (JParse (set_ legacyWidget MIGRATION_KEY IS_MIGRATED))].
Proof.
  split; [reflexivity|]. split; [reflexivity|].
  apply (existing_record_migrated_on_write widgetRegistry (KString "Widget") importMig
           {| object := legacyWidget |} hostSink (start twoClassWorld)
           JUndefined (start twoClassWorld) legacyWidget); reflexivity.
Defined.

(** C3 on a widget that was never saved, stored under the id w9, of a
    class whose afterSave handler returns a promise that is rejected: the
    second save is issued all the same.  With an afterSave handler that
    throws when it is called, the post-write callback ends by the exception
    and saves nothing. *)
Lemma new_record_second_pass_witness :
  let self := saveRegistry None (Some (failingHandler (JStr "no"))) (Some importMig) in
  let throwing :=
    saveRegistry None (Some (throwingHandler (JStr "boom"))) (Some importMig) in
  let stored := afterFirstSave newWidget "w9" in
  let touched := set_ stored MIGRATION_KEY NEEDS_SECOND_PASS in
  let finished := set_ touched MIGRATION_KEY FINISHED_SECOND_PASS in
  isNew newWidget = true
  /\ (exists r st',
        getBeforeSave self (KString "Widget") {| object := newWidget |}
          hostSink (start twoClassWorld) = Some (r, st')
        /\ trace st' = [EvResponseSuccess (JParse newWidget)]
        /\ calls MigrateObject (trace st') = 0)
  /\ (exists r st',
        getAfterSave memParse self (KString "Widget") {| object := stored |}
          (start twoClassWorld) = Some (r, st')
        /\ get touched MIGRATION_KEY = Some NEEDS_SECOND_PASS
        /\ calls MigrateObject (trace st') = 0
        /\ savedRecords (trace st') = [touched])
  /\ (exists r st',
        getBeforeSave self (KString "Widget") {| object := touched |}
          hostSink (start twoClassWorld) = Some (r, st')
        /\ get finished MIGRATION_KEY = Some FINISHED_SECOND_PASS
        /\ calls MigrateObject (trace st') = 1
        /\ calls BeforeSave (trace st') = 0
        /\ trace st' = [EvCall MigrateObject (ArgObject finished);
                        EvResponseSuccess (JParse finished)])
  /\ (exists r st',
        getAfterSave memParse throwing (KString "Widget") {| object := stored |}
          (start twoClassWorld) = Some (r, st')
        /\ savedRecords (trace st') = []
        /\ r = Failed (JStr "boom")).
Proof.
  intros self throwing stored touched finished.
  split; [reflexivity|].
  destruct (new_record_second_pass memParse self (KString "Widget") importMig
              {| object := newWidget |} hostSink (start twoClassWorld)
              JUndefined (start twoClassWorld) newWidget "w9"
              eq_refl eq_refl eq_refl eq_refl) as (H1 & H2 & H3).
  split; [exact H1|].
  split; [exact (H2 (start twoClassWorld))|].
  split; [exact (H3 hostSink (start twoClassWorld))|].
  destruct (new_record_second_pass memParse throwing (KString "Widget") importMig
              {| object := newWidget |} hostSink (start twoClassWorld)
              JUndefined (start twoClassWorld) newWidget "w9"
              eq_refl eq_refl eq_refl eq_refl) as (_ & H2' & _).
  destruct (H2' (start twoClassWorld)) as (r & st' & Hrun & _ & _ & Hsaved & Hr).
  exists r, st'. split; [exact Hrun|]. split; [exact Hsaved|exact Hr].
Defined.

(** C3 on a class whose afterSave handler throws when it is called: the
    post-write callback of the first save ends by that exception, with the
    call of the handler as its only step; no status is set in the store and
    no second save is issued. *)
Lemma throwing_afterSave_skips_second_save :
  let self :=
    saveRegistry None (Some (throwingHandler (JStr "boom"))) (Some importMig) in
  let stored := afterFirstSave newWidget "w9" in
  isNew newWidget = true
  /\ migrateObject (handlers self (KString "Widget")) = Some importMig
  /\ exists st',
       getAfterSave memParse self (KString "Widget") {| object := stored |}
         (start twoClassWorld) = Some (Failed (JStr "boom"), st')
       /\ trace st' = [EvCall AfterSave (ArgRequest {| object := stored |})]
       /\ savedRecords (trace st') = []
       /\ rows (world st') = rows twoClassWorld.
Proof.
  intros self stored.
  split; [reflexivity|]. split; [reflexivity|].
  eexists. split; [vm_compute; reflexivity|].
  split; [reflexivity|]. split; reflexivity.
Qed.

Lemma callbackStyle_usesCallbacks : usesCallbacks callbackStyle.
Proof.
  intros request response w.
  exists (success response (JParse (object request))), w, (fun v w' => (Fulfilled v, w')).
  split; [eexists; by left|]. by left.
Qed.

Lemma chainStyle_usesCallbacks : usesCallbacks chainStyle.
Proof.
  intros request response w.
  exists (error response (JStr "not allowed")), (tick w), (fun v w' => (Fulfilled v, w')).
  split; [eexists; by right|]. by right.
Qed.

Lemma lateStyle_answersLater : answersLater lateStyle lateAnswer.
Proof.
  split.
  - intros request response w. by eexists.
  - intros response. exists JUndefined. by left.
Qed.

(** C10, amended, on a class with a beforeSave handler only, which calls
    [response.success] while it runs, on a class with a beforeDelete
    handler only, which calls [response.error] in the chain of the promise
    it returns, and on a class with a beforeSave handler only, which answers
    later. *)
Lemma pseudo_response_rejects_callbacks_witness :
  (exists r st' evs,
     getBeforeSave (saveRegistry (Some callbackStyle) None None) (KString "Widget")
       legacyWrite hostSink (start twoClassWorld) = Some (r, st')
     /\ trace st'
        = trace (start twoClassWorld)
          ++ EvCall BeforeSave (ArgRequestResponse legacyWrite ThisIsNotAResponseObject)
          :: evs
     /\ calls BeforeSave evs = 0
     /\ exists msg,
          evs = [EvResponseError (JStr msg)]
          /\ (msg = "The migration tool expects you to return promises, not use callbacks"
              \/ msg = "The migration tool expecgts you to return promises, not use callbacks"))
  /\ (exists r st' evs,
        getBeforeDelete (deleteRegistry (Some chainStyle) None None) (KString "Widget")
          legacyWrite hostSink (start twoClassWorld) = Some (r, st')
        /\ trace st'
           = trace (start twoClassWorld)
             ++ EvCall BeforeDelete
                  (ArgRequestResponse legacyWrite ThisIsNotAResponseObject)
             :: evs
        /\ calls BeforeDelete evs = 0
        /\ exists msg,
             evs = [EvResponseError (JStr msg)]
             /\ (msg = "The migration tool expects you to return promises, not use callbacks"
                 \/ msg = "The migration tool expecgts you to return promises, not use callbacks"))
  /\ (exists r st',
        getBeforeSave (saveRegistry (Some lateStyle) None None) (KString "Widget")
          legacyWrite hostSink (start twoClassWorld) = Some (r, st')
        /\ trace st'
           = trace (start twoClassWorld)
             ++ [EvCall BeforeSave (ArgRequestResponse legacyWrite ThisIsNotAResponseObject);
                 EvResponseSuccess (JParse (object legacyWrite))]).
Proof.
  split; [|split].
  - destruct (pseudo_response_rejects_callbacks
                (saveRegistry (Some callbackStyle) None None) (KString "Widget")
                legacyWrite hostSink (start twoClassWorld)) as (HS & _).
    destruct (HS callbackStyle eq_refl eq_refl)
      as (r & st' & evs & Hrun & Htr & Hc & Hcb & _).
    exists r, st', evs. split; [exact Hrun|]. split; [exact Htr|]. split; [exact Hc|].
    exact (Hcb callbackStyle_usesCallbacks).
  - destruct (pseudo_response_rejects_callbacks
                (deleteRegistry (Some chainStyle) None None) (KString "Widget")
                legacyWrite hostSink (start twoClassWorld)) as (_ & HD).
    destruct (HD chainStyle eq_refl) as (r & st' & evs & Hrun & Htr & Hc & Hcb & _).
    exists r, st', evs. split; [exact Hrun|]. split; [exact Htr|]. split; [exact Hc|].
    exact (Hcb chainStyle_usesCallbacks).
  - destruct (pseudo_response_rejects_callbacks
                (saveRegistry (Some lateStyle) None None) (KString "Widget")
                legacyWrite hostSink (start twoClassWorld)) as (HS & _).
    destruct (HS lateStyle eq_refl eq_refl)
      as (r & st' & evs & Hrun & Htr & _ & _ & Hlate).
    exists r, st'. split; [exact Hrun|].
    rewrite Htr. f_equal. f_equal.
    exact (Hlate lateAnswer lateStyle_answersLater eq_refl).
Defined.

(** C10, as stated, fails for a handler in the callback style that
    answers later: the call of [response.success] it makes from the callback
    of its own work throws, but not into the chain of the composed callback,
    which has gone on and ends on its success path. *)
Lemma late_answer_is_not_rejected :
  answersLater lateStyle lateAnswer
  /\ (forall w,
        lateAnswer ThisIsNotAResponseObject w
        = (Failed (JStr "The migration tool expects you to return promises, not use callbacks"),
           w))
  /\ exists r st',
       getBeforeSave (saveRegistry (Some lateStyle) None None) (KString "Widget")
         legacyWrite hostSink (start twoClassWorld) = Some (r, st')
       /\ trace st'
          = [EvCall BeforeSave (ArgRequestResponse legacyWrite ThisIsNotAResponseObject);
             EvResponseSuccess (JParse legacyWidget)].
Proof.
  split; [|split].
  - exact lateStyle_answersLater.
  - done.
  - eexists _, _. split; vm_compute; reflexivity.
Qed.

(** C5 on a store of 2500 widgets. *)
Lemma import_job_2500_records_witness :
  length (selected "Widget" widgetWorld) = 2500
  /\ exists st1 st2,
       getImportJob memParse DEFAULT_BATCH_SIZE 3 widgetRegistry {| object := widget 0 |}
         hostSink (start widgetWorld)
       = Some (Fulfilled (Some 2500), st1)
       /\ rounds (trace st1) = [1000; 1000; 500]
       /\ calls MigrateObject (trace st1) = 2500
       /\ last (trace st1) = Some (EvStatusSuccess (JStr "Done with an import pass"))
       /\ selected "Widget" (world st1) = []
       /\ getImportJob memParse DEFAULT_BATCH_SIZE 3 widgetRegistry {| object := widget 0 |}
            hostSink (start (world st1))
          = Some (Fulfilled (Some 0), st2)
       /\ rounds (trace st2) = [0]
       /\ calls MigrateObject (trace st2) = 0
       /\ last (trace st2) = Some (EvStatusSuccess (JStr "Completed initial import!")).
Proof.
  assert (Hlen : length (selected "Widget" widgetWorld) = 2500)
    by (vm_compute; reflexivity).
  split; [exact Hlen|].
  apply (import_job_2500_records importMig widgetRegistry (migratingOnly importMig)
           widgetWorld {| object := widget 0 |} 3
           importMig_storeNeutral importMig_alwaysFulfils eq_refl eq_refl
           (wellKeyed_widgets 2500) eq_refl Hlen).
  lia.
Defined.


(** C9 on a registry where Widget has before handlers, for the migrate
    handler. *)
Lemma classString_keys_registry_witness :
  (forall m0 : Migrator World,
     handlers m0 (KString "Widget") = handlers m0 (KCtor "function Widget() {}" "Widget"))
  /\ (exists m',
        _registerFn MigrateObject (KString "Widget") importMig callbackRegistry
        = Fulfilled m'
        /\ handlers m' (KString "Widget")
           = handlers m' (KCtor "function Widget() {}" "Widget")
        /\ getTrigger (handlers m' (KCtor "function Widget() {}" "Widget")) MigrateObject
           = Some importMig
        /\ _registerFn MigrateObject (KCtor "function Widget() {}" "Widget") slowMig m'
           = Failed (alreadyRegistered MigrateObject (KCtor "function Widget() {}" "Widget"))
        /\ _registerFn MigrateObject (KString "Widget") slowMig m'
           = Failed (alreadyRegistered MigrateObject (KString "Widget")))
  /\ (exists m',
        _registerFn MigrateObject (KCtor "function Widget() {}" "Widget") importMig
          callbackRegistry = Fulfilled m'
        /\ handlers m' (KCtor "function Widget() {}" "Widget")
           = handlers m' (KString "Widget")
        /\ getTrigger (handlers m' (KString "Widget")) MigrateObject = Some importMig
        /\ _registerFn MigrateObject (KString "Widget") slowMig m'
           = Failed (alreadyRegistered MigrateObject (KString "Widget"))
        /\ _registerFn MigrateObject (KCtor "function Widget() {}" "Widget") slowMig m'
           = Failed (alreadyRegistered MigrateObject (KCtor "function Widget() {}" "Widget"))).
Proof.
  exact (classString_keys_registry callbackRegistry MigrateObject "Widget"
           "function Widget() {}" importMig slowMig eq_refl).
Defined.

End SampleFacts.

(** * Further properties of the code *)

(** ** The registry: registration, lookup and the order of the classes *)

Section RegistryMore.

Context {W : Type}.
Implicit Types (m self : Migrator W) (t : TriggerType) (cb : Callback W).
Implicit Types (triggers : list (string * Handlers W)) (obj : Handlers W).

Lemma map_fst_assignKey key obj triggers :
  map fst (assignKey key obj triggers)
  = if bool_decide (key ∈ map fst triggers) then map fst triggers
    else map fst triggers ++ [key].
Proof.
  induction triggers as [|[k h] rest IH]; [done|].
  cbn [assignKey map fst].
  destruct (decide (k = key)) as [->|Hne].
  - rewrite bool_decide_true by done. cbn [map fst].
    rewrite (bool_decide_true (key ∈ key :: map fst rest)); [done|]. by left.
  - rewrite bool_decide_false by done. cbn [map fst]. rewrite IH.
    destruct (decide (key ∈ map fst rest)) as [Hin|Hnin].
    + rewrite (bool_decide_true (key ∈ map fst rest)) by done.
      rewrite (bool_decide_true (key ∈ k :: map fst rest)); [done|]. by right.
    + rewrite (bool_decide_false (key ∈ map fst rest)) by done.
      rewrite (bool_decide_false (key ∈ k :: map fst rest)); [done|].
      intros Hin. apply elem_of_cons in Hin as [->|Hin]; done.
Qed.

(** What one registration does to the registry: its own pair, the other
    pairs, and the order of the classes. *)
Lemma registerFn_own m m' t klass cb :
  _registerFn t klass cb m = Fulfilled m' ->
  getTrigger (handlers m' klass) t = Some cb.
Proof.
  unfold _registerFn.
  destruct (def (getTrigger _ t)) eqn:E; [done|]. intros [= <-].
  unfold handlers. simpl. rewrite lookupKey_assignKey_eq. simpl.
  apply getTrigger_setTrigger_eq.
Qed.

Lemma registerFn_frame m m' t klass cb klass' t' :
  _registerFn t klass cb m = Fulfilled m' ->
  classString klass' <> classString klass \/ t' <> t ->
  getTrigger (handlers m' klass') t' = getTrigger (handlers m klass') t'.
Proof.
  unfold _registerFn.
  destruct (def (getTrigger _ t)) eqn:E; [done|]. intros [= <-] Hother.
  unfold handlers. simpl.
  destruct (decide (classString klass = classString klass')) as [Heq|Hne].
  - rewrite <- Heq, lookupKey_assignKey_eq. simpl.
    apply getTrigger_setTrigger_ne. destruct Hother as [Hk|Ht]; [congruence|done].
  - by rewrite lookupKey_assignKey_ne.
Qed.

Lemma registerFn_keys m m' t klass cb :
  _registerFn t klass cb m = Fulfilled m' ->
  map fst (_triggers m')
  = if bool_decide (classString klass ∈ map fst (_triggers m))
    then map fst (_triggers m)
    else map fst (_triggers m) ++ [classString klass].
Proof.
  unfold _registerFn.
  destruct (def (getTrigger _ t)) eqn:E; [done|]. intros [= <-]. simpl.
  apply map_fst_assignKey.
Qed.

Lemma registerFn_fulfilled_fresh t klass cb m m' :
  _registerFn t klass cb m = Fulfilled m' ->
  registered (classString klass) t m = false.
Proof.
  unfold _registerFn, registered. by destruct (def _).
Qed.

(** What a registration leaves registered: what was, and its own pair. *)
Lemma registerFn_registered_inv t klass cb m m' key t' :
  _registerFn t klass cb m = Fulfilled m' ->
  registered key t' m' = true ->
  registered key t' m = true \/ (key = classString klass /\ t' = t).
Proof.
  intros Hreg Hafter.
  destruct (decide (key = classString klass /\ t' = t)) as [?|Hne]; [by right|].
  left.
  pose proof (registerFn_frame m m' t klass cb (KString key) t' Hreg) as Hframe.
  unfold registered in *.
  unfold handlers in Hframe. simpl in Hframe. rewrite <- Hframe; [done|].
  destruct (decide (key = classString klass)) as [->|?]; [|by left].
  right. intros ->. by apply Hne.
Qed.

Lemma registerAll_fulfilled (regs : list (Registration W)) m :
  (forall r, r ∈ regs -> registered (classString (r_klass r)) (r_type r) m = false) ->
  NoDup (map regKey regs) ->
  exists m', registerAll regs m = Fulfilled m'.
Proof.
  revert m. induction regs as [|r rest IH]; intros m Hfresh Hnd; simpl; [eauto|].
  apply NoDup_cons in Hnd as [Hr Hnd].
  destruct (registerFn_fresh (r_type r) (r_klass r) (r_callback r) m)
    as (m1 & Hreg & _ & _); [apply Hfresh; by left|].
  rewrite Hreg. apply IH; [|done].
  intros r' Hr'.
  destruct (registered (classString (r_klass r')) (r_type r') m1) eqn:E; [|done].
  apply (registerFn_registered_inv _ _ _ _ _ _ _ Hreg) in E as [E|[E1 E2]].
  - rewrite Hfresh in E; [done|by right].
  - exfalso. apply Hr. apply list_elem_of_In. apply List.in_map_iff.
    exists r'. split; [|by apply list_elem_of_In].
    unfold regKey. by rewrite E1, E2.
Qed.

Lemma registerAll_fulfilled_NoDup (regs : list (Registration W)) m m' :
  registerAll regs m = Fulfilled m' ->
  NoDup (map regKey regs)
  /\ forall r, r ∈ regs -> registered (classString (r_klass r)) (r_type r) m = false.
Proof.
  revert m. induction regs as [|r rest IH]; intros m; simpl.
  - intros _. split; [constructor|]. intros r Hr. by apply elem_of_nil in Hr.
  - destruct (_registerFn (r_type r) (r_klass r) (r_callback r) m) as [m1|e] eqn:Hreg;
      [|done].
    intros Hrest. destruct (IH m1 Hrest) as [Hnd Hfresh].
    destruct (registerFn_cases (r_type r) (r_klass r) (r_callback r) m)
      as [Hfail|(m2 & Hok & Hown & Hmono)]; [congruence|].
    rewrite Hreg in Hok. injection Hok as <-.
    split.
    + apply NoDup_cons. split; [|done].
      intros Hin. apply list_elem_of_In in Hin.
      apply List.in_map_iff in Hin as (r' & E & Hr').
      apply list_elem_of_In in Hr'. specialize (Hfresh r' Hr').
      injection E as E1 E2. rewrite E1, E2 in Hfresh. congruence.
    + intros r' Hr'. apply elem_of_cons in Hr' as [->|Hr'].
      * by eapply registerFn_fulfilled_fresh.
      * specialize (Hfresh r' Hr').
        destruct (registered _ _ m) eqn:E; [|done].
        apply Hmono in E. congruence.
Qed.

(** X2. A setup script goes through exactly when no (class, kind) pair
    occurs twice in it, the class taken by its [classString]: the duplicate
    error is raised for repeated pairs and for nothing else. *)
Theorem registerAll_fulfilled_iff_distinct (regs : list (Registration W)) :
  NoDup (map regKey regs) <-> exists m, registerAll regs newMigrator = Fulfilled m.
Proof.
  split.
  - intros Hnd. apply registerAll_fulfilled; [|done].
    intros r _. unfold registered. simpl. by destruct (r_type r).
  - intros [m Hm]. by apply registerAll_fulfilled_NoDup in Hm as [Hnd _].
Qed.

(** Every handler of a script that went through is in the registry. *)
Lemma registerAll_lookup (regs : list (Registration W)) m (r : Registration W) :
  registerAll regs newMigrator = Fulfilled m ->
  r ∈ regs ->
  getTrigger (handlers m (r_klass r)) (r_type r) = Some (r_callback r).
Proof.
  generalize (@newMigrator W) as m0. intros m0 Hrun Hr.
  revert m0 Hrun. induction regs as [|r' rest IH]; intros m0 Hrun; simpl in *.
  - by apply elem_of_nil in Hr.
  - destruct (_registerFn (r_type r') (r_klass r') (r_callback r') m0) as [m1|e] eqn:Hreg;
      [|done].
    apply elem_of_cons in Hr as [->|Hr]; [|by eapply IH].
    pose proof (registerFn_own _ _ _ _ _ Hreg) as Hown.
    clear IH Hreg. revert m1 Hown Hrun.
    induction rest as [|r2 rest IH2]; intros m1 Hown Hrun; simpl in *.
    + by injection Hrun as <-.
    + destruct (_registerFn (r_type r2) (r_klass r2) (r_callback r2) m1) as [m2|e] eqn:Hreg2;
        [|done].
      apply (IH2 m2); [|done].
      rewrite (registerFn_frame _ _ _ _ _ _ _ Hreg2); [done|].
      destruct (decide (classString (r_klass r') = classString (r_klass r2))) as [Hk|?];
        [|by left].
      right. intros Ht.
      apply registerFn_fulfilled_fresh in Hreg2. unfold registered in Hreg2.
      unfold handlers in Hown. rewrite <- Hk, <- Ht, Hown in Hreg2. done.
Qed.

(** X1. A registration that goes through is found again under its class
    and kind, changes no other (class, kind) pair, and leaves the classes in
    the order in which [_.each] will visit them: a class that was known keeps
    its place, a new one goes last. *)
Theorem register_then_lookup m m' t klass cb :
  _registerFn t klass cb m = Fulfilled m' ->
  getTrigger (handlers m' klass) t = Some cb
  /\ (forall klass' t',
        classString klass' <> classString klass \/ t' <> t ->
        getTrigger (handlers m' klass') t' = getTrigger (handlers m klass') t')
  /\ map fst (_triggers m')
     = if bool_decide (classString klass ∈ map fst (_triggers m))
       then map fst (_triggers m)
       else map fst (_triggers m) ++ [classString klass].
Proof.
  intros Hreg. split; [|split].
  - by eapply registerFn_own.
  - intros klass' t' Hother. by eapply registerFn_frame.
  - by eapply registerFn_keys.
Qed.

(** Where a handler of the registry comes from: it was there before the
    script, or the script registered it. *)
Lemma registerAll_lookup_inv (regs : list (Registration W)) m0 m klass t cb :
  registerAll regs m0 = Fulfilled m ->
  getTrigger (handlers m klass) t = Some cb ->
  getTrigger (handlers m0 klass) t = Some cb
  \/ exists r, r ∈ regs /\ classString (r_klass r) = classString klass
                /\ r_type r = t /\ r_callback r = cb.
Proof.
  revert m0. induction regs as [|r' rest IH]; intros m0; simpl.
  - intros [= <-] Hcb. by left.
  - destruct (_registerFn (r_type r') (r_klass r') (r_callback r') m0) as [m1|e] eqn:Hreg;
      [|done].
    intros Hrun Hcb. destruct (IH m1 Hrun Hcb) as [Hm1|(r & Hr & Hrest)].
    + destruct (decide (classString klass = classString (r_klass r') /\ t = r_type r'))
        as [[Hk ->]|Hne].
      * right. exists r'. split; [by left|]. split; [done|]. split; [done|].
        pose proof (registerFn_own _ _ _ _ _ Hreg) as Hown.
        unfold handlers in *. rewrite Hk in Hm1. congruence.
      * left. rewrite <- Hm1. symmetry. eapply registerFn_frame; [done|].
        destruct (decide (classString klass = classString (r_klass r'))) as [Hk|?];
          [|by left].
        right. intros ->. by apply Hne.
    + right. exists r. split; [by right|done].
Qed.

(** X3. After a setup script that went through, the registry holds
    exactly the handlers of the script: [handlers] returns a handler for a
    class and a kind if and only if the script registered that handler for
    that kind and a class of the same [classString].  No registration
    overwrites or drops another, and nothing else is registered. *)
Theorem registry_holds_exactly_the_script
    (regs : list (Registration W)) m klass t (cb : Callback W) :
  registerAll regs newMigrator = Fulfilled m ->
  getTrigger (handlers m klass) t = Some cb
  <-> exists r, r ∈ regs /\ classString (r_klass r) = classString klass
                /\ r_type r = t /\ r_callback r = cb.
Proof.
  intros Hrun. split.
  - intros Hcb.
    destruct (registerAll_lookup_inv regs newMigrator m klass t cb Hrun Hcb) as [Hnew|?];
      [|done].
    unfold handlers in Hnew. simpl in Hnew. by destruct t.
  - intros (r & Hr & Hk & <- & <-).
    pose proof (registerAll_lookup regs m r Hrun Hr) as Hlook.
    unfold handlers in *. by rewrite <- Hk.
Qed.

End RegistryMore.

(** ** exportTriggers: which callbacks are installed *)

#[local] Set Warnings "-clear-no-such-hyp".

Section ExportMore.

Context {W : Type} (parse : ParseSDK W) (BATCH_SIZE : nat).
Implicit Types (m self : Migrator W) (triggers : list (string * Handlers W)).

Lemma def_is_Some {A} (x : option A) : def x = true <-> is_Some x.
Proof. destruct x; simpl; split; intros H; done. Qed.

Lemma registerAll_keys_NoDup (regs : list (Registration W)) m m' :
  registerAll regs m = Fulfilled m' ->
  NoDup (map fst (_triggers m)) -> NoDup (map fst (_triggers m')).
Proof.
  revert m. induction regs as [|r rest IH]; intros m; simpl.
  - by intros [= <-].
  - destruct (_registerFn (r_type r) (r_klass r) (r_callback r) m) as [m1|e] eqn:Hreg;
      [|done].
    intros Hrest Hnd. apply (IH m1 Hrest).
    rewrite (registerFn_keys _ _ _ _ _ Hreg).
    case_bool_decide as Hin; [done|].
    apply NoDup_app. split; [done|]. split; [|apply NoDup_singleton].
    intros x Hx Hx'. apply list_elem_of_singleton in Hx'. by subst.
Qed.

Lemma lookupKey_elem triggers k (h : Handlers W) :
  NoDup (map fst triggers) -> (k, h) ∈ triggers -> lookupKey k triggers = Some h.
Proof.
  induction triggers as [|[k' h'] rest IH]; simpl; intros Hnd Hin.
  - by apply elem_of_nil in Hin.
  - apply NoDup_cons in Hnd as [Hk Hnd].
    apply elem_of_cons in Hin as [[= -> ->]|Hin].
    + by rewrite bool_decide_true.
    + rewrite bool_decide_false; [by apply IH|].
      intros ->. apply Hk. apply list_elem_of_In.
      apply (List.in_map fst _ (k, h)). by apply list_elem_of_In.
Qed.

Lemma lookupKey_None triggers k :
  k ∉ map fst triggers -> lookupKey k triggers = @None (Handlers W).
Proof.
  induction triggers as [|[k' h'] rest IH]; simpl; intros Hnin; [done|].
  rewrite bool_decide_false.
  - apply IH. intros Hin. apply Hnin. by right.
  - intros ->. apply Hnin. by left.
Qed.

Lemma hooks_exportClass m k (h : Handlers W) :
  map hookOf (exportClass parse m (k, h)) = classHooks k h.
Proof.
  unfold exportClass, classHooks. rewrite !map_app.
  by destruct (def (beforeSave h) || def (migrateObject h)),
              (def (afterSave h) || def (migrateObject h)),
              (def (beforeDelete h) || def (migrateDelete h)),
              (def (afterDelete h)).
Qed.

Lemma hooks_exportTriggers m :
  map hookOf (exportTriggers parse BATCH_SIZE m [])
  = flat_map (fun kh => classHooks (fst kh) (snd kh)) (_triggers m) ++ [("job", "import")].
Proof.
  unfold exportTriggers. simpl. rewrite map_app. simpl. f_equal.
  induction (_triggers m) as [|[k h] rest IH]; [done|].
  cbn [flat_map fst snd]. by rewrite map_app, hooks_exportClass, IH.
Qed.

Lemma elem_of_classHooks_iff kind klass k (h : Handlers W) :
  (kind, klass) ∈ classHooks k h <->
  klass = k
  /\ ((kind = "beforeSave" /\ def (beforeSave h) || def (migrateObject h) = true)
      \/ (kind = "afterSave" /\ def (afterSave h) || def (migrateObject h) = true)
      \/ (kind = "beforeDelete" /\ def (beforeDelete h) || def (migrateDelete h) = true)
      \/ (kind = "afterDelete" /\ def (afterDelete h) = true)).
Proof.
  unfold classHooks. rewrite !elem_of_app.
  destruct (def (beforeSave h) || def (migrateObject h)),
           (def (afterSave h) || def (migrateObject h)),
           (def (beforeDelete h) || def (migrateDelete h)),
           (def (afterDelete h));
    rewrite ?list_elem_of_singleton, ?elem_of_nil; naive_solver.
Qed.

Lemma elem_of_classHooks kind klass k (h : Handlers W) :
  (kind, klass) ∈ classHooks k h -> klass = k /\ kind <> "job".
Proof.
  rewrite elem_of_classHooks_iff. naive_solver.
Qed.

Lemma NoDup_classHooks k (h : Handlers W) : NoDup (classHooks k h).
Proof.
  unfold classHooks.
  destruct (def (beforeSave h) || def (migrateObject h)),
           (def (afterSave h) || def (migrateObject h)),
           (def (beforeDelete h) || def (migrateDelete h)),
           (def (afterDelete h)); simpl;
    repeat (apply NoDup_cons; split;
            [rewrite ?elem_of_cons, ?elem_of_nil; naive_solver|]);
    apply NoDup_nil_2.
Qed.

Lemma NoDup_flat_classHooks triggers :
  NoDup (map fst triggers) ->
  NoDup (flat_map (fun kh => classHooks (fst kh) (snd kh)) triggers).
Proof.
  induction triggers as [|[k h] rest IH]; simpl; intros Hnd; [constructor|].
  apply NoDup_cons in Hnd as [Hk Hnd].
  apply NoDup_app. split; [apply NoDup_classHooks|]. split; [|by apply IH].
  intros [kind klass] Hin Hin'.
  apply elem_of_classHooks in Hin as [-> _].
  apply list_elem_of_In in Hin'. apply List.in_flat_map in Hin' as ([k' h'] & Hkh & Hin').
  apply list_elem_of_In in Hin'. apply elem_of_classHooks in Hin' as [-> _].
  apply Hk. apply list_elem_of_In. simpl. by apply (List.in_map fst _ (k', h')).
Qed.

(** The hooks of a class, read off the handler set [handlers] returns. *)
Lemma elem_of_flat_classHooks m kind klass :
  NoDup (map fst (_triggers m)) ->
  (kind, klass) ∈ flat_map (fun kh => classHooks (fst kh) (snd kh)) (_triggers m)
  <-> (kind, klass) ∈ classHooks klass (handlers m (KString klass)).
Proof.
  intros Hnd. unfold handlers. simpl. split.
  - intros Hin. apply list_elem_of_In in Hin.
    apply List.in_flat_map in Hin as ([k h] & Hkh & Hin). simpl in Hin.
    apply list_elem_of_In in Hin.
    destruct (elem_of_classHooks _ _ _ _ Hin) as [-> _].
    rewrite (lookupKey_elem _ k h); [done|done|by apply list_elem_of_In].
  - intros Hin.
    destruct (lookupKey klass (_triggers m)) as [h|] eqn:Hlook.
    + apply list_elem_of_In. apply List.in_flat_map. exists (klass, h).
      split; [|by apply list_elem_of_In].
      clear Hin Hnd. induction (_triggers m) as [|[k' h'] rest IH]; simpl in *; [done|].
      case_bool_decide as Hk; [left; congruence|right; by apply IH].
    + simpl in Hin. unfold classHooks in Hin. simpl in Hin. by apply elem_of_nil in Hin.
Qed.

(** X4. What [exportTriggers] installs for a registry built by a setup
    script.  beforeSave is installed for a class exactly when it has a
    beforeSave or a migrateObject handler, afterSave when it has an afterSave
    or a migrateObject handler, beforeDelete when it has a beforeDelete or a
    migrateDelete handler, and afterDelete only when it has an afterDelete
    handler (a migrateDelete handler does not install it).  The job "import"
    is installed last, also for an empty registry, and no hook is installed
    twice. *)
Theorem exportTriggers_installs (regs : list (Registration W)) m (klass : string) :
  registerAll regs newMigrator = Fulfilled m ->
  let installed := map hookOf (exportTriggers parse BATCH_SIZE m []) in
  let h := handlers m (KString klass) in
  (("beforeSave", klass) ∈ installed
   <-> is_Some (beforeSave h) \/ is_Some (migrateObject h))
  /\ (("afterSave", klass) ∈ installed
      <-> is_Some (afterSave h) \/ is_Some (migrateObject h))
  /\ (("beforeDelete", klass) ∈ installed
      <-> is_Some (beforeDelete h) \/ is_Some (migrateDelete h))
  /\ (("afterDelete", klass) ∈ installed <-> is_Some (afterDelete h))
  /\ last installed = Some ("job", "import")
  /\ NoDup installed.
Proof.
  intros Hrun installed h.
  assert (Hnd : NoDup (map fst (_triggers m))).
  { eapply registerAll_keys_NoDup; [done|]. constructor. }
  assert (Hin : forall kind, kind <> "job" ->
            (kind, klass) ∈ installed <-> (kind, klass) ∈ classHooks klass h).
  { intros kind Hkind. unfold installed. rewrite hooks_exportTriggers, elem_of_app.
    rewrite (elem_of_flat_classHooks m kind klass Hnd), list_elem_of_singleton.
    split; [intros [?|[= ? ?]]; done|by left]. }
  assert (Hhook : forall kind, kind <> "job" ->
            (kind, klass) ∈ installed <->
            (kind = "beforeSave" /\ (is_Some (beforeSave h) \/ is_Some (migrateObject h)))
            \/ (kind = "afterSave" /\ (is_Some (afterSave h) \/ is_Some (migrateObject h)))
            \/ (kind = "beforeDelete"
                /\ (is_Some (beforeDelete h) \/ is_Some (migrateDelete h)))
            \/ (kind = "afterDelete" /\ is_Some (afterDelete h))).
  { intros kind Hkind. rewrite (Hin kind Hkind), elem_of_classHooks_iff.
    rewrite !orb_true_iff, !def_is_Some. naive_solver. }
  split; [rewrite Hhook by done; naive_solver|].
  split; [rewrite Hhook by done; naive_solver|].
  split; [rewrite Hhook by done; naive_solver|].
  split; [rewrite Hhook by done; naive_solver|].
  split.
  - unfold installed. rewrite hooks_exportTriggers. apply last_snoc.
  - unfold installed. rewrite hooks_exportTriggers.
    apply NoDup_app. split; [by apply NoDup_flat_classHooks|].
    split; [|apply NoDup_singleton].
    intros [kind k] Hx Hx'. apply list_elem_of_singleton in Hx'. injection Hx' as -> ->.
    apply list_elem_of_In in Hx. apply List.in_flat_map in Hx as ([k' h'] & _ & Hx).
    apply list_elem_of_In in Hx. by apply elem_of_classHooks in Hx as [_ Hx].
Qed.

End ExportMore.

(** ** The composed callbacks: order of the calls and the answer *)

Ltac run_chain :=
  repeat progress
    (unfold getBeforeSave, getAfterSave, getBeforeDelete, getAfterDelete,
       beforeSaveStage, migrateStage, maybeTouch,
       promise_all, then2, bind, settle, as_, ret, fail, liftRes, invoke, callNow,
       response_success, response_error, save, emit, liftW;
     simpl).

Section CallbackMore.

Context {W : Type} (parse : ParseSDK W).
Implicit Types (self : Migrator W) (klass : Klass) (request : Request).
Implicit Types (response : Sink W) (st : State W) (obj : ParseObject).

Lemma response_success_run response (v : JsVal) st :
  exists r st',
    response_success response v st = Some (r, st')
    /\ trace st' = trace st ++ [EvResponseSuccess v].
Proof.
  run_chain. destruct (success response v (world st)) as [r w']. by eexists _, _.
Qed.

Lemma response_error_run response (e : JsVal) st :
  exists r st',
    response_error response e st = Some (r, st')
    /\ trace st' = trace st ++ [EvResponseError e].
Proof.
  run_chain. destruct (error response e (world st)) as [r w']. by eexists _, _.
Qed.

(** The second stage: at most one call, of the migrate handler, on the
    record it returns. *)
Lemma migrateStage_run (migrate : option (Callback W)) request (maybeNew : JsVal) st :
  exists res st',
    migrateStage migrate request maybeNew st = Some (res, st')
    /\ (trace st' = trace st
        \/ exists o, trace st' = trace st ++ [EvCall MigrateObject (ArgObject o)]
                     /\ match res with Fulfilled o' => o' = o | Failed _ => True end).
Proof.
  unfold migrateStage, bind, liftRes.
  destruct (workingRecord maybeNew request) as [obj|e]; [|eexists _, _; eauto].
  destruct (looseEq _ _ || negb _); [eexists _, _; eauto|].
  destruct (isNew obj); [eexists _, _; eauto|].
  destruct migrate as [f|]; run_chain; [|eexists _, _; eauto].
  match goal with |- context [settled f (ArgObject ?o) _] => set (obj' := o) end.
  destruct (f (ArgObject obj') (world st)) as [[v|e] w1]; simpl;
    eexists _, _; (split; [done|]); right; exists obj'; done.
Qed.

(** X5. The composed pre-write callback always settles and answers exactly
    once, as the last thing it does: with [response.success] of a Parse
    object or with [response.error].  Before the answer it calls at most the
    user's beforeSave handler (with the pseudo-response) and then at most
    the migrate handler, in that order; a record it accepts after a
    migration is the record the migrate handler was given. *)
Theorem getBeforeSave_answers_once self klass request response st :
  exists r st' pre mid ans,
    getBeforeSave self klass request response st = Some (r, st')
    /\ trace st' = trace st ++ pre ++ mid ++ [ans]
    /\ (pre = []
        \/ pre = [EvCall BeforeSave (ArgRequestResponse request ThisIsNotAResponseObject)])
    /\ (mid = [] /\ ((exists o, ans = EvResponseSuccess (JParse o))
                     \/ exists e, ans = EvResponseError e)
        \/ exists o, mid = [EvCall MigrateObject (ArgObject o)]
                     /\ (ans = EvResponseSuccess (JParse o)
                         \/ exists e, ans = EvResponseError e)).
Proof.
  destruct (beforeSaveStage_run (beforeSave (handlers self klass)) request st)
    as (r1 & st1 & Hstage & Hpre).
  assert (exists pre,
             trace st1 = trace st ++ pre
             /\ (pre = []
                 \/ pre = [EvCall BeforeSave
                             (ArgRequestResponse request ThisIsNotAResponseObject)]))
    as (pre & Htr1 & Hshape).
  { destruct Hpre as [(H & _)|(_ & H)].
    - exists []. split; [by rewrite app_nil_r|by left].
    - eexists. split; [exact H|by right]. }
  unfold getBeforeSave, then2, bind. rewrite Hstage.
  destruct r1 as [maybeNew|e].
  - destruct (migrateStage_run (migrateObject (handlers self klass)) request maybeNew st1)
      as (res & st2 & Hrun2 & Hmid).
    rewrite Hrun2. destruct res as [o'|e].
    + destruct (response_success_run response (JParse o') st2) as (r & st' & Hrun & Htr).
      destruct Hmid as [Hsame|(o & Hcall & ->)].
      * exists r, st', pre, [], (EvResponseSuccess (JParse o')).
        split; [done|]. split; [by rewrite Htr, Hsame, Htr1, <- app_assoc|].
        split; [done|]. left. split; [done|]. left. by eexists.
      * exists r, st', pre, [EvCall MigrateObject (ArgObject o)],
          (EvResponseSuccess (JParse o)).
        split; [done|]. split; [by rewrite Htr, Hcall, Htr1, <- !app_assoc|].
        split; [done|]. right. eexists. split; [done|]. by left.
    + destruct (response_error_run response e st2) as (r & st' & Hrun & Htr).
      destruct Hmid as [Hsame|(o & Hcall & _)].
      * exists r, st', pre, [], (EvResponseError e).
        split; [done|]. split; [by rewrite Htr, Hsame, Htr1, <- app_assoc|].
        split; [done|]. left. split; [done|]. right. by eexists.
      * exists r, st', pre, [EvCall MigrateObject (ArgObject o)], (EvResponseError e).
        split; [done|]. split; [by rewrite Htr, Hcall, Htr1, <- !app_assoc|].
        split; [done|]. right. eexists. split; [done|]. right. by eexists.
  - destruct (response_error_run response e st1) as (r & st' & Hrun & Htr).
    exists r, st', pre, [], (EvResponseError e).
    split; [done|]. split; [by rewrite Htr, Htr1, <- app_assoc|].
    split; [done|]. left. split; [done|]. right. by eexists.
Qed.

(** X6. A beforeSave handler that resolves to [null] makes the write
    fail: [isParseObject(null)] reads a property of [null], the exception
    rejects the chain, and the callback answers [response.error] with the
    TypeError although the handler itself was fulfilled.  The migrate
    handler is not called. *)
Theorem beforeSave_resolving_to_null_fails self klass request response st
    (h : Callback W) (w1 : W) :
  beforeSave (handlers self klass) = Some h ->
  onlyMigrationKey (dirtyKeys (object request)) = false ->
  h (ArgRequestResponse request ThisIsNotAResponseObject) (world st)
  = (Fulfilled JNull, w1) ->
  exists r st' msg,
    getBeforeSave self klass request response st = Some (r, st')
    /\ trace st' = trace st
         ++ [EvCall BeforeSave (ArgRequestResponse request ThisIsNotAResponseObject);
             EvResponseError (JTypeError msg)]
    /\ (r, world st') = error response (JTypeError msg) w1.
Proof.
  intros Hh Hreal Hnull. run_chain. rewrite Hh, Hreal. run_chain. rewrite Hnull.
  run_chain. destruct (error response _ w1) as [r w'] eqn:E.
  eexists _, _, _. split; [done|]. simpl. rewrite <- app_assoc. simpl.
  split; [done|]. by rewrite E.
Qed.

(** X7. A beforeSave handler whose promise is rejected refuses the write:
    the callback answers [response.error] with the handler's error and calls
    no migrate handler, also for a record that is due for migration. *)
Theorem beforeSave_failure_refuses_write self klass request response st
    (h : Callback W) (e : JsVal) (w1 : W) :
  beforeSave (handlers self klass) = Some h ->
  onlyMigrationKey (dirtyKeys (object request)) = false ->
  h (ArgRequestResponse request ThisIsNotAResponseObject) (world st) = (Failed e, w1) ->
  exists r st',
    getBeforeSave self klass request response st = Some (r, st')
    /\ trace st' = trace st
         ++ [EvCall BeforeSave (ArgRequestResponse request ThisIsNotAResponseObject);
             EvResponseError e]
    /\ (r, world st') = error response e w1.
Proof.
  intros Hh Hreal Hfail. run_chain. rewrite Hh, Hreal. run_chain. rewrite Hfail.
  run_chain. destruct (error response _ w1) as [r w'] eqn:E.
  eexists _, _. split; [done|]. simpl. rewrite <- app_assoc. simpl.
  split; done.
Qed.

Lemma workingRecord_cases (maybeNew : JsVal) request obj :
  workingRecord maybeNew request = Fulfilled obj ->
  obj = object request \/ maybeNew = JParse obj.
Proof.
  unfold workingRecord. destruct maybeNew; simpl; intros [= <-]; eauto.
Qed.

Lemma migrateStage_result (migrate : option (Callback W)) request (maybeNew : JsVal)
    st o st' :
  migrateStage migrate request maybeNew st = Some (Fulfilled o, st') ->
  exists obj,
    workingRecord maybeNew request = Fulfilled obj
    /\ (o = obj
        \/ o = set_ obj MIGRATION_KEY IS_MIGRATED
        \/ o = set_ obj MIGRATION_KEY FINISHED_SECOND_PASS).
Proof.
  unfold migrateStage, bind, liftRes.
  destruct (workingRecord maybeNew request) as [obj|e]; [|done].
  intros Hrun. exists obj. split; [done|]. revert Hrun.
  destruct (looseEq _ _ || negb _); [intros [= <- _]; eauto|].
  destruct (isNew obj); [intros [= <- _]; eauto|].
  destruct migrate as [f|]; run_chain.
  - destruct (f _ (world st)) as [[v|e] w1]; simpl; [|done].
    destruct (looseEq _ NEEDS_SECOND_PASS); intros [= <- _]; eauto.
  - destruct (looseEq _ NEEDS_SECOND_PASS); intros [= <- _]; eauto.
Qed.

Lemma beforeSaveStage_value (h : option (Callback W)) request st (v : JsVal) st1 :
  beforeSaveStage h request st = Some (Fulfilled v, st1) ->
  v = JUndefined
  \/ exists f, h = Some f
       /\ fst (f (ArgRequestResponse request ThisIsNotAResponseObject) (world st))
          = Fulfilled v.
Proof.
  unfold beforeSaveStage. run_chain.
  destruct h as [f|]; simpl; [|intros [= <- _]; by left].
  destruct (onlyMigrationKey _); simpl; [intros [= <- _]; by left|].
  destruct (f _ (world st)) as [r w1] eqn:E. intros [= -> _].
  right. exists f. by rewrite E.
Qed.

(** X8. The record a pre-write callback accepts is the record of the
    request, or the Parse object the user's beforeSave handler resolved to,
    changed in nothing but [migrationStatus]: class, id and every other
    field are as they were, and the status, if it was set, is [IS_MIGRATED]
    or [FINISHED_SECOND_PASS]. *)
Theorem accepted_record_differs_in_status_only
    self klass request response st (r : Res JsVal) st' (o : ParseObject) :
  getBeforeSave self klass request response st = Some (r, st') ->
  last (trace st') = Some (EvResponseSuccess (JParse o)) ->
  exists obj,
    (obj = object request
     \/ exists h,
          beforeSave (handlers self klass) = Some h
          /\ fst (h (ArgRequestResponse request ThisIsNotAResponseObject) (world st))
             = Fulfilled (JParse obj))
    /\ className o = className obj
    /\ objectId o = objectId obj
    /\ existed o = existed obj
    /\ (forall key, key <> MIGRATION_KEY -> get o key = get obj key)
    /\ (o = obj
        \/ get o MIGRATION_KEY = Some IS_MIGRATED
        \/ get o MIGRATION_KEY = Some FINISHED_SECOND_PASS).
Proof.
  unfold getBeforeSave, then2, bind.
  destruct (beforeSaveStage _ request st) as [[[maybeNew|e] st1]|] eqn:Hstage; [| |done].
  - destruct (migrateStage _ request maybeNew st1) as [[[o'|e] st2]|] eqn:Hmig; [| |done].
    + intros Hrun Hlast.
      destruct (response_success_run response (JParse o') st2) as (r0 & st0 & Hrun0 & Htr).
      rewrite Hrun in Hrun0. injection Hrun0 as <- <-.
      rewrite Htr, last_snoc in Hlast. injection Hlast as <-.
      destruct (migrateStage_result _ _ _ _ _ _ Hmig) as (obj & Hobj & Ho).
      exists obj. split.
      { destruct (workingRecord_cases _ _ _ Hobj) as [?| ->]; [by left|].
        destruct (beforeSaveStage_value _ _ _ _ _ Hstage) as [?|(f & Hf & Hval)];
          [done|]. right. eauto. }
      destruct Ho as [->|[->| ->]].
      * repeat (split; [done|]). by left.
      * repeat (split; [done|]). split.
        { intros key Hkey. unfold get, set_. simpl. by rewrite lookup_insert_ne. }
        right. left. unfold get, set_. simpl. apply lookup_insert_eq.
      * repeat (split; [done|]). split.
        { intros key Hkey. unfold get, set_. simpl. by rewrite lookup_insert_ne. }
        right. right. unfold get, set_. simpl. apply lookup_insert_eq.
    + intros Hrun Hlast.
      destruct (response_error_run response e st2) as (r0 & st0 & Hrun0 & Htr).
      rewrite Hrun in Hrun0. injection Hrun0 as <- <-.
      by rewrite Htr, last_snoc in Hlast.
  - intros Hrun Hlast.
    destruct (response_error_run response e st1) as (r0 & st0 & Hrun0 & Htr).
    rewrite Hrun in Hrun0. injection Hrun0 as <- <-.
    by rewrite Htr, last_snoc in Hlast.
Qed.

(** X9. The post-write callback always ends.  It calls the user's
    afterSave handler once if there is one, calls no other handler and
    makes no query.  If the handler throws when it is called, the callback
    ends by that exception and saves nothing.  Otherwise it issues a save,
    of the record with [NEEDS_SECOND_PASS], exactly when the record did not
    exist before this save and the class has a migrate handler; the save
    does not wait for the promise the handler returned and is issued also
    when that promise is rejected, and the callback then fails with the
    error of the promise. *)
Theorem getAfterSave_touches_new_records_only self klass request st :
  exists r st',
    getAfterSave parse self klass request st = Some (r, st')
    /\ savedRecords (trace st')
       = savedRecords (trace st)
         ++ match thrownBy (afterSave (handlers self klass)) (ArgRequest request)
                    (world st) with
            | Some _ => []
            | None =>
                if existed (object request)
                   || negb (def (migrateObject (handlers self klass)))
                then []
                else [set_ (object request) MIGRATION_KEY NEEDS_SECOND_PASS]
            end
    /\ calls AfterSave (trace st')
       = calls AfterSave (trace st)
         + (if def (afterSave (handlers self klass)) then 1 else 0)
    /\ (forall t, t <> AfterSave -> calls t (trace st') = calls t (trace st))
    /\ finds (trace st') = finds (trace st)
    /\ (forall e,
          thrownBy (afterSave (handlers self klass)) (ArgRequest request) (world st)
          = Some e ->
          r = Failed e)
    /\ (forall (h : Callback W) e w1,
          afterSave (handlers self klass) = Some h ->
          behaviour h (ArgRequest request) (world st) = (Returns (Failed e), w1) ->
          r = Failed e).
Proof.
  set (obj := object request). unfold thrownBy. run_chain. fold obj.
  destruct (afterSave (handlers self klass)) as [f|]; simpl.
  - destruct (behaviour f (ArgRequest request) (world st)) as [[r1|e0] w1] eqn:Ef; simpl.
    + destruct (existed obj || negb (def (migrateObject (handlers self klass)))); simpl.
      * destruct r1 as [v|e]; simpl; eexists _, _; (split; [done|]); simpl;
          rewrite savedRecords_app, calls_app, finds_app; simpl;
          (split; [done|]); (split; [unfold calls; simpl; lia|]);
          (split; [intros t Ht; rewrite calls_app; unfold calls; simpl;
                   rewrite bool_decide_false by done; simpl; lia|]);
          (split; [unfold finds; simpl; lia|]);
          (split; [done|]);
          intros h e' w' [= <-] Hfail; congruence.
      * destruct (object_save parse _ w1) as [r2 w2]; simpl.
        destruct r1 as [v|e], r2 as [v2|e2]; simpl; eexists _, _; (split; [done|]);
          simpl; rewrite !savedRecords_app, !calls_app, !finds_app; simpl;
          rewrite ?app_nil_r;
          (split; [done|]); (split; [unfold calls; simpl; lia|]);
          (split; [intros t Ht; rewrite !calls_app; unfold calls; simpl;
                   rewrite bool_decide_false by done; simpl; lia|]);
          (split; [unfold finds; simpl; lia|]);
          (split; [done|]);
          intros h e' w' [= <-] Hfail; congruence.
    + eexists _, _. split; [done|]. simpl.
      rewrite savedRecords_app, calls_app, finds_app. simpl.
      split; [done|]. split; [unfold calls; simpl; lia|].
      split; [intros t Ht; rewrite calls_app; unfold calls; simpl;
              rewrite bool_decide_false by done; simpl; lia|].
      split; [unfold finds; simpl; lia|].
      split; [by intros e [= <-]|].
      intros h e' w' [= <-] Hfail. congruence.
  - destruct (existed obj || negb (def (migrateObject (handlers self klass)))); simpl.
    + eexists _, _. split; [done|]. rewrite app_nil_r.
      split; [done|]. split; [lia|]. done.
    + destruct (object_save parse _ (world st)) as [r2 w2]; simpl.
      eexists _, _. split; [done|]. simpl.
      rewrite savedRecords_app, calls_app, finds_app. simpl.
      split; [done|]. split; [unfold calls; simpl; lia|].
      split; [intros t Ht; rewrite calls_app; unfold calls; simpl; lia|].
      split; [unfold finds; simpl; lia|]. done.
Qed.

(** X10. The save the import job issues goes through the hooks of its
    class without a second migration and without a further save: for a
    fetched record with no pending change, saved with [IS_MIGRATED], the
    pre-write callback skips the user's beforeSave handler and the migrate
    handler and accepts the record as it is, and the post-write callback
    issues no save. *)
Theorem import_save_passes_the_hooks self klass obj response st :
  dirtyKeys obj = [] ->
  existed obj = true ->
  let saved := set_ obj MIGRATION_KEY IS_MIGRATED in
  (exists r st',
     getBeforeSave self klass {| object := saved |} response st = Some (r, st')
     /\ trace st' = trace st ++ [EvResponseSuccess (JParse saved)])
  /\ (exists r st',
        getAfterSave parse self klass {| object := saved |} st = Some (r, st')
        /\ savedRecords (trace st') = savedRecords (trace st)
        /\ calls MigrateObject (trace st') = calls MigrateObject (trace st)).
Proof.
  intros Hclean Hexisted saved. split.
  - assert (Hdirty : dirtyKeys (object {| object := saved |}) = [MIGRATION_KEY]).
    { simpl. unfold dirtyKeys in *. simpl. by rewrite Hclean. }
    pose proof (beforeSaveStage_bookkeeping
                  (beforeSave (handlers self klass)) _ st Hdirty) as Hstage.
    destruct (getBeforeSave_unchanged self klass {| object := saved |} response st
                JUndefined st saved Hstage eq_refl) as (r & st' & Hrun & Htr & _).
    { unfold saved, get, set_. simpl. by rewrite lookup_insert_eq. }
    eauto.
  - unfold getAfterSave, maybeTouch.
    change (existed (object {| object := saved |})) with (existed obj).
    rewrite Hexisted. simpl.
    destruct (afterSave (handlers self klass)) as [f|]; run_chain.
    + destruct (behaviour f _ (world st)) as [[[v|e]|e] w1]; simpl; eexists _, _;
        (split; [done|]);
        simpl; rewrite savedRecords_app, calls_app; simpl; rewrite app_nil_r;
        (split; [done|]); unfold calls; simpl; lia.
    + by eexists _, _.
Qed.

(** X11. The composed pre-delete callback always settles and answers
    exactly once, as the last thing it does: [response.success()] or
    [response.error].  Before that it calls at most the user's beforeDelete
    handler (with the pseudo-response) and then at most the migrateDelete
    handler, which is given the record of the request. *)
Theorem getBeforeDelete_answers_once self klass request response st :
  exists r st' pre mid ans,
    getBeforeDelete self klass request response st = Some (r, st')
    /\ trace st' = trace st ++ pre ++ mid ++ [ans]
    /\ (pre = []
        \/ pre = [EvCall BeforeDelete
                    (ArgRequestResponse request ThisIsNotAResponseObject)])
    /\ (mid = [] \/ mid = [EvCall MigrateDelete (ArgObject (object request))])
    /\ (ans = EvResponseSuccess JUndefined \/ exists e, ans = EvResponseError e).
Proof.
  run_chain.
  destruct (beforeDelete (handlers self klass)) as [hB|],
           (migrateDelete (handlers self klass)) as [hM|]; simpl.
  - destruct (hB _ (world st)) as [[v|e] w1]; simpl.
    + destruct (hM _ w1) as [[v2|e2] w2]; simpl.
      * destruct (success response _ w2) as [r w']. eexists r, _, [_], [_], _.
        split; [done|]. simpl. rewrite <- !app_assoc. simpl.
        split; [done|]. split; [by right|]. split; [by right|]. by left.
      * destruct (error response _ w2) as [r w']. eexists r, _, [_], [_], _.
        split; [done|]. simpl. rewrite <- !app_assoc. simpl.
        split; [done|]. split; [by right|]. split; [by right|]. right. by eexists.
    + destruct (error response _ w1) as [r w']. eexists r, _, [_], [], _.
      split; [done|]. simpl. rewrite <- !app_assoc. simpl.
      split; [done|]. split; [by right|]. split; [by left|]. right. by eexists.
  - destruct (hB _ (world st)) as [[v|e] w1]; simpl.
    + destruct (success response _ w1) as [r w']. eexists r, _, [_], [], _.
      split; [done|]. simpl. rewrite <- !app_assoc. simpl.
      split; [done|]. split; [by right|]. split; [by left|]. by left.
    + destruct (error response _ w1) as [r w']. eexists r, _, [_], [], _.
      split; [done|]. simpl. rewrite <- !app_assoc. simpl.
      split; [done|]. split; [by right|]. split; [by left|]. right. by eexists.
  - destruct (hM _ (world st)) as [[v2|e2] w2]; simpl.
    + destruct (success response _ w2) as [r w']. eexists r, _, [], [_], _.
      split; [done|]. simpl. rewrite <- !app_assoc. simpl.
      split; [done|]. split; [by left|]. split; [by right|]. by left.
    + destruct (error response _ w2) as [r w']. eexists r, _, [], [_], _.
      split; [done|]. simpl. rewrite <- !app_assoc. simpl.
      split; [done|]. split; [by left|]. split; [by right|]. right. by eexists.
  - destruct (success response _ (world st)) as [r w']. eexists r, _, [], [], _.
    split; [done|]. simpl.
    split; [done|]. split; [by left|]. split; [by left|]. by left.
Qed.

(** X12. With both delete handlers registered, the outcome of the user's
    beforeDelete handler decides whether the migrateDelete handler runs: a
    rejected beforeDelete refuses the delete with its error and the
    migrateDelete handler is not called; a fulfilled one is followed by
    migrateDelete on the record of the request, whatever value it resolved
    to (a replacement object is not used), and the delete is accepted only
    if migrateDelete is fulfilled too. *)
Theorem beforeDelete_outcome_decides self klass request response st
    (hB hM : Callback W) :
  beforeDelete (handlers self klass) = Some hB ->
  migrateDelete (handlers self klass) = Some hM ->
  exists r st',
    getBeforeDelete self klass request response st = Some (r, st')
    /\ trace st'
       = trace st
         ++ EvCall BeforeDelete (ArgRequestResponse request ThisIsNotAResponseObject)
         :: match hB (ArgRequestResponse request ThisIsNotAResponseObject) (world st) with
            | (Failed e, _) => [EvResponseError e]
            | (Fulfilled _, w1) =>
                EvCall MigrateDelete (ArgObject (object request))
                :: match hM (ArgObject (object request)) w1 with
                   | (Fulfilled _, _) => [EvResponseSuccess JUndefined]
                   | (Failed e, _) => [EvResponseError e]
                   end
            end.
Proof.
  intros HB HM. run_chain. rewrite HB, HM. simpl.
  destruct (hB _ (world st)) as [[v|e] w1]; simpl.
  - destruct (hM _ w1) as [[v2|e2] w2]; simpl.
    + destruct (success response _ w2) as [r w']. eexists _, _.
      split; [done|]. simpl. by rewrite <- !app_assoc.
    + destruct (error response _ w2) as [r w']. eexists _, _.
      split; [done|]. simpl. by rewrite <- !app_assoc.
  - destruct (error response _ w1) as [r w']. eexists _, _.
    split; [done|]. simpl. by rewrite <- !app_assoc.
Qed.

(** X13. The afterDelete handler of a setup script that went through is
    called with [undefined]: the composed post-delete callback hands it the
    value of [Promise.as()], not the request, so the handler never sees the
    deleted record.  The callback settles as the handler does. *)
Theorem afterDelete_handler_gets_undefined
    (regs : list (Registration W)) (m : Migrator W) (reg : Registration W) request st :
  registerAll regs newMigrator = Fulfilled m ->
  reg ∈ regs ->
  r_type reg = AfterDelete ->
  getAfterDelete m (r_klass reg) request st
  = Some (fst (r_callback reg (ArgValue JUndefined) (world st)),
          {| trace := trace st ++ [EvCall AfterDelete (ArgValue JUndefined)];
             world := snd (r_callback reg (ArgValue JUndefined) (world st)) |}).
Proof.
  intros Hrun Hreg Htype.
  pose proof (registerAll_lookup regs m reg Hrun Hreg) as Hlook.
  rewrite Htype in Hlook. simpl in Hlook.
  run_chain. rewrite Hlook. simpl.
  by destruct (r_callback reg (ArgValue JUndefined) (world st)).
Qed.

End CallbackMore.

(** ** The import job over any SDK: what it calls, queries and saves *)

Section JobMore.

Context {W : Type} (parse : ParseSDK W) (BATCH_SIZE : nat).
Implicit Types (st : State W) (migration : Callback W) (Q : Event W -> Prop).
Implicit Types (triggers : list (string * Handlers W)).

Lemma emitsOnly_ret {A} Q (a : A) : emitsOnly Q (ret a : P W A).
Proof. intros st r st' [= <- <-]. exists []. by rewrite app_nil_r. Qed.

Lemma emitsOnly_fail {A} Q (e : JsVal) : emitsOnly Q (fail e : P W A).
Proof. intros st r st' [= <- <-]. exists []. by rewrite app_nil_r. Qed.

Lemma emitsOnly_liftRes {A} Q (res : Res A) : emitsOnly Q (liftRes res : P W A).
Proof. intros st r st' [= <- <-]. exists []. by rewrite app_nil_r. Qed.

Lemma emitsOnly_emit Q (ev : Event W) : Q ev -> emitsOnly Q (emit ev).
Proof. intros Hev st r st' [= <- <-]. exists [ev]. split; [done|]. by constructor. Qed.

Lemma emitsOnly_liftW {A} Q (f : W -> Res A * W) : emitsOnly Q (liftW f).
Proof.
  intros st r st'. unfold liftW. destruct (f (world st)) as [r0 w].
  intros [= <- <-]. exists []. by rewrite app_nil_r.
Qed.

Lemma emitsOnly_Date_now Q : emitsOnly Q (Date_now parse).
Proof. intros st r st' [= <- <-]. exists []. by rewrite app_nil_r. Qed.

Lemma emitsOnly_bind {A B} Q (m : P W A) (f : A -> P W B) :
  emitsOnly Q m -> (forall a, emitsOnly Q (f a)) -> emitsOnly Q (bind m f).
Proof.
  intros Hm Hf st r st'. unfold bind.
  destruct (m st) as [[[a|e] st1]|] eqn:E; [| |done].
  - intros Hrun. destruct (Hm _ _ _ E) as (evs1 & Htr1 & HQ1).
    destruct (Hf a _ _ _ Hrun) as (evs2 & Htr2 & HQ2).
    exists (evs1 ++ evs2). split; [by rewrite Htr2, Htr1, app_assoc|].
    by apply Forall_app.
  - intros [= <- <-]. by apply (Hm _ _ _ E).
Qed.

Lemma emitsOnly_settle {A} Q (m : P W A) : emitsOnly Q m -> emitsOnly Q (settle m).
Proof.
  intros Hm st r st'. unfold settle.
  destruct (m st) as [[r0 st1]|] eqn:E; [|done].
  intros [= <- <-]. by apply (Hm _ _ _ E).
Qed.

Lemma emitsOnly_settleAll {A} Q (ps : list (P W A)) :
  Forall (emitsOnly Q) ps -> emitsOnly Q (settleAll ps).
Proof.
  induction ps as [|p rest IH]; intros Hps; simpl; [apply emitsOnly_ret|].
  inversion Hps; subst.
  apply emitsOnly_bind; [by apply emitsOnly_settle|]. intros r.
  apply emitsOnly_bind; [by apply IH|]. intros rs. apply emitsOnly_ret.
Qed.

Lemma emitsOnly_promise_when {A} Q (ps : list (P W A)) :
  Forall (emitsOnly Q) ps -> emitsOnly Q (promise_when ps).
Proof.
  intros Hps. unfold promise_when.
  apply emitsOnly_bind; [by apply emitsOnly_settleAll|]. intros rs.
  destruct (collect rs) as [vs [|e errs]]; [apply emitsOnly_ret|apply emitsOnly_fail].
Qed.

(** The chain of one record: the migrate handler and a save of the record
    at [IS_MIGRATED]. *)
Lemma emitsOnly_migrateRecord klass migration (o : ParseObject) :
  emitsOnly (sweepEvent BATCH_SIZE klass) (migrateRecord parse migration o).
Proof.
  unfold migrateRecord, invoke, save, as_.
  repeat first
    [ apply emitsOnly_bind; [|intros ?]
    | apply emitsOnly_ret
    | apply emitsOnly_liftW
    | apply emitsOnly_emit; simpl; try done ].
  unfold get, set_. simpl. apply lookup_insert_eq.
Qed.

Lemma emitsOnly_migrateClass fuel klass migration (deadline : option Z) :
  emitsOnly (sweepEvent BATCH_SIZE klass)
    (_migrateClass parse BATCH_SIZE fuel klass migration deadline).
Proof.
  induction fuel as [|fuel IH]; simpl; [by intros st r st'|].
  apply emitsOnly_bind; [apply emitsOnly_Date_now|]. intros now.
  destruct (pastDeadline now deadline).
  { apply emitsOnly_bind; [apply emitsOnly_ret|]. intros _. apply emitsOnly_ret. }
  apply emitsOnly_bind.
  - apply emitsOnly_bind.
    + unfold find. apply emitsOnly_bind; [by apply emitsOnly_emit|].
      intros _. apply emitsOnly_liftW.
    + intros objects. apply emitsOnly_bind; [|intros _; apply emitsOnly_ret].
      apply emitsOnly_promise_when. apply List.Forall_forall. intros p Hp.
      apply List.in_map_iff in Hp as (o & <- & _). apply emitsOnly_migrateRecord.
  - intros migrated. destruct (Nat.eqb migrated BATCH_SIZE).
    + apply emitsOnly_bind; [exact IH|]. intros accum. apply emitsOnly_ret.
    + apply emitsOnly_bind; [apply emitsOnly_ret|]. intros _. apply emitsOnly_ret.
Qed.

Lemma emitsOnly_mono {A} Q Q' (m : P W A) :
  (forall ev, Q ev -> Q' ev) -> emitsOnly Q m -> emitsOnly Q' m.
Proof.
  intros Himp Hm st r st' Hrun. destruct (Hm _ _ _ Hrun) as (evs & Htr & HQ).
  exists evs. split; [done|]. eapply Forall_impl; eauto.
Qed.

Lemma migratingClasses_cons klass (h : Handlers W) triggers :
  migratingClasses ((klass, h) :: triggers)
  = if def (migrateObject h) then klass :: migratingClasses triggers
    else migratingClasses triggers.
Proof. unfold migratingClasses. simpl. by destruct (def (migrateObject h)). Qed.

Lemma emitsOnly_importChain fuel triggers all (lastMigration : P W (nat * nat)) :
  (forall klass, klass ∈ migratingClasses triggers -> klass ∈ migratingClasses all) ->
  emitsOnly (jobEvent BATCH_SIZE all) lastMigration ->
  emitsOnly (jobEvent BATCH_SIZE all)
    (importChain parse BATCH_SIZE fuel triggers lastMigration).
Proof.
  revert lastMigration.
  induction triggers as [|[klass h] rest IH]; intros lastMigration Hsub Hlast; simpl;
    [done|].
  rewrite migratingClasses_cons in Hsub.
  destruct (migrateObject h) as [migration|]; simpl in Hsub; [|by apply IH].
  apply IH; [intros k Hk; apply Hsub; by right|].
  apply emitsOnly_bind; [done|]. intros acc.
  apply emitsOnly_bind; [apply emitsOnly_ret|]. intros _.
  apply emitsOnly_bind; [|intros migrated; apply emitsOnly_ret].
  eapply emitsOnly_mono; [|apply emitsOnly_migrateClass].
  intros ev Hev. exists klass. split; [apply Hsub; by left|done].
Qed.

(** X14. What a run of the import job does, whatever the SDK and the
    handlers do: until it reports, it issues only the import query of
    classes that have a migrate handler, calls only migrate handlers, each
    on one record, and saves only records whose status it has set to
    [IS_MIGRATED]; it calls no before or after handler.  Then it reports
    once, [status.success] or [status.error], and does nothing after
    that. *)
Theorem import_job_trace fuel (self : Migrator W) request (status : Sink W)
    st (r : Res (option nat)) st' :
  getImportJob parse BATCH_SIZE fuel self request status st = Some (r, st') ->
  exists evs ans,
    trace st' = trace st ++ evs ++ [ans]
    /\ Forall (jobEvent BATCH_SIZE (_triggers self)) evs
    /\ ((exists msg, ans = EvStatusSuccess (JStr msg)) \/ exists e, ans = EvStatusError e).
Proof.
  unfold getImportJob, then2, bind at 1 2. simpl. unfold console_log, ret at 1. simpl.
  set (chain := bind (importChain parse BATCH_SIZE fuel (_triggers self) (as_ (0, 0))) _).
  assert (Hchain : emitsOnly (jobEvent BATCH_SIZE (_triggers self)) chain).
  { apply emitsOnly_bind; [|intros acc; apply emitsOnly_ret].
    apply emitsOnly_importChain; [done|apply emitsOnly_ret]. }
  destruct (chain st) as [[[total|e] st1]|] eqn:E; [| |done].
  - destruct (Hchain _ _ _ E) as (evs & Htr & HQ).
    unfold status_success, bind, emit, liftW, ret. simpl.
    destruct (success status _ (world st1)) as [[v|e] w']; simpl;
      intros [= <- <-]; exists evs; eexists; simpl; rewrite Htr, <- app_assoc;
      (split; [done|]); (split; [done|]); left; by eexists.
  - destruct (Hchain _ _ _ E) as (evs & Htr & HQ).
    unfold status_error, bind, emit, liftW, ret. simpl.
    destruct (error status _ (world st1)) as [[v|e'] w']; simpl;
      intros [= <- <-]; exists evs; eexists; simpl; rewrite Htr, <- app_assoc;
      (split; [done|]); (split; [done|]); right; by eexists.
Qed.

Lemma importChain_skip fuel triggers (lastMigration : P W (nat * nat)) :
  importChain parse BATCH_SIZE fuel triggers lastMigration
  = importChain parse BATCH_SIZE fuel
      (List.filter (fun kh => def (migrateObject (snd kh))) triggers) lastMigration.
Proof.
  revert lastMigration.
  induction triggers as [|[klass h] rest IH]; intros lastMigration; simpl; [done|].
  destruct (migrateObject h) as [migration|] eqn:E; simpl; [|apply IH].
  rewrite E. apply IH.
Qed.

(** X15. With no migrate handler registered, for any class, the import
    job issues no query, calls no handler and saves nothing, whatever is
    registered otherwise: it reports "Completed initial import!" at once,
    and resolves to 0 when the report is accepted. *)
Theorem import_job_without_migrations fuel (self : Migrator W) request (status : Sink W) st :
  migratingClasses (_triggers self) = [] ->
  exists r st',
    getImportJob parse BATCH_SIZE fuel self request status st = Some (r, st')
    /\ trace st' = trace st ++ [EvStatusSuccess (JStr "Completed initial import!")]
    /\ world st' = snd (success status (JStr "Completed initial import!") (world st))
    /\ (r = Fulfilled (Some 0) \/ exists e, r = Failed e).
Proof.
  intros Hnone. unfold getImportJob. rewrite importChain_skip.
  unfold migratingClasses in Hnone. apply map_eq_nil in Hnone. rewrite Hnone. simpl.
  repeat progress
    (unfold then2, bind, as_, ret, console_log, status_success, emit, liftW; simpl).
  destruct (success status _ (world st)) as [[v|e] w']; eexists _, _;
    (split; [done|]); simpl; (split; [done|]); (split; [done|]); eauto.
Qed.

(** X16. A query that fails ends the job: the sweep of the first class
    with a migrate handler issues its query, the error of the query goes to
    [status.error], no handler is called, nothing is saved, and the classes
    after it are not queried. *)
Theorem query_failure_ends_the_job fuel (self : Migrator W) request (status : Sink W) st
    klass (others : list string) (e : JsVal) (w1 : W) :
  migratingClasses (_triggers self) = klass :: others ->
  query_find parse (unmigratedQuery BATCH_SIZE klass) (world st) = (Failed e, w1) ->
  exists r st',
    getImportJob parse BATCH_SIZE (S fuel) self request status st = Some (r, st')
    /\ trace st' = trace st ++ [EvFind (unmigratedQuery BATCH_SIZE klass); EvStatusError e]
    /\ (r, world st') = match error status e w1 with
                        | (Fulfilled _, w') => (Fulfilled None, w')
                        | (Failed e', w') => (Failed e', w')
                        end.
Proof.
  intros Hclasses Hquery.
  unfold migratingClasses in Hclasses.
  destruct (List.filter _ (_triggers self)) as [|[k h] rest] eqn:Hfilter; [done|].
  injection Hclasses as -> _.
  assert (Hin : List.In (klass, h) (List.filter (fun kh => def (migrateObject (snd kh)))
                                       (_triggers self)))
    by (rewrite Hfilter; by left).
  apply List.filter_In in Hin as [_ Hdef]. simpl in Hdef.
  destruct (migrateObject h) as [migration|] eqn:Hmig; [|done].
  assert (Hchain :
    importChain parse BATCH_SIZE (S fuel) (_triggers self) (as_ (0, 0)) st
    = Some (Failed e, {| trace := trace st ++ [EvFind (unmigratedQuery BATCH_SIZE klass)];
                         world := w1 |})).
  { rewrite importChain_skip, Hfilter.
    cbn [importChain]. rewrite Hmig.
    apply importChain_failed.
    cbn [_migrateClass].
    repeat progress
      (unfold bind, as_, ret, console_log, Date_now, pastDeadline, find, emit, liftW;
       simpl).
    by rewrite Hquery. }
  unfold getImportJob.
  repeat progress (unfold then2, bind at 1 2, ret at 1, console_log; simpl).
  rewrite Hchain.
  unfold status_error, bind, emit, liftW, ret. simpl.
  destruct (error status e w1) as [[v|e'] w']; eexists _, _; (split; [done|]); simpl;
    rewrite <- app_assoc; done.
Qed.

End JobMore.

(** ** The sweep on the store in memory: rows and deadline *)

Section StoreMore.

Import MemStore StoreObservations.

Implicit Types (w : World) (st : State World) (o : ParseObject).
Implicit Types (rs saved objs : list ParseObject) (mig : Callback World).

Lemma markMigrated_map saved rs :
  markMigrated saved rs = map (fun x => fold_left stepRow saved x) rs.
Proof.
  revert rs. induction saved as [|o rest IH]; intros rs; simpl.
  - unfold markMigrated. simpl. by rewrite map_id.
  - change (markMigrated (o :: rest) rs)
      with (markMigrated rest (map (replaceRow (migratedRow o)) rs)).
    by rewrite IH, map_map.
Qed.

Lemma fold_stepRow_migrated saved rs x :
  NoDup (map objectId rs) -> x ∈ rs -> (forall o, o ∈ saved -> o ∈ rs) ->
  fold_left stepRow saved (migratedRow x) = migratedRow x.
Proof.
  intros Hnd Hx. induction saved as [|o rest IH]; intros Hsub; simpl; [done|].
  assert (Hstep : stepRow (migratedRow x) o = migratedRow x).
  { unfold stepRow, replaceRow.
    change (objectId (migratedRow x)) with (objectId x).
    change (objectId (migratedRow o)) with (objectId o).
    case_bool_decide as E; [|done].
    rewrite (NoDup_map_inj_on objectId rs x o); [done|done|done| |done].
    apply Hsub. by left. }
  rewrite Hstep. apply IH. intros o' Ho'. apply Hsub. by right.
Qed.

Lemma fold_stepRow saved rs x :
  NoDup (map objectId rs) -> x ∈ rs -> (forall o, o ∈ saved -> o ∈ rs) ->
  fold_left stepRow saved x = if idIn saved x then migratedRow x else x.
Proof.
  intros Hnd Hx. induction saved as [|o rest IH]; intros Hsub; [done|].
  rewrite (idIn_cons o rest x), idIn_singleton. simpl.
  unfold stepRow at 2, replaceRow.
  change (objectId (migratedRow o)) with (objectId o).
  case_bool_decide as E; simpl.
  - rewrite <- (NoDup_map_inj_on objectId rs x o); [|done|done| |done].
    + eapply fold_stepRow_migrated; [done..|]. intros o' Ho'. apply Hsub. by right.
    + apply Hsub. by left.
  - apply IH. intros o' Ho'. apply Hsub. by right.
Qed.

(** The rows after a batch whose records were all saved. *)
Lemma markMigrated_rows saved rs :
  NoDup (map objectId rs) -> (forall o, o ∈ saved -> o ∈ rs) ->
  markMigrated saved rs = map (fun x => if idIn saved x then migratedRow x else x) rs.
Proof.
  intros Hnd Hsub. rewrite markMigrated_map.
  apply map_ext_in. intros x Hx. apply (fold_stepRow saved rs); [done| |done].
  by apply list_elem_of_In.
Qed.

Lemma selected_elem klass w x : x ∈ selected klass w -> x ∈ rows w.
Proof.
  unfold selected. intros Hx. apply list_elem_of_In in Hx.
  apply List.filter_In in Hx as [Hx _]. by apply list_elem_of_In.
Qed.

Lemma selected_matches klass w x :
  x ∈ selected klass w -> matches (unmigratedQuery 0 klass) x = true.
Proof.
  unfold selected. intros Hx. apply list_elem_of_In in Hx.
  by apply List.filter_In in Hx as [_ Hx].
Qed.

Lemma idIn_elem saved rs x :
  NoDup (map objectId rs) -> x ∈ rs -> (forall o, o ∈ saved -> o ∈ rs) ->
  idIn saved x = true -> x ∈ saved.
Proof.
  intros Hnd Hx Hsub Hid. unfold idIn in Hid. apply bool_decide_eq_true in Hid.
  apply list_elem_of_In in Hid. apply List.in_map_iff in Hid as (o & E & Ho).
  apply list_elem_of_In in Ho.
  by rewrite (NoDup_map_inj_on objectId rs x o); [|done|done|apply Hsub|].
Qed.

Lemma sweptRow_migratedRow klass x : sweptRow klass (migratedRow x) = migratedRow x.
Proof. unfold sweptRow. by rewrite matches_migratedRow. Qed.

(** A batch of the first records the query selects, then a sweep of what
    is left, is a sweep. *)
Lemma sweptRow_after_batch klass B w :
  NoDup (map objectId (rows w)) ->
  map (sweptRow klass) (markMigrated (take B (selected klass w)) (rows w))
  = map (sweptRow klass) (rows w).
Proof.
  intros Hnd.
  assert (Hsub : forall o, o ∈ take B (selected klass w) -> o ∈ rows w).
  { intros o Ho. eapply selected_elem, elem_of_take_elem, Ho. }
  rewrite markMigrated_rows, map_map by done.
  apply map_ext_in. intros x Hx. apply list_elem_of_In in Hx.
  destruct (idIn _ x) eqn:E; [|done].
  apply (idIn_elem _ (rows w)) in E; [|done..].
  rewrite sweptRow_migratedRow. unfold sweptRow.
  by rewrite (selected_matches klass w x) by (eapply elem_of_take_elem, E).
Qed.

(** The last batch: every selected record is in it. *)
Lemma sweptRow_last_batch klass B w :
  NoDup (map objectId (rows w)) ->
  length (selected klass w) <= B ->
  markMigrated (take B (selected klass w)) (rows w) = map (sweptRow klass) (rows w).
Proof.
  intros Hnd Hlen. rewrite take_ge by lia.
  rewrite markMigrated_rows; [|done|apply selected_elem].
  apply map_ext_in. intros x Hx. apply list_elem_of_In in Hx.
  unfold sweptRow.
  destruct (idIn _ x) eqn:E.
  - apply (idIn_elem _ (rows w)) in E; [|done|done|apply selected_elem].
    by rewrite (selected_matches klass w x).
  - destruct (matches _ x) eqn:Em; [|done].
    exfalso. unfold idIn in E. apply bool_decide_eq_false in E. apply E.
    apply list_elem_of_In. apply List.in_map. unfold selected.
    apply List.filter_In. split; [by apply list_elem_of_In|done].
Qed.

(** The rows after a sweep whose migrations all go through. *)
Lemma sweep_all_rows mig klass B :
  0 < B -> storeNeutral mig -> alwaysFulfils mig ->
  forall (q n fuel : nat) st (total : nat) st',
    wellKeyed (rows (world st)) ->
    brokenIds (world st) = [] ->
    length (selected klass (world st)) = q * B + n ->
    n < B ->
    _migrateClass memParse B fuel klass mig None st = Some (Fulfilled total, st') ->
    rows (world st') = map (sweptRow klass) (rows (world st)).
Proof.
  intros HB Hneutral Hful q.
  induction q as [|q IH]; intros n fuel st total st' Hkeyed Hbroken Hlen Hn Hrun.
  - destruct fuel as [|fuel]; [done|].
    destruct (sweep_round mig klass B fuel None st Hneutral Hkeyed eq_refl)
      as (results & st1 & evs & saved & Hrun1 & Htr & Hf & Hc & Hb & Hl & Hrows
          & Hsav & Hout & Hall & Hok).
    specialize (Hok Hful Hbroken). destruct (Hall Hok) as [-> Hsaves].
    rewrite Hok in Hrun1.
    assert (Hobjs : length (take B (selected klass (world st))) = n).
    { rewrite length_take. lia. }
    rewrite Hobjs in *.
    rewrite (proj2 (Nat.eqb_neq n B)) in Hrun1 by lia.
    rewrite Hrun in Hrun1. injection Hrun1 as _ ->.
    rewrite Hrows. apply sweptRow_last_batch; [apply Hkeyed|lia].
  - destruct fuel as [|fuel]; [done|].
    destruct (sweep_round mig klass B fuel None st Hneutral Hkeyed eq_refl)
      as (results & st1 & evs & saved & Hrun1 & Htr & Hf & Hc & Hb & Hl & Hrows
          & Hsav & Hout & Hall & Hok).
    specialize (Hok Hful Hbroken). destruct (Hall Hok) as [-> Hsaves].
    rewrite Hok in Hrun1.
    assert (Hobjs : length (take B (selected klass (world st))) = B).
    { rewrite length_take. lia. }
    rewrite Hobjs in *. rewrite Nat.eqb_refl in Hrun1.
    assert (Hsel : selected klass (world st1) = drop B (selected klass (world st))).
    { unfold selected. rewrite Hrows, filter_matches_markMigrated.
      fold (selected klass (world st)).
      apply filter_notIn_take. apply NoDup_map_filter. apply Hkeyed. }
    rewrite Hrun in Hrun1. unfold bind in Hrun1.
    destruct (_migrateClass memParse B fuel klass mig None st1)
      as [[[accum|e] st2]|] eqn:Hrest; [|done|done].
    injection Hrun1 as _ ->.
    rewrite (IH n fuel st1 accum st2); [| | | |done|done].
    + rewrite Hrows. apply sweptRow_after_batch. apply Hkeyed.
    + rewrite Hrows. by apply wellKeyed_markMigrated.
    + congruence.
    + rewrite Hsel, length_drop. lia.
Qed.

Lemma length_savedRecords (evs : list (Event World)) :
  length (savedRecords evs) = savesUntilFind evs + sum_list (rounds evs).
Proof.
  induction evs as [|ev rest IH]; [done|].
  destruct ev; cbn [savedRecords savesUntilFind rounds length]; try lia.
  change (sum_list (savesUntilFind rest :: rounds rest))
    with (savesUntilFind rest + sum_list (rounds rest)).
  lia.
Qed.

Lemma sum_list_rounds (q B n : nat) : sum_list (replicate q B ++ [n]) = q * B + n.
Proof.
  induction q as [|q IH].
  - change (sum_list (replicate 0 B ++ [n])) with (n + 0). lia.
  - change (sum_list (replicate (S q) B ++ [n]))
      with (B + sum_list (replicate q B ++ [n])).
    rewrite IH. lia.
Qed.

(** A sweep whose migrations all go through, for any number of records. *)
Lemma sweep_any mig klass B (n fuel : nat) st :
  0 < B ->
  storeNeutral mig ->
  alwaysFulfils mig ->
  wellKeyed (rows (world st)) ->
  brokenIds (world st) = [] ->
  length (selected klass (world st)) = n ->
  n / B < fuel ->
  exists st' evs,
    _migrateClass memParse B fuel klass mig None st = Some (Fulfilled n, st')
    /\ trace st' = trace st ++ evs
    /\ rounds evs = replicate (n / B) B ++ [n mod B]
    /\ calls MigrateObject evs = n
    /\ length (savedRecords evs) = n
    /\ rows (world st') = map (sweptRow klass) (rows (world st))
    /\ selected klass (world st') = []
    /\ wellKeyed (rows (world st'))
    /\ brokenIds (world st') = [].
Proof.
  intros HB Hneutral Hful Hkeyed Hbroken Hlen Hfuel.
  assert (Hdiv : n = n / B * B + n mod B).
  { rewrite Nat.mul_comm. apply Nat.div_mod_eq. }
  assert (Hmod : n mod B < B) by (apply Nat.mod_upper_bound; lia).
  destruct (sweep_all mig klass B HB Hneutral Hful (n / B) (n mod B) fuel st)
    as (st' & evs & Hrun & Htr & Hrounds & Hnone & Hcalls & Hsel & Hkeyed' & Hbroken');
    [done|done|lia|done|done|].
  rewrite <- Hdiv in Hrun, Hcalls.
  exists st', evs. split; [done|]. split; [done|]. split; [done|]. split; [done|].
  split; [rewrite length_savedRecords, Hnone, Hrounds, sum_list_rounds; lia|].
  split; [|done].
  eapply (sweep_all_rows mig klass B HB Hneutral Hful (n / B) (n mod B)); [done|done|lia|done|].
  exact Hrun.
Qed.

(** X17. The sweep of a class whose migrations and saves all go through,
    for any number [n] of records the import query selects and any batch
    size: it returns [n], calls the migrate handler [n] times, saves [n]
    records and makes [n / BATCH_SIZE] full rounds and a last round of the
    remainder, which is empty when [n] is a multiple of the batch size.  Afterwards every
    selected record is stored with [IS_MIGRATED] and nothing pending, every
    other row of the store is as it was, in its place, and the query
    selects nothing. *)
Theorem sweep_migrates_every_record mig klass B (n fuel : nat) st :
  0 < B ->
  storeNeutral mig ->
  alwaysFulfils mig ->
  wellKeyed (rows (world st)) ->
  brokenIds (world st) = [] ->
  length (selected klass (world st)) = n ->
  n / B < fuel ->
  exists st' evs,
    _migrateClass memParse B fuel klass mig None st = Some (Fulfilled n, st')
    /\ trace st' = trace st ++ evs
    /\ rounds evs = replicate (n / B) B ++ [n mod B]
    /\ calls MigrateObject evs = n
    /\ length (savedRecords evs) = n
    /\ rows (world st') = map (sweptRow klass) (rows (world st))
    /\ selected klass (world st') = [].
Proof.
  intros HB Hneutral Hful Hkeyed Hbroken Hlen Hfuel.
  destruct (sweep_any mig klass B n fuel st HB Hneutral Hful Hkeyed Hbroken Hlen Hfuel)
    as (st' & evs & Hrun & Htr & Hrounds & Hcalls & Hsaves & Hrows & Hsel & _).
  by exists st', evs.
Qed.

Lemma migrateRecord_clock mig o st (res : Res JsVal) st' :
  storeNeutral mig -> clockMonotone mig -> (0 <= latency (world st))%Z ->
  migrateRecord memParse mig o st = Some (res, st') ->
  latency (world st') = latency (world st) /\ (clock (world st) <= clock (world st'))%Z.
Proof.
  intros Hneutral Hmono Hlat.
  destruct (Hneutral (ArgObject o) (world st)) as (_ & _ & Hl).
  pose proof (Hmono (ArgObject o) (world st)) as Hc.
  unfold migrateRecord.
  repeat progress (unfold bind, as_, ret, invoke, save, emit, liftW; simpl).
  destruct (mig (ArgObject o) (world st)) as [[v|e] w1]; simpl in *.
  - unfold mem_save.
    destruct (rejects w1 _); [|destruct (isNew _)]; intros [= _ <-]; simpl; lia.
  - intros [= _ <-]. simpl. lia.
Qed.

Lemma settleAll_clock mig objs st (results : Res (list (Res JsVal))) st' :
  storeNeutral mig -> clockMonotone mig -> (0 <= latency (world st))%Z ->
  settleAll (map (migrateRecord memParse mig) objs) st = Some (results, st') ->
  latency (world st') = latency (world st) /\ (clock (world st) <= clock (world st'))%Z.
Proof.
  intros Hneutral Hmono. revert st results st'.
  induction objs as [|o rest IH]; intros st results st' Hlat; simpl.
  - intros [= _ <-]. lia.
  - unfold bind, settle, ret.
    destruct (migrateRecord memParse mig o st) as [[r1 st1]|] eqn:E1; [|done].
    destruct (migrateRecord_clock mig o st r1 st1 Hneutral Hmono Hlat E1) as [Hl1 Hc1].
    destruct (settleAll _ st1) as [[[rs|e] st2]|] eqn:E2; [| |done].
    + destruct (IH st1 _ _ ltac:(lia) E2) as [Hl2 Hc2]. intros [= _ <-]. lia.
    + destruct (IH st1 _ _ ltac:(lia) E2) as [Hl2 Hc2]. intros [= _ <-]. lia.
Qed.

(** X18. The deadline of a sweep is looked at between batches only.  When
    the clock passes the deadline after the sweep has issued its query, the
    batch that was fetched is still migrated and saved in full; the sweep
    then stops without a further query, returns the size of that batch and
    leaves the remaining records for a later run. *)
Theorem sweep_stops_at_deadline mig klass B fuel (d : Z) st :
  storeNeutral mig ->
  alwaysFulfils mig ->
  clockMonotone mig ->
  wellKeyed (rows (world st)) ->
  brokenIds (world st) = [] ->
  (clock (world st) <= d)%Z ->
  (d < clock (world st) + latency (world st))%Z ->
  B <= length (selected klass (world st)) ->
  exists st' evs,
    _migrateClass memParse B (S (S fuel)) klass mig (Some d) st = Some (Fulfilled B, st')
    /\ trace st' = trace st ++ evs
    /\ rounds evs = [B]
    /\ calls MigrateObject evs = B
    /\ selected klass (world st') = drop B (selected klass (world st)).
Proof.
  intros Hneutral Hful Hmono Hkeyed Hbroken Hnot Hpast Hfull.
  set (objs := take B (selected klass (world st))).
  pose (st0 := afterFind B klass st).
  assert (Hnew : Forall (fun o => isNew o = false) objs).
  { apply Forall_take. by apply selected_isNew. }
  destruct (batch_run mig objs st0 Hneutral Hnew)
    as (results & st1 & evs & saved & Hrun & Htr & Hf & Hc & Hb & Hl & Hrows
        & Hsav & Hall & Hok).
  specialize (Hok Hful Hbroken). destruct (Hall Hok) as [-> Hsaves].
  destruct (settleAll_clock mig objs st0 (Fulfilled results) st1 Hneutral Hmono)
    as [_ Hclock];
    [simpl; lia|exact Hrun|].
  assert (Hlen : length objs = B) by (unfold objs; rewrite length_take; lia).
  assert (Hstop : _migrateClass memParse B (S fuel) klass mig (Some d) st1
                  = Some (Fulfilled 0, st1)).
  { apply migrateClass_past_deadline. simpl in *. lia. }
  exists st1, (EvFind (unmigratedQuery B klass) :: evs).
  split.
  { remember (S fuel) as fuel1 eqn:Efuel. simpl.
    unfold bind at 1. unfold Date_now. simpl.
    rewrite (proj2 (Z.ltb_ge _ _) Hnot).
    unfold console_log, promise_when, find.
    repeat progress (unfold bind, ret, fail, emit, liftW; simpl).
    change (List.filter (matches (unmigratedQuery B klass)) (rows (world st)))
      with (selected klass (world st)).
    fold objs.
    change {| trace := trace st ++ [EvFind (unmigratedQuery B klass)];
              world := tick (world st) |} with st0.
    rewrite Hrun.
    destruct (collect results) as [vs errs]. simpl in *. subst errs.
    rewrite length_map, Hlen, Nat.eqb_refl, Hstop. done. }
  split; [rewrite Htr; simpl; by rewrite <- app_assoc|].
  simpl. rewrite <- (app_nil_r evs) at 1 2.
  rewrite savesUntilFind_app, rounds_app by done. simpl.
  split; [f_equal; lia|].
  split; [unfold calls in *; simpl; lia|].
  unfold selected. rewrite Hrows, filter_matches_markMigrated.
  fold (selected klass (world st)).
  apply filter_notIn_take. apply NoDup_map_filter. apply Hkeyed.
Qed.

Lemma matches_className klass x :
  matches (unmigratedQuery 0 klass) x = true -> className x = klass.
Proof.
  unfold matches. simpl. intros H. apply andb_true_iff in H as [H _].
  by apply bool_decide_eq_true in H.
Qed.

Lemma matches_other_class klass x :
  className x <> klass -> matches (unmigratedQuery 0 klass) x = false.
Proof.
  intros Hne. destruct (matches _ x) eqn:E; [|done].
  by apply matches_className in E.
Qed.

(** A sweep leaves nothing of its class to select. *)
Lemma filter_matches_sweptRow_same klass rs :
  List.filter (matches (unmigratedQuery 0 klass)) (map (sweptRow klass) rs) = [].
Proof.
  induction rs as [|x rest IH]; [done|].
  cbn [map List.filter]. rewrite IH.
  unfold sweptRow. destruct (matches (unmigratedQuery 0 klass) x) eqn:E.
  - by rewrite matches_migratedRow.
  - by rewrite E.
Qed.

(** A sweep does not change what the query of another class selects. *)
Lemma filter_matches_sweptRow_other k k' rs :
  k <> k' ->
  List.filter (matches (unmigratedQuery 0 k)) (map (sweptRow k') rs)
  = List.filter (matches (unmigratedQuery 0 k)) rs.
Proof.
  intros Hne. induction rs as [|x rest IH]; [done|].
  cbn [map List.filter]. rewrite IH.
  unfold sweptRow. destruct (matches (unmigratedQuery 0 k') x) eqn:E; [|done].
  apply matches_className in E.
  rewrite !matches_other_class; [done|congruence|].
  change (className (migratedRow x)) with (className x). congruence.
Qed.

Lemma filter_matches_sweptRows k classes rs :
  List.filter (matches (unmigratedQuery 0 k)) (sweptRows classes rs)
  = if bool_decide (k ∈ classes) then []
    else List.filter (matches (unmigratedQuery 0 k)) rs.
Proof.
  revert rs. induction classes as [|k' rest IH]; intros rs; [done|].
  change (sweptRows (k' :: rest) rs) with (sweptRows rest (map (sweptRow k') rs)).
  rewrite IH.
  destruct (decide (k = k')) as [->|Hne].
  - rewrite filter_matches_sweptRow_same.
    rewrite (bool_decide_true (k' ∈ k' :: rest)) by (by left).
    by destruct (bool_decide _).
  - rewrite filter_matches_sweptRow_other by done.
    apply (f_equal (fun b : bool => if b then _ else _)).
    apply bool_decide_ext. rewrite elem_of_cons. naive_solver.
Qed.

Lemma length_rounds (evs : list (Event World)) : length (rounds evs) = finds evs.
Proof.
  unfold finds. induction evs as [|ev rest IH]; [done|].
  destruct ev; simpl; by rewrite ?IH.
Qed.

Lemma sum_list_cons (x : nat) (l : list nat) : sum_list (x :: l) = x + sum_list l.
Proof. done. Qed.

Lemma sum_list_zero (l : list nat) : Forall (fun n => n = 0) l -> sum_list l = 0.
Proof.
  induction 1 as [|x l Hx _ IH]; [done|]. by rewrite sum_list_cons, Hx, IH.
Qed.

(** The chain of the job over classes whose migrations all go through. *)
Lemma importChain_sweeps B fuel (triggers : list (string * Handlers World)) :
  0 < B ->
  NoDup (map fst triggers) ->
  (forall k h mig, (k, h) ∈ triggers -> migrateObject h = Some mig ->
                   storeNeutral mig /\ alwaysFulfils mig) ->
  forall (lastMigration : P World (nat * nat)) st (a b : nat) st1,
    lastMigration st = Some (Fulfilled (a, b), st1) ->
    wellKeyed (rows (world st1)) ->
    brokenIds (world st1) = [] ->
    (forall k, k ∈ migratingClasses triggers ->
               length (selected k (world st1)) / B < fuel) ->
    exists a' b' st2 evs,
      importChain memParse B fuel triggers lastMigration st
      = Some (Fulfilled (a', b'), st2)
      /\ a' + b'
         = a + b + sum_list (map (fun k => length (selected k (world st1)))
                               (migratingClasses triggers))
      /\ rows (world st2) = sweptRows (migratingClasses triggers) (rows (world st1))
      /\ trace st2 = trace st1 ++ evs
      /\ calls MigrateObject evs
         = sum_list (map (fun k => length (selected k (world st1)))
                       (migratingClasses triggers))
      /\ length (savedRecords evs)
         = sum_list (map (fun k => length (selected k (world st1)))
                       (migratingClasses triggers))
      /\ finds evs
         = sum_list (map (fun k => length (selected k (world st1)) / B + 1)
                       (migratingClasses triggers)).
Proof.
  intros HB. induction triggers as [|[k h] rest IH];
    intros Hnd Hmigs lastMigration st a b st1 Hlast Hkeyed Hbroken Hfuel.
  - exists a, b, st1, []. simpl. rewrite app_nil_r.
    split; [done|]. split; [lia|]. done.
  - apply NoDup_cons in Hnd as [Hk Hnd].
    assert (Hmigs' : forall k0 h0 mig, (k0, h0) ∈ rest -> migrateObject h0 = Some mig ->
                                       storeNeutral mig /\ alwaysFulfils mig).
    { intros k0 h0 mig Hin. apply (Hmigs k0 h0 mig). by right. }
    cbn [importChain].
    destruct (migrateObject h) as [mig|] eqn:Hmig.
    + assert (Hcls : migratingClasses ((k, h) :: rest) = k :: migratingClasses rest)
        by (by rewrite migratingClasses_cons, Hmig).
      rewrite Hcls in *.
      destruct (Hmigs k h mig) as [Hneutral Hful]; [by left|done|].
      destruct (sweep_any mig k B (length (selected k (world st1))) fuel st1
                  HB Hneutral Hful Hkeyed Hbroken eq_refl)
        as (st1' & evs1 & Hrun & Htr1 & Hrounds1 & Hcalls1 & Hsaves1 & Hrows & _
            & Hkeyed' & Hbroken').
      { apply Hfuel. by left. }
      assert (Hfinds1 : finds evs1 = length (selected k (world st1)) / B + 1).
      { by rewrite <- length_rounds, Hrounds1, length_app, length_replicate. }
      assert (Hsame : forall k0, k0 ∈ migratingClasses rest ->
                selected k0 (world st1') = selected k0 (world st1)).
      { intros k0 Hk0. unfold selected. rewrite Hrows.
        apply filter_matches_sweptRow_other. intros ->. apply Hk.
        unfold migratingClasses in Hk0. apply list_elem_of_In in Hk0.
        apply List.in_map_iff in Hk0 as ([k1 h1] & <- & Hin).
        apply List.filter_In in Hin as [Hin _].
        apply list_elem_of_In. by apply (List.in_map fst _ (k1, h1)). }
      match goal with
      | |- context [importChain memParse B fuel rest ?lm st] =>
          destruct (IH Hnd Hmigs' lm st (a + b) (length (selected k (world st1))) st1')
            as (a' & b' & st2 & evs2 & Hchain & Hsum & Hrows2 & Htr2 & Hcalls2
                & Hsaves2 & Hfinds2)
      end.
      { unfold bind, ret, console_log. rewrite Hlast. simpl. by rewrite Hrun. }
      { done. }
      { done. }
      { intros k0 Hk0. rewrite Hsame by done. apply Hfuel. by right. }
      assert (Hext : forall g : nat -> nat,
                map (fun k0 => g (length (selected k0 (world st1'))))
                  (migratingClasses rest)
                = map (fun k0 => g (length (selected k0 (world st1))))
                    (migratingClasses rest)).
      { intros g. apply map_ext_in. intros k0 Hk0.
        rewrite Hsame; [done|by apply list_elem_of_In]. }
      pose proof (Hext (fun n => n)) as Hext1.
      pose proof (Hext (fun n => n / B + 1)) as Hext2.
      simpl in Hext1, Hext2.
      rewrite Hext1 in Hsum, Hcalls2, Hsaves2. rewrite Hext2 in Hfinds2.
      exists a', b', st2, (evs1 ++ evs2). split; [exact Hchain|].
      cbn [map]. rewrite !sum_list_cons.
      split; [lia|]. split; [by rewrite Hrows2, Hrows|].
      split; [by rewrite Htr2, Htr1, app_assoc|].
      rewrite calls_app, finds_app, savedRecords_app, length_app.
      split; [lia|]. split; lia.
    + assert (Hcls : migratingClasses ((k, h) :: rest) = migratingClasses rest)
        by (by rewrite migratingClasses_cons, Hmig).
      rewrite Hcls in *. by apply IH.
Qed.

(** The job on a chain that went through, reporting to a sink that
    accepts the report. *)
Lemma getImportJob_total B fuel (self : Migrator World) request st (a b : nat) st1 :
  importChain memParse B fuel (_triggers self) (as_ (0, 0)) st
  = Some (Fulfilled (a, b), st1) ->
  getImportJob memParse B fuel self request hostSink st
  = Some (Fulfilled (Some (a + b)),
          {| trace := trace st1
               ++ [EvStatusSuccess
                     (JStr (if Nat.eqb (a + b) 0 then "Completed initial import!"
                            else "Done with an import pass"))];
             world := world st1 |}).
Proof.
  intros Hchain. unfold getImportJob.
  repeat progress (unfold then2, bind at 1 2, ret at 1, console_log; simpl).
  rewrite Hchain. simpl.
  by repeat progress (unfold status_success, bind, emit, liftW, ret; simpl).
Qed.

(** X19. The import job over a registry with any number of classes, on a
    store where the migrations and saves go through: it sweeps every class
    that has a migrate handler, calls the migrate handler once and issues
    one save for every record the import query selected, and resolves to
    their number.  Afterwards every one of those records is stored with
    [IS_MIGRATED], the other rows are as they were, the query of no
    migrating class selects anything, and the job has reported "Done with an
    import pass", or "Completed initial import!" when there was nothing to
    migrate. *)
Theorem import_job_sweeps_every_class B fuel (self : Migrator World) request w :
  0 < B ->
  NoDup (map fst (_triggers self)) ->
  (forall k h mig, (k, h) ∈ _triggers self -> migrateObject h = Some mig ->
                   storeNeutral mig /\ alwaysFulfils mig) ->
  wellKeyed (rows w) ->
  brokenIds w = [] ->
  (forall k, k ∈ migratingClasses (_triggers self) -> length (selected k w) / B < fuel) ->
  let classes := migratingClasses (_triggers self) in
  let total := sum_list (map (fun k => length (selected k w)) classes) in
  exists st',
    getImportJob memParse B fuel self request hostSink (start w)
    = Some (Fulfilled (Some total), st')
    /\ calls MigrateObject (trace st') = total
    /\ length (savedRecords (trace st')) = total
    /\ finds (trace st')
       = sum_list (map (fun k => length (selected k w) / B + 1) classes)
    /\ rows (world st') = sweptRows classes (rows w)
    /\ (forall k, k ∈ classes -> selected k (world st') = [])
    /\ last (trace st')
       = Some (EvStatusSuccess
                 (JStr (if Nat.eqb total 0 then "Completed initial import!"
                        else "Done with an import pass"))).
Proof.
  intros HB Hnd Hmigs Hkeyed Hbroken Hfuel classes total.
  destruct (importChain_sweeps B fuel (_triggers self) HB Hnd Hmigs
              (as_ (0, 0)) (start w) 0 0 (start w) eq_refl Hkeyed Hbroken Hfuel)
    as (a & b & st2 & evs & Hchain & Hsum & Hrows & Htr & Hcalls & Hsaves & Hfinds).
  simpl in Hsum, Hrows, Htr, Hcalls, Hsaves, Hfinds.
  fold classes in Hsum, Hrows, Hcalls, Hsaves, Hfinds.
  fold total in Hsum, Hcalls, Hsaves.
  rewrite (getImportJob_total B fuel self request (start w) a b st2 Hchain).
  rewrite Hsum. eexists. split; [done|]. simpl. rewrite Htr.
  rewrite calls_app, finds_app, savedRecords_app, length_app.
  split; [unfold calls at 2; simpl; lia|].
  split; [simpl; lia|].
  split; [unfold finds at 2; simpl; lia|].
  split; [done|]. split; [|apply last_snoc].
  intros k Hk. unfold selected. rewrite Hrows, filter_matches_sweptRows.
  by rewrite bool_decide_true.
Qed.

Lemma sweptRow_idle klass rs :
  List.filter (matches (unmigratedQuery 0 klass)) rs = [] ->
  map (sweptRow klass) rs = rs.
Proof.
  induction rs as [|x rest IH]; [done|]. cbn [List.filter map].
  unfold sweptRow at 1. destruct (matches _ x); [done|].
  intros Hrest. by rewrite IH.
Qed.

Lemma sweptRows_idle classes rs :
  (forall k, k ∈ classes -> List.filter (matches (unmigratedQuery 0 k)) rs = []) ->
  sweptRows classes rs = rs.
Proof.
  induction classes as [|k rest IH]; intros Hnone; [done|].
  change (sweptRows (k :: rest) rs) with (sweptRows rest (map (sweptRow k) rs)).
  rewrite sweptRow_idle by (apply Hnone; by left).
  apply IH. intros k0 Hk0. apply Hnone. by right.
Qed.

(** X20. A run of the import job on a store where the import query of no
    migrating class selects anything is idle: it makes one query per
    migrating class, calls no migrate handler, saves nothing, changes no
    row, resolves to 0 and reports "Completed initial import!".  This is
    what the run after a complete run does. *)
Theorem import_job_idle_run B fuel (self : Migrator World) request w :
  0 < B ->
  0 < fuel ->
  NoDup (map fst (_triggers self)) ->
  (forall k h mig, (k, h) ∈ _triggers self -> migrateObject h = Some mig ->
                   storeNeutral mig /\ alwaysFulfils mig) ->
  wellKeyed (rows w) ->
  brokenIds w = [] ->
  (forall k, k ∈ migratingClasses (_triggers self) -> selected k w = []) ->
  exists st',
    getImportJob memParse B fuel self request hostSink (start w)
    = Some (Fulfilled (Some 0), st')
    /\ calls MigrateObject (trace st') = 0
    /\ savedRecords (trace st') = []
    /\ finds (trace st') = length (migratingClasses (_triggers self))
    /\ rows (world st') = rows w
    /\ last (trace st') = Some (EvStatusSuccess (JStr "Completed initial import!")).
Proof.
  intros HB Hfuel Hnd Hmigs Hkeyed Hbroken Hnone.
  assert (Hfuel' : forall k, k ∈ migratingClasses (_triggers self) ->
                             length (selected k w) / B < fuel).
  { intros k Hk. rewrite (Hnone k Hk). simpl. by rewrite Nat.Div0.div_0_l. }
  destruct (importChain_sweeps B fuel (_triggers self) HB Hnd Hmigs
              (as_ (0, 0)) (start w) 0 0 (start w) eq_refl Hkeyed Hbroken Hfuel')
    as (a & b & st2 & evs & Hchain & Hsum & Hrows & Htr & Hcalls & Hsaves & Hfinds).
  simpl in Hsum, Hrows, Htr, Hcalls, Hsaves, Hfinds.
  assert (Hzero : sum_list (map (fun k => length (selected k w))
                              (migratingClasses (_triggers self))) = 0).
  { apply sum_list_zero. apply List.Forall_forall. intros n Hn.
    apply List.in_map_iff in Hn as (k & <- & Hk).
    by rewrite (Hnone k) by (by apply list_elem_of_In). }
  assert (Hone : sum_list (map (fun k => length (selected k w) / B + 1)
                             (migratingClasses (_triggers self)))
                 = length (migratingClasses (_triggers self))).
  { clear -Hnone. induction (migratingClasses (_triggers self)) as [|k rest IH]; [done|].
    cbn [map length]. rewrite sum_list_cons.
    rewrite (Hnone k) by (by left). simpl length. rewrite Nat.Div0.div_0_l.
    rewrite IH; [done|]. intros k0 Hk0. apply Hnone. by right. }
  rewrite Hzero in Hsum, Hcalls, Hsaves. rewrite Hone in Hfinds.
  rewrite (getImportJob_total B fuel self request (start w) a b st2 Hchain).
  rewrite Hsum. eexists. split; [done|]. simpl. rewrite Htr.
  rewrite calls_app, finds_app, savedRecords_app.
  apply length_zero_iff_nil in Hsaves. rewrite Hsaves.
  split; [unfold calls at 2; simpl; lia|].
  split; [done|].
  split; [unfold finds at 2; simpl; lia|].
  split; [|apply last_snoc]. rewrite Hrows. apply sweptRows_idle.
  intros k Hk. apply (Hnone k Hk).
Qed.

End StoreMore.

(** ** The further properties on the sample inputs *)

Section MoreSampleFacts.

Import MemStore Samples StoreObservations MoreSamples.

Lemma slowMig_storeNeutral : storeNeutral slowMig.
Proof. intros args w. done. Qed.

Lemma slowMig_alwaysFulfils : alwaysFulfils slowMig.
Proof. intros args w. by exists JUndefined. Qed.

Lemma importMig_clockMonotone : clockMonotone importMig.
Proof. intros args w. simpl. lia. Qed.

Lemma wellKeyed_mixedWorld : wellKeyed (rows mixedWorld).
Proof.
  split.
  - refine (bool_decide_unpack _ _). vm_compute. exact I.
  - repeat constructor.
Qed.

Lemma wellKeyed_twoClassWorld : wellKeyed (rows twoClassWorld).
Proof.
  split.
  - refine (bool_decide_unpack _ _). vm_compute. exact I.
  - repeat constructor.
Qed.

(** X1 on the first registration of a script: migrateObject for Widget,
    the class given by its constructor. *)
Lemma register_then_lookup_witness :
  getTrigger (handlers widgetRegistry (KCtor "function Widget() {}" "Widget"))
    MigrateObject = Some importMig
  /\ (forall klass' t',
        classString klass' <> classString (KCtor "function Widget() {}" "Widget")
        \/ t' <> MigrateObject ->
        getTrigger (handlers widgetRegistry klass') t'
        = getTrigger (handlers newMigrator klass') t')
  /\ map fst (_triggers widgetRegistry)
     = if bool_decide (classString (KCtor "function Widget() {}" "Widget")
                       ∈ map fst (_triggers (@newMigrator World)))
       then map fst (_triggers (@newMigrator World))
       else map fst (_triggers (@newMigrator World))
            ++ [classString (KCtor "function Widget() {}" "Widget")].
Proof.
  exact (register_then_lookup newMigrator widgetRegistry MigrateObject
           (KCtor "function Widget() {}" "Widget") importMig eq_refl).
Defined.

(** X3 on the script of three registrations, for the migrate handler of
    Widget. *)
Lemma registry_holds_exactly_the_script_witness :
  getTrigger (handlers threeRegistry (KString "Widget")) MigrateObject = Some importMig
  <-> exists r, r ∈ threeRegistrations
                /\ classString (r_klass r) = classString (KString "Widget")
                /\ r_type r = MigrateObject /\ r_callback r = importMig.
Proof.
  exact (registry_holds_exactly_the_script threeRegistrations threeRegistry
           (KString "Widget") MigrateObject importMig eq_refl).
Defined.

(** X4 on the registry of the three registrations, for Widget. *)
Lemma exportTriggers_installs_witness :
  let installed :=
    map hookOf (exportTriggers memParse DEFAULT_BATCH_SIZE threeRegistry []) in
  let h := handlers threeRegistry (KString "Widget") in
  (("beforeSave", "Widget") ∈ installed
   <-> is_Some (beforeSave h) \/ is_Some (migrateObject h))
  /\ (("afterSave", "Widget") ∈ installed
      <-> is_Some (afterSave h) \/ is_Some (migrateObject h))
  /\ (("beforeDelete", "Widget") ∈ installed
      <-> is_Some (beforeDelete h) \/ is_Some (migrateDelete h))
  /\ (("afterDelete", "Widget") ∈ installed <-> is_Some (afterDelete h))
  /\ last installed = Some ("job", "import")
  /\ NoDup installed.
Proof.
  exact (exportTriggers_installs memParse DEFAULT_BATCH_SIZE threeRegistrations
           threeRegistry "Widget" eq_refl).
Defined.

(** X6 on a beforeSave handler that resolves to [null]. *)
Lemma beforeSave_resolving_to_null_fails_witness :
  exists r st' msg,
    getBeforeSave (saveRegistry (Some (resolvingTo JNull)) None (Some importMig))
      (KString "Widget") legacyWrite hostSink (start twoClassWorld) = Some (r, st')
    /\ trace st'
       = trace (start twoClassWorld)
         ++ [EvCall BeforeSave (ArgRequestResponse legacyWrite ThisIsNotAResponseObject);
             EvResponseError (JTypeError msg)]
    /\ (r, world st') = error hostSink (JTypeError msg) twoClassWorld.
Proof.
  exact (beforeSave_resolving_to_null_fails
           (saveRegistry (Some (resolvingTo JNull)) None (Some importMig))
           (KString "Widget") legacyWrite hostSink (start twoClassWorld)
           (resolvingTo JNull) twoClassWorld eq_refl eq_refl eq_refl).
Defined.

(** X7 on a beforeSave handler that is rejected. *)
Lemma beforeSave_failure_refuses_write_witness :
  exists r st',
    getBeforeSave (saveRegistry (Some (failingHandler (JStr "no"))) None (Some importMig))
      (KString "Widget") legacyWrite hostSink (start twoClassWorld) = Some (r, st')
    /\ trace st'
       = trace (start twoClassWorld)
         ++ [EvCall BeforeSave (ArgRequestResponse legacyWrite ThisIsNotAResponseObject);
             EvResponseError (JStr "no")]
    /\ (r, world st') = error hostSink (JStr "no") twoClassWorld.
Proof.
  exact (beforeSave_failure_refuses_write
           (saveRegistry (Some (failingHandler (JStr "no"))) None (Some importMig))
           (KString "Widget") legacyWrite hostSink (start twoClassWorld)
           (failingHandler (JStr "no")) (JStr "no") twoClassWorld
           eq_refl eq_refl eq_refl).
Defined.

(** X8 on a write whose beforeSave handler resolves to a replacement. *)
Lemma accepted_record_differs_in_status_only_witness :
  let self :=
    saveRegistry (Some (resolvingTo (JParse (widget 7)))) None (Some importMig) in
  let o := set_ (widget 7) MIGRATION_KEY IS_MIGRATED in
  exists obj,
    (obj = object legacyWrite
     \/ exists h,
          beforeSave (handlers self (KString "Widget")) = Some h
          /\ fst (h (ArgRequestResponse legacyWrite ThisIsNotAResponseObject)
                    (world (start twoClassWorld)))
             = Fulfilled (JParse obj))
    /\ className o = className obj
    /\ objectId o = objectId obj
    /\ existed o = existed obj
    /\ (forall key, key <> MIGRATION_KEY -> get o key = get obj key)
    /\ (o = obj
        \/ get o MIGRATION_KEY = Some IS_MIGRATED
        \/ get o MIGRATION_KEY = Some FINISHED_SECOND_PASS).
Proof.
  intros self o.
  eapply (accepted_record_differs_in_status_only self (KString "Widget") legacyWrite
            hostSink (start twoClassWorld)).
  - vm_compute. reflexivity.
  - vm_compute. reflexivity.
Defined.

(** X10 on a widget as the import query fetches it. *)
Lemma import_save_passes_the_hooks_witness :
  let saved := set_ (widget 0) MIGRATION_KEY IS_MIGRATED in
  (exists r st',
     getBeforeSave threeRegistry (KString "Widget") {| object := saved |} hostSink
       (start twoClassWorld) = Some (r, st')
     /\ trace st' = trace (start twoClassWorld) ++ [EvResponseSuccess (JParse saved)])
  /\ (exists r st',
        getAfterSave memParse threeRegistry (KString "Widget") {| object := saved |}
          (start twoClassWorld) = Some (r, st')
        /\ savedRecords (trace st') = savedRecords (trace (start twoClassWorld))
        /\ calls MigrateObject (trace st')
           = calls MigrateObject (trace (start twoClassWorld))).
Proof.
  exact (import_save_passes_the_hooks memParse threeRegistry (KString "Widget")
           (widget 0) hostSink (start twoClassWorld) eq_refl eq_refl).
Defined.

(** X12 on a beforeDelete handler that resolves to another record. *)
Lemma beforeDelete_outcome_decides_witness :
  let self := deleteRegistry (Some (resolvingTo (JParse (widget 7)))) None (Some importMig) in
  exists r st',
    getBeforeDelete self (KString "Widget") legacyWrite hostSink (start twoClassWorld)
    = Some (r, st')
    /\ trace st'
       = trace (start twoClassWorld)
         ++ EvCall BeforeDelete (ArgRequestResponse legacyWrite ThisIsNotAResponseObject)
         :: match resolvingTo (JParse (widget 7))
                    (ArgRequestResponse legacyWrite ThisIsNotAResponseObject)
                    (world (start twoClassWorld)) with
            | (Failed e, _) => [EvResponseError e]
            | (Fulfilled _, w1) =>
                EvCall MigrateDelete (ArgObject (object legacyWrite))
                :: match importMig (ArgObject (object legacyWrite)) w1 with
                   | (Fulfilled _, _) => [EvResponseSuccess JUndefined]
                   | (Failed e, _) => [EvResponseError e]
                   end
            end.
Proof.
  intros self.
  exact (beforeDelete_outcome_decides self (KString "Widget") legacyWrite hostSink
           (start twoClassWorld) (resolvingTo (JParse (widget 7))) importMig
           eq_refl eq_refl).
Defined.

(** X13 on the afterDelete handler of Gadget. *)
Lemma afterDelete_handler_gets_undefined_witness :
  getAfterDelete threeRegistry (KString "Gadget") legacyWrite (start twoClassWorld)
  = Some (fst (importMig (ArgValue JUndefined) (world (start twoClassWorld))),
          {| trace := trace (start twoClassWorld)
                      ++ [EvCall AfterDelete (ArgValue JUndefined)];
             world := snd (importMig (ArgValue JUndefined)
                             (world (start twoClassWorld))) |}).
Proof.
  apply (afterDelete_handler_gets_undefined threeRegistrations threeRegistry
           {| r_type := AfterDelete; r_klass := KString "Gadget";
              r_callback := importMig |} legacyWrite (start twoClassWorld)).
  - reflexivity.
  - right. right. left.
  - reflexivity.
Defined.

(** X14 on a run over a store where one save is rejected. *)
Lemma import_job_trace_witness :
  exists r st',
    getImportJob memParse 2 1 widgetRegistry legacyWrite hostSink (start brokenWorld)
    = Some (r, st')
    /\ exists evs ans,
         trace st' = trace (start brokenWorld) ++ evs ++ [ans]
         /\ Forall (jobEvent 2 (_triggers widgetRegistry)) evs
         /\ ((exists msg, ans = EvStatusSuccess (JStr msg))
             \/ exists e, ans = EvStatusError e).
Proof.
  eexists _, _. split; [vm_compute; reflexivity|].
  eapply (import_job_trace memParse 2 1 widgetRegistry legacyWrite hostSink
            (start brokenWorld)).
  vm_compute. reflexivity.
Defined.

(** X15 on a registry with before handlers only. *)
Lemma import_job_without_migrations_witness :
  exists r st',
    getImportJob memParse DEFAULT_BATCH_SIZE 0 callbackRegistry legacyWrite hostSink
      (start twoClassWorld) = Some (r, st')
    /\ trace st' = trace (start twoClassWorld)
                   ++ [EvStatusSuccess (JStr "Completed initial import!")]
    /\ world st'
       = snd (success hostSink (JStr "Completed initial import!")
                (world (start twoClassWorld)))
    /\ (r = Fulfilled (Some 0) \/ exists e, r = Failed e).
Proof.
  exact (import_job_without_migrations memParse DEFAULT_BATCH_SIZE 0 callbackRegistry
           legacyWrite hostSink (start twoClassWorld) eq_refl).
Defined.

(** X16 on a store that cannot be reached. *)
Lemma query_failure_ends_the_job_witness :
  exists r st',
    getImportJob (offlineParse (JStr "offline")) DEFAULT_BATCH_SIZE 1 twoClassRegistry
      legacyWrite hostSink (start twoClassWorld) = Some (r, st')
    /\ trace st'
       = trace (start twoClassWorld)
         ++ [EvFind (unmigratedQuery DEFAULT_BATCH_SIZE "Alpha");
             EvStatusError (JStr "offline")]
    /\ (r, world st') = match error hostSink (JStr "offline") twoClassWorld with
                        | (Fulfilled _, w') => (Fulfilled None, w')
                        | (Failed e', w') => (Failed e', w')
                        end.
Proof.
  exact (query_failure_ends_the_job (offlineParse (JStr "offline")) DEFAULT_BATCH_SIZE 0
           twoClassRegistry legacyWrite hostSink (start twoClassWorld)
           "Alpha" ["Beta"] (JStr "offline") twoClassWorld eq_refl eq_refl).
Defined.

(** X17 on a store with three unmigrated widgets, a widget waiting for
    its second pass and a record of another class, in batches of two. *)
Lemma sweep_migrates_every_record_witness :
  exists st' evs,
    _migrateClass memParse 2 2 "Widget" importMig None (start mixedWorld)
    = Some (Fulfilled 3, st')
    /\ trace st' = trace (start mixedWorld) ++ evs
    /\ rounds evs = replicate (3 / 2) 2 ++ [3 mod 2]
    /\ calls MigrateObject evs = 3
    /\ length (savedRecords evs) = 3
    /\ rows (world st') = map (sweptRow "Widget") (rows (world (start mixedWorld)))
    /\ selected "Widget" (world st') = [].
Proof.
  apply (sweep_migrates_every_record importMig "Widget" 2 3 2 (start mixedWorld)).
  - lia.
  - exact importMig_storeNeutral.
  - exact importMig_alwaysFulfils.
  - exact wellKeyed_mixedWorld.
  - reflexivity.
  - vm_compute. reflexivity.
  - vm_compute. lia.
Defined.

(** X18 on five widgets, batches of two, a store that takes a minute per
    operation and a deadline half a minute away. *)
Lemma sweep_stops_at_deadline_witness :
  exists st' evs,
    _migrateClass memParse 2 2 "Widget" importMig (Some 30000%Z) (start slowWorld)
    = Some (Fulfilled 2, st')
    /\ trace st' = trace (start slowWorld) ++ evs
    /\ rounds evs = [2]
    /\ calls MigrateObject evs = 2
    /\ selected "Widget" (world st') = drop 2 (selected "Widget" (world (start slowWorld))).
Proof.
  apply (sweep_stops_at_deadline importMig "Widget" 2 0 30000%Z (start slowWorld)).
  - exact importMig_storeNeutral.
  - exact importMig_alwaysFulfils.
  - exact importMig_clockMonotone.
  - exact (wellKeyed_widgets 5).
  - reflexivity.
  - simpl. lia.
  - simpl. lia.
  - vm_compute. lia.
Defined.

(** X19 on two migrating classes with one record each. *)
Lemma import_job_sweeps_every_class_witness :
  let classes := migratingClasses (_triggers twoClassRegistry) in
  let total := sum_list (map (fun k => length (selected k twoClassWorld)) classes) in
  exists st',
    getImportJob memParse 2 1 twoClassRegistry legacyWrite hostSink (start twoClassWorld)
    = Some (Fulfilled (Some total), st')
    /\ calls MigrateObject (trace st') = total
    /\ length (savedRecords (trace st')) = total
    /\ finds (trace st')
       = sum_list (map (fun k => length (selected k twoClassWorld) / 2 + 1) classes)
    /\ rows (world st') = sweptRows classes (rows twoClassWorld)
    /\ (forall k, k ∈ classes -> selected k (world st') = [])
    /\ last (trace st')
       = Some (EvStatusSuccess
                 (JStr (if Nat.eqb total 0 then "Completed initial import!"
                        else "Done with an import pass"))).
Proof.
  apply (import_job_sweeps_every_class 2 1 twoClassRegistry legacyWrite twoClassWorld).
  - lia.
  - refine (bool_decide_unpack _ _). vm_compute. exact I.
  - intros k h mig Hin Hmig.
    apply elem_of_cons in Hin as [[= -> ->]|Hin].
    { injection Hmig as <-. split; [exact slowMig_storeNeutral|exact slowMig_alwaysFulfils]. }
    apply elem_of_cons in Hin as [[= -> ->]|Hin].
    { injection Hmig as <-.
      split; [exact importMig_storeNeutral|exact importMig_alwaysFulfils]. }
    by apply elem_of_nil in Hin.
  - exact wellKeyed_twoClassWorld.
  - reflexivity.
  - intros k Hk.
    apply elem_of_cons in Hk as [->|Hk]; [vm_compute; lia|].
    apply elem_of_cons in Hk as [->|Hk]; [vm_compute; lia|].
    by apply elem_of_nil in Hk.
Defined.

(** X20 on a store whose widgets are all migrated. *)
Lemma import_job_idle_run_witness :
  exists st',
    getImportJob memParse 2 1 widgetRegistry legacyWrite hostSink (start migratedWorld)
    = Some (Fulfilled (Some 0), st')
    /\ calls MigrateObject (trace st') = 0
    /\ savedRecords (trace st') = []
    /\ finds (trace st') = length (migratingClasses (_triggers widgetRegistry))
    /\ rows (world st') = rows migratedWorld
    /\ last (trace st') = Some (EvStatusSuccess (JStr "Completed initial import!")).
Proof.
  apply (import_job_idle_run 2 1 widgetRegistry legacyWrite migratedWorld).
  - lia.
  - lia.
  - refine (bool_decide_unpack _ _). vm_compute. exact I.
  - intros k h mig Hin Hmig.
    apply elem_of_cons in Hin as [[= -> ->]|Hin]; [|by apply elem_of_nil in Hin].
    injection Hmig as <-.
    split; [exact importMig_storeNeutral|exact importMig_alwaysFulfils].
  - split; [refine (bool_decide_unpack _ _); vm_compute; exact I|repeat constructor].
  - reflexivity.
  - intros k Hk.
    apply elem_of_cons in Hk as [->|Hk]; [reflexivity|by apply elem_of_nil in Hk].
Defined.

End MoreSampleFacts.
